(** * PokePipeline: a shallow embedding of the extract-transform-load code

    The development follows the layout of the Python package:
    - [Py]        the Python values and built-ins the package relies on
                  (JSON values, exceptions, [int], [bool], [str.split], ...);
    - [PyFloat]   Python floats as IEEE-754 binary64, on [SpecFloat];
    - [Config]    pokepipeline/config.py;
    - [TPokemon], [Etl]    pokepipeline/etl.py, extraction and transformation;
    - [Pokemon], [Db]      pokepipeline/models.py and pokepipeline/db.py, with
                  the part of the ORM session that the loader uses;
    - [Load]      pokepipeline/etl.py, loading;
    - [Pipeline]  pokepipeline/pipeline.py;
    - [Gather]    the semaphore discipline of [fetch_pokemon_details];
    - [Spec]      the wording of the specification where a property
                  compares the code with it;
    - [Samples]   the payload of test/test_transform.py and a small remote
                  API.
    Definitions come first, the verified properties after them. *)

From Stdlib Require Import ZArith Lia String Ascii List DecimalString.
From Stdlib Require DecimalPos DecimalZ.
From Stdlib Require Import Floats.SpecFloat.
From stdpp Require Import base option list strings gmap sorting.

Local Open Scope string_scope.
Local Open Scope Z_scope.

(* ===================================================================== *)
(** ** Python values, exceptions and built-ins *)
(* ===================================================================== *)

Module Py.

(** What [resp.json()] returns: [None], [bool], [int] (unbounded), [float]
    (binary64), [str], [list] and [dict].  A dict is the list of its items;
    subscripting finds the first item with the key. *)
#[warnings="-register-all"]
Inductive json :=
  | JNull
  | JBool (b : bool)
  | JInt (n : Z)
  | JFloat (f : spec_float)
  | JStr (s : string)
  | JArr (l : list json)
  | JObj (o : list (string * json)).

(** The exceptions that the package can meet.  [HTTPError] stands for what
    [client.get] and [raise_for_status] raise (transport failure, timeout,
    non-success status); [IntegrityError] for what the store raises on a
    violated constraint.  [Hang] is no exception: it marks a run that
    never returns. *)
Inductive exn :=
  | KeyError (k : string)
  | TypeError
  | ValueError
  | AttributeError
  | IndexError
  | OverflowError
  | ZeroDivisionError
  | AssertionError
  | HTTPError (status : Z)
  | IntegrityError
  | Hang.

(** A computation either returns or raises. *)
Inductive result (A : Type) :=
  | Ok (a : A)
  | Err (e : exn).
Arguments Ok {A} a.
Arguments Err {A} e.

Global Instance result_ret : MRet result := fun A a => Ok a.
Global Instance result_bind : MBind result := fun A B f m =>
  match m with
  | Ok a => f a
  | Err e => Err e
  end.
Global Instance result_fmap : FMap result := fun A B f m =>
  match m with
  | Ok a => Ok (f a)
  | Err e => Err e
  end.

Definition is_ok {A} (r : result A) : bool :=
  match r with Ok _ => true | Err _ => false end.

(** [[f(x) for x in l]]: the first exception aborts the comprehension. *)
Fixpoint for_each {A B} (f : A -> result B) (l : list A) : result (list B) :=
  match l with
  | [] => Ok []
  | x :: l' => y ← f x; ys ← for_each f l'; Ok (y :: ys)
  end.

(** *** Equality of values *)

Global Instance spec_float_eq_dec : EqDecision spec_float.
Proof. solve_decision. Defined.

Fixpoint json_eq_dec (x y : json) : {x = y} + {x <> y}.
Proof.
  decide equality.
  - apply bool_eq_dec.
  - apply Z.eq_dec.
  - apply spec_float_eq_dec.
  - apply String.eq_dec.
  - apply (List.list_eq_dec json_eq_dec).
  - apply List.list_eq_dec. intros [a u] [b v].
    destruct (String.eq_dec a b); [|right; congruence].
    destruct (json_eq_dec u v); [left|right]; congruence.
Defined.
Global Instance json_eqdec : EqDecision json := json_eq_dec.

Global Instance exn_eq_dec : EqDecision exn.
Proof. solve_decision. Defined.

(** *** Subscripts, [dict.get], iteration *)

Fixpoint assoc (k : string) (o : list (string * json)) : option json :=
  match o with
  | [] => None
  | (k', v) :: o' => if String.eqb k k' then Some v else assoc k o'
  end.

(** [v[k]] for a string key [k]. *)
Definition getitem (v : json) (k : string) : result json :=
  match v with
  | JObj o => match assoc k o with
              | Some x => Ok x
              | None => Err (KeyError k)
              end
  | _ => Err TypeError
  end.

(** [v.get(k, d)]. *)
Definition get (v : json) (k : string) (d : json) : result json :=
  match v with
  | JObj o => Ok (default d (assoc k o))
  | _ => Err AttributeError
  end.

Fixpoint chars (s : string) : list json :=
  match s with
  | EmptyString => []
  | String a s' => JStr (String a EmptyString) :: chars s'
  end.

(** [for x in v]: a list yields its elements, a str its characters, a dict
    its keys; nothing else is iterable. *)
Definition iter (v : json) : result (list json) :=
  match v with
  | JArr l => Ok l
  | JStr s => Ok (chars s)
  | JObj o => Ok (map (fun kv => JStr (fst kv)) o)
  | _ => Err TypeError
  end.

(** [l[-1]]. *)
Definition last_item {A} (l : list A) : result A :=
  match last l with
  | Some x => Ok x
  | None => Err IndexError
  end.

(** *** [str] methods *)

(** [s.rstrip(c)] for a one-character [c]. *)
Fixpoint rstrip (c : ascii) (s : string) : string :=
  match s with
  | EmptyString => EmptyString
  | String a s' =>
      match rstrip c s' with
      | EmptyString => if Ascii.eqb a c then EmptyString else String a EmptyString
      | r => String a r
      end
  end.

(** [s.split(c)] for a one-character separator: never empty. *)
Fixpoint split (c : ascii) (s : string) : list string :=
  match s with
  | EmptyString => [EmptyString]
  | String a s' =>
      if Ascii.eqb a c then EmptyString :: split c s'
      else match split c s' with
           | seg :: segs => String a seg :: segs
           | [] => [String a EmptyString]
           end
  end.

(** [s.startswith(p)]. *)
Definition startswith (s p : string) : bool := String.prefix p s.

(** *** [int(...)] *)

(** The white space [int] skips around a literal. *)
Definition is_space (a : ascii) : bool :=
  let n := N_of_ascii a in
  (N.eqb n 32 || (N.leb 9 n && N.leb n 13))%bool.

Definition digit (a : ascii) : option Z :=
  let n := N_of_ascii a in
  if (N.leb 48 n && N.leb n 57)%bool then Some (Z.of_N n - 48) else None.

Fixpoint lstrip_space (s : string) : string :=
  match s with
  | String a s' => if is_space a then lstrip_space s' else s
  | EmptyString => EmptyString
  end.

Fixpoint all_space (s : string) : bool :=
  match s with
  | String a s' => (is_space a && all_space s')%bool
  | EmptyString => true
  end.

(** Digits of a decimal literal, [acc] being the value read so far and
    [after_digit] telling whether the previous character was a digit: an
    underscore is accepted between two digits only. *)
Fixpoint int_digits (acc : Z) (after_digit : bool) (s : string) : option Z :=
  match s with
  | EmptyString => if after_digit then Some acc else None
  | String a s' =>
      match digit a with
      | Some d => int_digits (acc * 10 + d) true s'
      | None =>
          if Ascii.eqb a "_" then
            if after_digit then
              match s' with
              | String b _ =>
                  match digit b with
                  | Some _ => int_digits acc false s'
                  | None => None
                  end
              | EmptyString => None
              end
            else None
          else if (after_digit && all_space s)%bool then Some acc
          else None
      end
  end.

(** [int(s)] for a str in base 10, on ASCII text: surrounding white
    space, an optional sign, digits with single underscores between them.
    Characters outside ASCII are rejected here, and the interpreter's
    limit on the number of digits is left out. *)
Definition int_of_str (s : string) : result Z :=
  let body := lstrip_space s in
  let signed :=
    match body with
    | String "-" r => int_digits 0 false r ≫= (fun n => Some (- n))
    | String "+" r => int_digits 0 false r
    | _ => int_digits 0 false body
    end in
  match signed with
  | Some n => Ok n
  | None => Err ValueError
  end.

(** [int(f)] for a float: truncation towards zero. *)
Definition int_of_float (f : spec_float) : result Z :=
  match f with
  | S754_zero _ => Ok 0
  | S754_finite s m e =>
      let a := if 0 <=? e then Z.pos m * 2 ^ e else Z.pos m / 2 ^ (- e) in
      Ok (if s then - a else a)
  | S754_infinity _ => Err OverflowError
  | S754_nan => Err ValueError
  end.

(** [int(v)]. *)
Definition py_int (v : json) : result Z :=
  match v with
  | JInt n => Ok n
  | JBool b => Ok (if b then 1 else 0)
  | JFloat f => int_of_float f
  | JStr s => int_of_str s
  | JNull | JArr _ | JObj _ => Err TypeError
  end.

(** [bool(v)]. *)
Definition py_bool (v : json) : bool :=
  match v with
  | JNull => false
  | JBool b => b
  | JInt n => negb (n =? 0)
  | JFloat (S754_zero _) => false
  | JFloat _ => true
  | JStr s => negb (String.eqb s EmptyString)
  | JArr l => match l with [] => false | _ => true end
  | JObj o => match o with [] => false | _ => true end
  end.

End Py.
Import Py.

(* ===================================================================== *)
(** ** Python floats *)
(* ===================================================================== *)

Module PyFloat.

(** A Python float is an IEEE-754 binary64 number. *)
Definition prec : Z := 53.
Definition emax : Z := 1024.

(** [float(n)] for an int, as the mixed operators [n / 10.0] apply it:
    correctly rounded, [OverflowError] beyond the largest float. *)
Definition of_int (n : Z) : result spec_float :=
  match binary_normalize prec emax n 0 false with
  | S754_infinity _ => Err OverflowError
  | f => Ok f
  end.

Definition is_zero (x : spec_float) : bool :=
  match x with
  | S754_zero _ => true
  | _ => false
  end.

(** [x / y]: the only exception of float division is a zero divisor. *)
Definition div (x y : spec_float) : result spec_float :=
  if is_zero y then Err ZeroDivisionError else Ok (SFdiv prec emax x y).

(** [x * y]. *)
Definition mul (x y : spec_float) : spec_float := SFmul prec emax x y.

(** [x > 0]. *)
Definition gt_zero (x : spec_float) : bool := SFltb (S754_zero false) x.

(** The literals [10.0], [100.0] and [0.5]. *)
Definition lit_10 : spec_float := Eval vm_compute in binary_normalize prec emax 10 0 false.
Definition lit_100 : spec_float := Eval vm_compute in binary_normalize prec emax 100 0 false.
Definition lit_half : spec_float := Eval vm_compute in binary_normalize prec emax 1 (-1) false.

(** [n / y] for an int [n] and a float [y]. *)
Definition int_div (n : Z) (y : spec_float) : result spec_float :=
  x ← of_int n; div x y.

(** Position of the leading bit of a finite non-zero float: its absolute
    value lies in [[2^(mag-1), 2^mag)]. *)
Definition mag (x : spec_float) : Z :=
  match x with
  | S754_finite _ m e => Z.pos (digits2_pos m) + e
  | _ => 0
  end.

(** The result of rounding a non-zero value of sign [s] whose magnitude is
    at least [lo]: a finite float of that sign and magnitude, or the
    infinity. *)
Inductive rounded (s : bool) (lo : Z) : spec_float -> Prop :=
  | rounded_finite m e :
      lo <= Z.pos (digits2_pos m) + e -> rounded s lo (S754_finite s m e)
  | rounded_infinity : rounded s lo (S754_infinity s).

(** A positive finite float whose magnitude lies between [lo] and
    [hi]. *)
Inductive bounded (lo hi : Z) : spec_float -> Prop :=
  | bounded_finite m e :
      lo <= Z.pos (digits2_pos m) + e <= hi -> bounded lo hi (S754_finite false m e).

(** A float that is not positive when [s] is [true]. *)
Definition signed (s : bool) (x : spec_float) : Prop :=
  match x with
  | S754_zero s' | S754_infinity s' | S754_finite s' _ _ => s' = s
  | S754_nan => True
  end.

End PyFloat.

(* ===================================================================== *)
(** ** pokepipeline/config.py *)
(* ===================================================================== *)

Module Config.

(** The module constants, read from the environment when the package is
    imported. *)
Record t := {
  POKEAPI_BASE : string;
  HTTP_TIMEOUT_SECONDS : spec_float;
  MAX_CONCURRENCY : Z;
  MAX_RETRIES : Z
}.

(** The values taken when the environment sets nothing. *)
Definition defaults : t := {|
  POKEAPI_BASE := "https://pokeapi.co/api/v2";
  HTTP_TIMEOUT_SECONDS := PyFloat.lit_10;
  MAX_CONCURRENCY := 8;
  MAX_RETRIES := 3
|}.

(** [os.getenv(k, d)], [environ] being the environment of the process. *)
Definition getenv (environ : string -> option string) (k d : string) : string :=
  default d (environ k).

(** [DB_PATH] and [DB_URL = f"sqlite:///{DB_PATH}"]. *)
Definition DB_PATH_of (environ : string -> option string) : string :=
  getenv environ "DB_PATH" "pokemon.db".

Definition DB_URL (DB_PATH : string) : string := "sqlite:///" ++ DB_PATH.

(** [int(os.getenv("MAX_CONCURRENCY", "8"))] and
    [int(os.getenv("MAX_RETRIES", "3"))], as the import of the module
    computes them: it fails when [int] does. *)
Definition MAX_CONCURRENCY_of (environ : string -> option string) : result Z :=
  int_of_str (getenv environ "MAX_CONCURRENCY" "8").

Definition MAX_RETRIES_of (environ : string -> option string) : result Z :=
  int_of_str (getenv environ "MAX_RETRIES" "3").

End Config.
Import Config.

(* ===================================================================== *)
(** ** pokepipeline/etl.py: extraction and transformation *)
(* ===================================================================== *)

(** The canonical record [TPokemon].  [base_experience], [sprite_url] and
    the reference names are kept as the payload gives them: the code
    converts none of them. *)
Module TPokemon.
Record t := {
  id : Z;
  name : string;
  base_experience : json;
  height_cm : Z;
  weight_kg : spec_float;
  bmi : option spec_float;
  sprite_url : json;
  types : list (Z * json * Z);
  abilities : list (Z * json * bool * Z);
  stats : list (Z * json * Z * Z)
}.
End TPokemon.

Module Etl.

(** *** The network *)

(** What one attempt ([client.get], [raise_for_status], [resp.json()])
    does: it returns the decoded body or raises. *)
Inductive reply :=
  | Body (data : json)
  | Raises (e : exn).

(** The exception of an attempt that failed. *)
Definition raised (r : reply) : option exn :=
  match r with
  | Raises e => Some e
  | Body _ => None
  end.

(** What a call of [_fetch_json] does to the outside world, in order. *)
Inductive event :=
  | Get (url : string) (timeout : spec_float)
  | Sleep (seconds : spec_float).

(** The calls of [_fetch_json] in one run: one for the listing, one per
    detail target (numbered as in the target list). *)
Inductive call :=
  | Listing
  | Detail (i : nat).

(** The remote API as the run observes it: the reply to the [k]-th
    attempt (from 0) that call [c] makes at [url]. *)
Definition network := call -> string -> nat -> reply.

(** [str(n)] for an int, as the f-strings print it. *)
Definition str_of_int (n : Z) : string :=
  DecimalString.NilEmpty.string_of_int (Z.to_int n).

(** *** Extraction *)

(** [int(url.rstrip("/").split("/")[-1])] *)
Definition _id_from_url (url : string) : result Z :=
  seg ← last_item (split "/" (rstrip "/" url));
  int_of_str seg.

(** The loop [for _ in range(MAX_RETRIES)] of [_fetch_json]: [n] rounds
    remain, [k] attempts were made, [last_exc] is the variable of that
    name.  The exit of the loop is [assert last_exc is not None; raise
    last_exc]. *)
Fixpoint fetch_loop (cfg : Config.t) (attempt : nat -> reply) (url : string)
    (n k : nat) (last_exc : option exn) : result json * list event :=
  match n with
  | O =>
      match last_exc with
      | None => (Err AssertionError, [])
      | Some e => (Err e, [])
      end
  | S n' =>
      match attempt k with
      | Body data => (Ok data, [Get url (HTTP_TIMEOUT_SECONDS cfg)])
      | Raises exc =>
          let '(r, evs) := fetch_loop cfg attempt url n' (S k) (Some exc) in
          (r, Get url (HTTP_TIMEOUT_SECONDS cfg) :: Sleep PyFloat.lit_half :: evs)
      end
  end.

Definition _fetch_json (cfg : Config.t) (attempt : nat -> reply) (url : string)
    : result json * list event :=
  fetch_loop cfg attempt url (Z.to_nat (MAX_RETRIES cfg)) 0%nat None.

(** The requests and the delays in a trace. *)
Definition requests (evs : list event) : list string :=
  omap (fun ev => match ev with Get url _ => Some url | Sleep _ => None end) evs.

Definition attempts (evs : list event) : nat := length (requests evs).


(** [fetch_pokemon_list]: the value under ["results"], [[]] when absent. *)
Definition list_url (cfg : Config.t) (limit offset : Z) : string :=
  POKEAPI_BASE cfg ++ "/pokemon?limit=" ++ str_of_int limit
    ++ "&offset=" ++ str_of_int offset.

Definition fetch_pokemon_list (cfg : Config.t) (net : network) (limit offset : Z)
    : result json :=
  let url := list_url cfg limit offset in
  data ← fst (_fetch_json cfg (net Listing url) url);
  get data "results" (JArr []).

(** The inner coroutine [_one] of [fetch_pokemon_details], once it holds
    the semaphore. *)
Definition detail_url (cfg : Config.t) (target : json) : result string :=
  match target with
  | JStr s => Ok (if startswith s "http" then s
                  else POKEAPI_BASE cfg ++ "/pokemon/" ++ s)
  | _ => Err AttributeError
  end.

Definition _one (cfg : Config.t) (net : network) (i : nat) (target : json)
    : result json :=
  url ← detail_url cfg target;
  fst (_fetch_json cfg (net (Detail i) url) url).

(** [asyncio.gather] over the tasks: the results in the order of the tasks, or
    the exception of a task that raised (here the first in task order). *)
Fixpoint gather {A} (tasks : list (nat -> result A)) (i : nat) : result (list A) :=
  match tasks with
  | [] => Ok []
  | t :: tasks' => x ← t i; xs ← gather tasks' (S i); Ok (x :: xs)
  end.

(** [fetch_pokemon_details].  [asyncio.Semaphore] refuses a negative
    value; with no permit at all every task waits for ever, which [Hang]
    records. *)
Definition fetch_pokemon_details (cfg : Config.t) (net : network)
    (names_or_urls : list json) : result (list json) :=
  if MAX_CONCURRENCY cfg <? 0 then Err ValueError
  else if ((MAX_CONCURRENCY cfg =? 0) && negb (bool_decide (names_or_urls = [])))%bool
  then Err Hang
  else gather (map (fun t i => _one cfg net i t) names_or_urls) 0%nat.

(** *** Transformation *)

(** [int(dm * 10)], on an int. *)
Definition _to_cm (dm : Z) : Z := dm * 10.

(** [hg / 10.0] *)
Definition _to_kg (hg : Z) : result spec_float := PyFloat.int_div hg PyFloat.lit_10.

(** [m = height_cm / 100.0; (weight_kg / (m * m)) if m > 0 else None] *)
Definition _bmi (height_cm : Z) (weight_kg : spec_float) : result (option spec_float) :=
  m ← PyFloat.int_div height_cm PyFloat.lit_100;
  if PyFloat.gt_zero m
  then b ← PyFloat.div weight_kg (PyFloat.mul m m); Ok (Some b)
  else Ok None.

(** [_id_from_url(v)] for a value that need not be a str. *)
Definition id_of_ref (v : json) : result Z :=
  match v with
  | JStr url => _id_from_url url
  | _ => Err AttributeError
  end.

(** An entry [t] whose value under [key] is a reference that the entry
    functions below read without an exception: an object with a name and
    a locator, of at most 4300 characters, that ends in an integer. *)
Definition has_reference (t : list (string * json)) (key : string) : Prop :=
  exists ref nm u n,
    assoc key t = Some (JObj ref) /\ assoc "name" ref = Some nm
    /\ assoc "url" ref = Some (JStr u) /\ (String.length u <= 4300)%nat
    /\ _id_from_url u = Ok n.

Section Transform.

(** [str(v)] for a value that is not a str, left to the interpreter. *)
Variable py_repr : json -> string.

Definition py_str (v : json) : string :=
  match v with
  | JStr s => s
  | _ => py_repr v
  end.

Definition type_entry (t : json) : result (Z * json * Z) :=
  t_name ← (r ← getitem t "type"; getitem r "name");
  t_id ← (r ← getitem t "type"; u ← getitem r "url"; id_of_ref u);
  slot ← (v ← getitem t "slot"; py_int v);
  Ok (t_id, t_name, slot).

Definition ability_entry (a : json) : result (Z * json * bool * Z) :=
  a_name ← (r ← getitem a "ability"; getitem r "name");
  a_id ← (r ← getitem a "ability"; u ← getitem r "url"; id_of_ref u);
  hidden ← (v ← getitem a "is_hidden"; Ok (py_bool v));
  slot ← (v ← getitem a "slot"; py_int v);
  Ok (a_id, a_name, hidden, slot).

Definition stat_entry (s : json) : result (Z * json * Z * Z) :=
  s_name ← (r ← getitem s "stat"; getitem r "name");
  s_id ← (r ← getitem s "stat"; u ← getitem r "url"; id_of_ref u);
  base ← (v ← getitem s "base_stat"; py_int v);
  effort ← (v ← getitem s "effort"; py_int v);
  Ok (s_id, s_name, base, effort).

Definition transform_one (payload : json) : result TPokemon.t :=
  pid ← (v ← getitem payload "id"; py_int v);
  name ← (v ← getitem payload "name"; Ok (py_str v));
  base_xp ← get payload "base_experience" JNull;
  height_cm ← (v ← getitem payload "height"; n ← py_int v; Ok (_to_cm n));
  weight_kg ← (v ← getitem payload "weight"; n ← py_int v; _to_kg n);
  bmi ← _bmi height_cm weight_kg;
  sprite ← (s ← get payload "sprites" (JObj []); get s "front_default" JNull);
  types ← (l ← get payload "types" (JArr []); ts ← iter l; for_each type_entry ts);
  abilities ← (l ← get payload "abilities" (JArr []); xs ← iter l;
               for_each ability_entry xs);
  stats ← (l ← get payload "stats" (JArr []); ss ← iter l; for_each stat_entry ss);
  Ok {| TPokemon.id := pid;
        TPokemon.name := name;
        TPokemon.base_experience := base_xp;
        TPokemon.height_cm := height_cm;
        TPokemon.weight_kg := weight_kg;
        TPokemon.bmi := bmi;
        TPokemon.sprite_url := sprite;
        TPokemon.types := types;
        TPokemon.abilities := abilities;
        TPokemon.stats := stats |}.

(** [extract_transform]: listing, targets, details, transformed items. *)
Definition targets_of (listing : json) : result (list json) :=
  items ← iter listing;
  for_each (fun item => getitem item "name") items.

Definition extract_transform (cfg : Config.t) (net : network) (limit offset : Z)
    : result (list TPokemon.t) :=
  listing ← fetch_pokemon_list cfg net limit offset;
  targets ← targets_of listing;
  details ← fetch_pokemon_details cfg net targets;
  for_each transform_one details.

End Transform.

End Etl.
Import Etl.

(* ===================================================================== *)
(** ** pokepipeline/models.py: the seven tables *)
(* ===================================================================== *)

(** A row of [pokemon]: the columns a [Pokemon(...)] carries, and
    [loaded_at], which only the store fills (server default [now()]). *)
Module Pokemon.
Record columns := {
  name : string;
  base_experience : json;
  height_cm : Z;
  weight_kg : spec_float;
  bmi : option spec_float;
  sprite_url : json
}.
Record row := {
  cols : columns;
  loaded_at : Z
}.
Global Instance columns_eq_dec : EqDecision columns.
Proof. solve_decision. Defined.
Global Instance row_eq_dec : EqDecision row.
Proof. solve_decision. Defined.
End Pokemon.

Module Db.

(** The persisted data: each table as a map from its primary key.
    [type], [ability] and [stat] hold the name; [pokemon_type] the slot;
    [pokemon_ability] [(is_hidden, slot)]; [pokemon_stat]
    [(base_stat, effort)]. *)
Record store := {
  tbl_type : gmap Z json;
  tbl_ability : gmap Z json;
  tbl_stat : gmap Z json;
  tbl_pokemon : gmap Z Pokemon.row;
  tbl_pokemon_type : gmap (Z * Z) Z;
  tbl_pokemon_ability : gmap (Z * Z) (bool * Z);
  tbl_pokemon_stat : gmap (Z * Z) (Z * Z)
}.

Global Instance store_eq_dec : EqDecision store.
Proof. solve_decision. Defined.

Definition empty_store : store :=
  {| tbl_type := ∅; tbl_ability := ∅; tbl_stat := ∅; tbl_pokemon := ∅;
     tbl_pokemon_type := ∅; tbl_pokemon_ability := ∅; tbl_pokemon_stat := ∅ |}.

Definition set_type (t : gmap Z json) (s : store) : store :=
  {| tbl_type := t; tbl_ability := tbl_ability s; tbl_stat := tbl_stat s;
     tbl_pokemon := tbl_pokemon s; tbl_pokemon_type := tbl_pokemon_type s;
     tbl_pokemon_ability := tbl_pokemon_ability s;
     tbl_pokemon_stat := tbl_pokemon_stat s |}.
Definition set_ability (t : gmap Z json) (s : store) : store :=
  {| tbl_type := tbl_type s; tbl_ability := t; tbl_stat := tbl_stat s;
     tbl_pokemon := tbl_pokemon s; tbl_pokemon_type := tbl_pokemon_type s;
     tbl_pokemon_ability := tbl_pokemon_ability s;
     tbl_pokemon_stat := tbl_pokemon_stat s |}.
Definition set_stat (t : gmap Z json) (s : store) : store :=
  {| tbl_type := tbl_type s; tbl_ability := tbl_ability s; tbl_stat := t;
     tbl_pokemon := tbl_pokemon s; tbl_pokemon_type := tbl_pokemon_type s;
     tbl_pokemon_ability := tbl_pokemon_ability s;
     tbl_pokemon_stat := tbl_pokemon_stat s |}.
Definition set_pokemon (t : gmap Z Pokemon.row) (s : store) : store :=
  {| tbl_type := tbl_type s; tbl_ability := tbl_ability s; tbl_stat := tbl_stat s;
     tbl_pokemon := t; tbl_pokemon_type := tbl_pokemon_type s;
     tbl_pokemon_ability := tbl_pokemon_ability s;
     tbl_pokemon_stat := tbl_pokemon_stat s |}.
Definition set_pokemon_type (t : gmap (Z * Z) Z) (s : store) : store :=
  {| tbl_type := tbl_type s; tbl_ability := tbl_ability s; tbl_stat := tbl_stat s;
     tbl_pokemon := tbl_pokemon s; tbl_pokemon_type := t;
     tbl_pokemon_ability := tbl_pokemon_ability s;
     tbl_pokemon_stat := tbl_pokemon_stat s |}.
Definition set_pokemon_ability (t : gmap (Z * Z) (bool * Z)) (s : store) : store :=
  {| tbl_type := tbl_type s; tbl_ability := tbl_ability s; tbl_stat := tbl_stat s;
     tbl_pokemon := tbl_pokemon s; tbl_pokemon_type := tbl_pokemon_type s;
     tbl_pokemon_ability := t; tbl_pokemon_stat := tbl_pokemon_stat s |}.
Definition set_pokemon_stat (t : gmap (Z * Z) (Z * Z)) (s : store) : store :=
  {| tbl_type := tbl_type s; tbl_ability := tbl_ability s; tbl_stat := tbl_stat s;
     tbl_pokemon := tbl_pokemon s; tbl_pokemon_type := tbl_pokemon_type s;
     tbl_pokemon_ability := tbl_pokemon_ability s; tbl_pokemon_stat := t |}.

(** *** The constraints the schema declares *)

(** Values are stored as they are given.  What the driver and SQLite do
    to a value that is not of the declared type of its column is left out:
    the driver binds 64-bit integers and scalar values only, the affinity
    of a column converts a value of another type, and a NaN is kept as
    NULL.  The properties that read a stored value back assume values of
    the declared types ([Load.well_typed], [Load.typed_columns]). *)

(** [String, unique=True, nullable=False] on a reference table, the row
    being checked against the other rows [t]. *)
Definition name_ok (_ : Z) (nm : json) (t : gmap Z json) : bool :=
  bool_decide (nm <> JNull)
  && bool_decide (map_Forall (fun _ other => other <> nm) t).

(** [name] of [pokemon] is unique; it is a str, hence never null, and so
    are the other [nullable=False] columns. *)
Definition pokemon_ok (_ : Z) (r : Pokemon.row) (t : gmap Z Pokemon.row) : bool :=
  bool_decide (map_Forall
    (fun _ other => Pokemon.name (Pokemon.cols other) <> Pokemon.name (Pokemon.cols r)) t).

(** The two foreign keys of an association row. *)
Definition fk_ok {A B R} (parent : gmap Z A) (ref : gmap Z B)
    (k : Z * Z) (_ : R) (_ : gmap (Z * Z) R) : bool :=
  bool_decide (is_Some (parent !! k.1)) && bool_decide (is_Some (ref !! k.2)).

(** *** The session: one unit of work per mapped class *)

(** How a mapped class with primary key [K] stores an instance: [G] is
    what a transient instance carries, [R] the row.  [persist g r] copies
    the attributes of a merged instance onto a loaded row; [fresh ts g] is
    the row an INSERT at time [ts] creates; [key_leb] orders the keys. *)
Class Mapped (K G R : Type) := {
  persist : G -> R -> R;
  fresh : Z -> G -> R;
  key_leb : K -> K -> bool;
  persist_persist : forall g g' r, persist g (persist g' r) = persist g r;
  persist_fresh : forall ts g, persist g (fresh ts g) = fresh ts g
}.

Definition pair_leb (a b : Z * Z) : bool :=
  (a.1 <? b.1) || ((a.1 =? b.1) && (a.2 <=? b.2)).

Global Program Instance mapped_reference : Mapped Z json json :=
  {| persist g _ := g; fresh _ g := g; key_leb := Z.leb |}.
Solve All Obligations with done.
Global Program Instance mapped_pokemon : Mapped Z Pokemon.columns Pokemon.row :=
  {| persist g r := {| Pokemon.cols := g; Pokemon.loaded_at := Pokemon.loaded_at r |};
     fresh ts g := {| Pokemon.cols := g; Pokemon.loaded_at := ts |};
     key_leb := Z.leb |}.
Solve All Obligations with done.
Global Program Instance mapped_pokemon_type : Mapped (Z * Z) Z Z :=
  {| persist g _ := g; fresh _ g := g; key_leb := pair_leb |}.
Solve All Obligations with done.
Global Program Instance mapped_pokemon_ability : Mapped (Z * Z) (bool * Z) (bool * Z) :=
  {| persist g _ := g; fresh _ g := g; key_leb := pair_leb |}.
Solve All Obligations with done.
Global Program Instance mapped_pokemon_stat : Mapped (Z * Z) (Z * Z) (Z * Z) :=
  {| persist g _ := g; fresh _ g := g; key_leb := pair_leb |}.
Solve All Obligations with done.

Section UnitOfWork.
Context {K G R : Type} `{Countable K} `{EqDecision R} `{!Mapped K G R}.

(** The objects of one class in a session: [persistent] are the rows
    loaded from the store, with their current attribute values (the
    identity map); [pending] the new objects, in the order of their
    creation.  With [autoflush=False] a pending object stays out of the
    identity map until the commit. *)
Record work := {
  persistent : gmap K R;
  pending : list (K * G)
}.

Definition no_work : work := {| persistent := ∅; pending := [] |}.

(** [session.merge(obj)] for an object with key [k] and attributes [g],
    [tbl] being the table as a SELECT sees it. *)
Definition merge_work (tbl : gmap K R) (k : K) (g : G) (u : work) : work :=
  match persistent u !! k with
  | Some r => {| persistent := <[k := persist g r]> (persistent u);
                 pending := pending u |}
  | None =>
      match tbl !! k with
      | Some r => {| persistent := <[k := persist g r]> (persistent u);
                     pending := pending u |}
      | None => {| persistent := persistent u;
                   pending := pending u ++ [(k, g)] |}
      end
  end.

(** The merges of a list of objects, in order. *)
Definition merge_all (tbl : gmap K R) (ops : list (K * G)) (u : work) : work :=
  foldl (fun u kg => merge_work tbl kg.1 kg.2 u) u ops.

(** The attributes that the last merge of key [k] in [ops] carries. *)
Fixpoint latest (k : K) (ops : list (K * G)) : option G :=
  match ops with
  | [] => None
  | kg :: ops' =>
      match latest k ops' with
      | Some g => Some g
      | None => if decide (kg.1 = k) then Some kg.2 else None
      end
  end.

(** A table holds the outcome of the merges [ops]: every merged key has
    a row, which already carries the attributes merged last. *)
Definition settled (t : gmap K R) (ops : list (K * G)) : Prop :=
  forall k g, latest k ops = Some g -> exists r, t !! k = Some r /\ persist g r = r.

(** An UPDATE is emitted for a loaded row only when some attribute
    changed; the new row is checked against the other rows. *)
Definition update_stmt (ok : K -> R -> gmap K R -> bool) (kr : K * R)
    (t : gmap K R) : gmap K R * option exn :=
  if decide (t !! kr.1 = Some kr.2) then (t, None)
  else if ok kr.1 kr.2 (delete kr.1 t) then (<[kr.1 := kr.2]> t, None)
  else (t, Some IntegrityError).

(** An INSERT fails on an existing primary key. *)
Definition insert_stmt (ok : K -> R -> gmap K R -> bool) (clock : K -> Z)
    (kg : K * G) (t : gmap K R) : gmap K R * option exn :=
  match t !! kg.1 with
  | Some _ => (t, Some IntegrityError)
  | None =>
      let r := fresh (clock kg.1) kg.2 in
      if ok kg.1 r t then (<[kg.1 := r]> t, None)
      else (t, Some IntegrityError)
  end.

(** Statements run in order; the first failure stops the flush and leaves
    the table as the statements before it made it. *)
Fixpoint exec_all {X} (stmt : X -> gmap K R -> gmap K R * option exn)
    (l : list X) (t : gmap K R) : gmap K R * option exn :=
  match l with
  | [] => (t, None)
  | x :: l' =>
      match stmt x t with
      | (t', None) => exec_all stmt l' t'
      | (t', Some e) => (t', Some e)
      end
  end.

Definition by_key (a b : K * R) : Prop := key_leb a.1 b.1.

(** The flush of one table: the UPDATEs in primary-key order, then the
    INSERTs in the order the objects were added. *)
Definition flush_work (ok : K -> R -> gmap K R -> bool) (clock : K -> Z)
    (u : work) (t : gmap K R) : gmap K R * option exn :=
  match exec_all (update_stmt ok) (merge_sort by_key (map_to_list (persistent u))) t with
  | (t', None) => exec_all (insert_stmt ok clock) (pending u) t'
  | (t', Some e) => (t', Some e)
  end.

(** What a flush that succeeds leaves under key [k], the session having
    merged [ops] on the table [t]: a row that was there takes the
    attributes merged last, if any; a key that was free gets the row of its
    INSERT; no other key is touched. *)
Definition flushed (clock : K -> Z) (t : gmap K R) (ops : list (K * G)) (k : K)
    : option R :=
  match t !! k, latest k ops with
  | Some r, Some g => Some (persist g r)
  | Some r, None => Some r
  | None, Some g => Some (fresh (clock k) g)
  | None, None => None
  end.

End UnitOfWork.
Arguments work K G R {_ _}.

(** *** pokepipeline/db.py: the session and its scope *)

(** The connection: the committed data and, once the transaction has
    written, its working copy. *)
Record database := {
  committed : store;
  tx : option store
}.

(** What a statement of the session reads and writes. *)
Definition visible (d : database) : store := default (committed d) (tx d).

Record session := {
  conn : database;
  u_type : work Z json json;
  u_ability : work Z json json;
  u_stat : work Z json json;
  u_pokemon : work Z Pokemon.columns Pokemon.row;
  u_pokemon_type : work (Z * Z) Z Z;
  u_pokemon_ability : work (Z * Z) (bool * Z) (bool * Z);
  u_pokemon_stat : work (Z * Z) (Z * Z) (Z * Z)
}.

(** [SessionLocal()]: a session with nothing loaded. *)
Definition on_connection (d : database) : session :=
  {| conn := d; u_type := no_work; u_ability := no_work; u_stat := no_work;
     u_pokemon := no_work; u_pokemon_type := no_work;
     u_pokemon_ability := no_work; u_pokemon_stat := no_work |}.

Definition SessionLocal (s : store) : session :=
  on_connection {| committed := s; tx := None |}.

(** [session.merge(Type(id=k, name=nm))] and its six siblings. *)
Definition merge_Type (k : Z) (nm : json) (ss : session) : session :=
  {| conn := conn ss;
     u_type := merge_work (tbl_type (visible (conn ss))) k nm (u_type ss);
     u_ability := u_ability ss; u_stat := u_stat ss; u_pokemon := u_pokemon ss;
     u_pokemon_type := u_pokemon_type ss;
     u_pokemon_ability := u_pokemon_ability ss;
     u_pokemon_stat := u_pokemon_stat ss |}.
Definition merge_Ability (k : Z) (nm : json) (ss : session) : session :=
  {| conn := conn ss; u_type := u_type ss;
     u_ability := merge_work (tbl_ability (visible (conn ss))) k nm (u_ability ss);
     u_stat := u_stat ss; u_pokemon := u_pokemon ss;
     u_pokemon_type := u_pokemon_type ss;
     u_pokemon_ability := u_pokemon_ability ss;
     u_pokemon_stat := u_pokemon_stat ss |}.
Definition merge_Stat (k : Z) (nm : json) (ss : session) : session :=
  {| conn := conn ss; u_type := u_type ss; u_ability := u_ability ss;
     u_stat := merge_work (tbl_stat (visible (conn ss))) k nm (u_stat ss);
     u_pokemon := u_pokemon ss; u_pokemon_type := u_pokemon_type ss;
     u_pokemon_ability := u_pokemon_ability ss;
     u_pokemon_stat := u_pokemon_stat ss |}.
Definition merge_Pokemon (k : Z) (g : Pokemon.columns) (ss : session) : session :=
  {| conn := conn ss; u_type := u_type ss; u_ability := u_ability ss;
     u_stat := u_stat ss;
     u_pokemon := merge_work (tbl_pokemon (visible (conn ss))) k g (u_pokemon ss);
     u_pokemon_type := u_pokemon_type ss;
     u_pokemon_ability := u_pokemon_ability ss;
     u_pokemon_stat := u_pokemon_stat ss |}.
Definition merge_PokemonType (k : Z * Z) (slot : Z) (ss : session) : session :=
  {| conn := conn ss; u_type := u_type ss; u_ability := u_ability ss;
     u_stat := u_stat ss; u_pokemon := u_pokemon ss;
     u_pokemon_type :=
       merge_work (tbl_pokemon_type (visible (conn ss))) k slot (u_pokemon_type ss);
     u_pokemon_ability := u_pokemon_ability ss;
     u_pokemon_stat := u_pokemon_stat ss |}.
Definition merge_PokemonAbility (k : Z * Z) (g : bool * Z) (ss : session) : session :=
  {| conn := conn ss; u_type := u_type ss; u_ability := u_ability ss;
     u_stat := u_stat ss; u_pokemon := u_pokemon ss;
     u_pokemon_type := u_pokemon_type ss;
     u_pokemon_ability :=
       merge_work (tbl_pokemon_ability (visible (conn ss))) k g (u_pokemon_ability ss);
     u_pokemon_stat := u_pokemon_stat ss |}.
Definition merge_PokemonStat (k : Z * Z) (g : Z * Z) (ss : session) : session :=
  {| conn := conn ss; u_type := u_type ss; u_ability := u_ability ss;
     u_stat := u_stat ss; u_pokemon := u_pokemon ss;
     u_pokemon_type := u_pokemon_type ss;
     u_pokemon_ability := u_pokemon_ability ss;
     u_pokemon_stat :=
       merge_work (tbl_pokemon_stat (visible (conn ss))) k g (u_pokemon_stat ss) |}.

(** One table's share of the flush, as a step on the working copy. *)
Definition flush_table {K G R} `{Countable K} `{EqDecision R} `{!Mapped K G R}
    (get : store -> gmap K R) (set : gmap K R -> store -> store)
    (ok : store -> K -> R -> gmap K R -> bool) (clock : K -> Z)
    (u : work K G R) (s : store) : store * option exn :=
  let '(t, e) := flush_work (ok s) clock u (get s) in (set t s, e).

Definition and_then (f g : store -> store * option exn) (s : store)
    : store * option exn :=
  match f s with
  | (s', None) => g s'
  | (s', Some e) => (s', Some e)
  end.

(** The flush: the tables in dependency order, parents first.  [clock]
    gives the time at which the row of a Pokemon is inserted. *)
Definition flush_all (clock : Z -> Z) (ss : session) : store -> store * option exn :=
  and_then (flush_table tbl_type set_type (fun _ => name_ok) (fun _ => 0) (u_type ss))
 (and_then (flush_table tbl_ability set_ability (fun _ => name_ok) (fun _ => 0) (u_ability ss))
 (and_then (flush_table tbl_stat set_stat (fun _ => name_ok) (fun _ => 0) (u_stat ss))
 (and_then (flush_table tbl_pokemon set_pokemon (fun _ => pokemon_ok) clock (u_pokemon ss))
 (and_then (flush_table tbl_pokemon_type set_pokemon_type
              (fun s => fk_ok (tbl_pokemon s) (tbl_type s)) (fun _ => 0)
              (u_pokemon_type ss))
 (and_then (flush_table tbl_pokemon_ability set_pokemon_ability
              (fun s => fk_ok (tbl_pokemon s) (tbl_ability s)) (fun _ => 0)
              (u_pokemon_ability ss))
           (flush_table tbl_pokemon_stat set_pokemon_stat
              (fun s => fk_ok (tbl_pokemon s) (tbl_stat s)) (fun _ => 0)
              (u_pokemon_stat ss))))))).

(** [session.commit()]: flush, then make the working copy the committed
    data.  When a statement fails the exception leaves [commit] with the
    transaction still open on what the earlier statements wrote. *)
Definition commit (clock : Z -> Z) (ss : session) : session * result unit :=
  match flush_all clock ss (visible (conn ss)) with
  | (s', None) => (on_connection {| committed := s'; tx := None |}, Ok tt)
  | (s', Some e) =>
      ({| conn := {| committed := committed (conn ss); tx := Some s' |};
          u_type := u_type ss; u_ability := u_ability ss; u_stat := u_stat ss;
          u_pokemon := u_pokemon ss; u_pokemon_type := u_pokemon_type ss;
          u_pokemon_ability := u_pokemon_ability ss;
          u_pokemon_stat := u_pokemon_stat ss |}, Err e)
  end.

(** [session.rollback()]: the working copy and the session's objects are
    dropped. *)
Definition rollback (ss : session) : session :=
  on_connection {| committed := committed (conn ss); tx := None |}.

(** [session.close()]: the connection goes back with no transaction; what
    remains is the committed data. *)
Definition close (ss : session) : store := committed (conn ss).

(** [session_scope]: the body runs on a new session; [commit] on normal
    exit, [rollback] and re-raise on an exception of the body or of the
    commit, [close] on every path. *)
Definition session_scope {A} (clock : Z -> Z) (s : store)
    (body : session -> session * result A) : store * result A :=
  let session := SessionLocal s in
  match body session with
  | (session, Ok a) =>
      match commit clock session with
      | (session, Ok _) => (close session, Ok a)
      | (session, Err e) => (close (rollback session), Err e)
      end
  | (session, Err e) => (close (rollback session), Err e)
  end.

(** [create_schema]: [create_all] adds the missing tables and touches no
    row. *)
Definition create_schema (s : store) : store := s.

(** [session.add(Pokemon(...))] for a new object with key [k]: it is
    pending until the flush. *)
Definition add_Pokemon (k : Z) (g : Pokemon.columns) (ss : session) : session :=
  {| conn := conn ss; u_type := u_type ss; u_ability := u_ability ss;
     u_stat := u_stat ss;
     u_pokemon := {| persistent := persistent (u_pokemon ss);
                     pending := pending (u_pokemon ss) ++ [(k, g)] |};
     u_pokemon_type := u_pokemon_type ss;
     u_pokemon_ability := u_pokemon_ability ss;
     u_pokemon_stat := u_pokemon_stat ss |}.

(** [session.get(Pokemon, k)]: the object of the identity map, or the row
    that a SELECT finds, which is then loaded; [None] when there is no
    such row. *)
Definition get_Pokemon (k : Z) (ss : session) : session * option Pokemon.row :=
  match persistent (u_pokemon ss) !! k with
  | Some r => (ss, Some r)
  | None =>
      match tbl_pokemon (visible (conn ss)) !! k with
      | Some r =>
          ({| conn := conn ss; u_type := u_type ss; u_ability := u_ability ss;
              u_stat := u_stat ss;
              u_pokemon := {| persistent := <[k := r]> (persistent (u_pokemon ss));
                              pending := pending (u_pokemon ss) |};
              u_pokemon_type := u_pokemon_type ss;
              u_pokemon_ability := u_pokemon_ability ss;
              u_pokemon_stat := u_pokemon_stat ss |}, Some r)
      | None => (ss, None)
      end
  end.

(** [_is_sqlite(url)] *)
Definition _is_sqlite (url : string) : bool := startswith url "sqlite".

(** What [get_engine] sets up: the arguments of [create_engine] and
    whether the listener that sends [PRAGMA foreign_keys=ON] on every
    connection is registered. *)
Record engine := {
  engine_url : string;
  engine_echo : bool;
  connect_args : list (string * json);
  foreign_keys_pragma : bool
}.

Definition get_engine (DB_PATH : string) (echo : bool) : engine :=
  {| engine_url := DB_URL DB_PATH;
     engine_echo := echo;
     connect_args := if _is_sqlite (DB_URL DB_PATH)
                     then [("check_same_thread", JBool false)] else [];
     foreign_keys_pragma := _is_sqlite (DB_URL DB_PATH) |}.

End Db.
Import Db.

(* ===================================================================== *)
(** ** pokepipeline/etl.py: loading *)
(* ===================================================================== *)

Module Load.

(** [d[k] = v] on a dict with int keys, kept in insertion order. *)
Fixpoint dict_set {V} (k : Z) (v : V) (d : list (Z * V)) : list (Z * V) :=
  match d with
  | [] => [(k, v)]
  | (k', v') :: d' =>
      if k =? k' then (k, v) :: d' else (k', v') :: dict_set k v d'
  end.

Definition type_map_of (batch : list TPokemon.t) : list (Z * json) :=
  foldl (fun d tp =>
           foldl (fun d '(type_id, type_name, _) => dict_set type_id type_name d)
                 d (TPokemon.types tp)) [] batch.

Definition ability_map_of (batch : list TPokemon.t) : list (Z * json) :=
  foldl (fun d tp =>
           foldl (fun d '(ability_id, ability_name, _, _) =>
                    dict_set ability_id ability_name d)
                 d (TPokemon.abilities tp)) [] batch.

Definition stat_map_of (batch : list TPokemon.t) : list (Z * json) :=
  foldl (fun d tp =>
           foldl (fun d '(stat_id, stat_name, _, _) => dict_set stat_id stat_name d)
                 d (TPokemon.stats tp)) [] batch.

(** The [(id, name)] pairs that the three loops over a batch meet, in
    order. *)
Definition type_refs (batch : list TPokemon.t) : list (Z * json) :=
  concat (map (fun tp => map (fun e => (e.1.1, e.1.2)) (TPokemon.types tp)) batch).

Definition ability_refs (batch : list TPokemon.t) : list (Z * json) :=
  concat (map (fun tp => map (fun e => (e.1.1.1, e.1.1.2)) (TPokemon.abilities tp)) batch).

Definition stat_refs (batch : list TPokemon.t) : list (Z * json) :=
  concat (map (fun tp => map (fun e => (e.1.1.1, e.1.1.2)) (TPokemon.stats tp)) batch).

Definition upsert_reference_batch (session : session) (batch : list TPokemon.t)
    : Db.session :=
  let s1 := foldl (fun ss '(tid, name) => merge_Type tid name ss)
                  session (type_map_of batch) in
  let s2 := foldl (fun ss '(aid, name) => merge_Ability aid name ss)
                  s1 (ability_map_of batch) in
  foldl (fun ss '(sid, name) => merge_Stat sid name ss) s2 (stat_map_of batch).

Definition pokemon_columns (tp : TPokemon.t) : Pokemon.columns :=
  {| Pokemon.name := TPokemon.name tp;
     Pokemon.base_experience := TPokemon.base_experience tp;
     Pokemon.height_cm := TPokemon.height_cm tp;
     Pokemon.weight_kg := TPokemon.weight_kg tp;
     Pokemon.bmi := TPokemon.bmi tp;
     Pokemon.sprite_url := TPokemon.sprite_url tp |}.

Definition upsert_pokemon (session : session) (tp : TPokemon.t) : Db.session :=
  let s1 := merge_Pokemon (TPokemon.id tp) (pokemon_columns tp) session in
  let s2 := foldl (fun ss '(type_id, _, slot) =>
                     merge_PokemonType (TPokemon.id tp, type_id) slot ss)
                  s1 (TPokemon.types tp) in
  let s3 := foldl (fun ss '(ability_id, _, is_hidden, slot) =>
                     merge_PokemonAbility (TPokemon.id tp, ability_id) (is_hidden, slot) ss)
                  s2 (TPokemon.abilities tp) in
  foldl (fun ss '(stat_id, _, base_stat, effort) =>
           merge_PokemonStat (TPokemon.id tp, stat_id) (base_stat, effort) ss)
        s3 (TPokemon.stats tp).

(** The merges that a load sends to each mapped class, in order. *)
Definition pokemon_ops (batch : list TPokemon.t) : list (Z * Pokemon.columns) :=
  map (fun tp => (TPokemon.id tp, pokemon_columns tp)) batch.

Definition pokemon_type_ops (batch : list TPokemon.t) : list (Z * Z * Z) :=
  concat (map (fun tp => map (fun e => ((TPokemon.id tp, e.1.1), e.2))
                             (TPokemon.types tp)) batch).

Definition pokemon_ability_ops (batch : list TPokemon.t) : list (Z * Z * (bool * Z)) :=
  concat (map (fun tp => map (fun e => ((TPokemon.id tp, e.1.1.1), (e.1.2, e.2)))
                             (TPokemon.abilities tp)) batch).

Definition pokemon_stat_ops (batch : list TPokemon.t) : list (Z * Z * (Z * Z)) :=
  concat (map (fun tp => map (fun e => ((TPokemon.id tp, e.1.1.1), (e.1.2, e.2)))
                             (TPokemon.stats tp)) batch).

(** [load_batch]: the session after the merges, and [len(batch)]. *)
Definition load_batch (session : session) (batch : list TPokemon.t)
    : Db.session * Z :=
  let s1 := upsert_reference_batch session batch in
  let s2 := foldl upsert_pokemon s1 batch in
  (s2, Z.of_nat (length batch)).

(** *** A page of new Pokemon *)

(** Values typed as [models.py] declares the columns, within what the
    driver binds: 64-bit integers, [int | None] for [base_experience],
    [str | None] for [sprite_url], [str] for the names, and a weight that
    is a number (the store keeps a NaN as NULL). *)
Definition int64 (n : Z) : Prop := - 2 ^ 63 <= n < 2 ^ 63.

Definition is_str (v : json) : Prop := exists s, v = JStr s.

Definition well_typed (tp : TPokemon.t) : Prop :=
  int64 (TPokemon.id tp) /\ int64 (TPokemon.height_cm tp)
  /\ TPokemon.weight_kg tp <> S754_nan
  /\ (TPokemon.base_experience tp = JNull
      \/ exists n, TPokemon.base_experience tp = JInt n /\ int64 n)
  /\ (TPokemon.sprite_url tp = JNull \/ is_str (TPokemon.sprite_url tp))
  /\ Forall (fun e => int64 e.1.1 /\ is_str e.1.2 /\ int64 e.2) (TPokemon.types tp)
  /\ Forall (fun e => int64 e.1.1.1 /\ is_str e.1.1.2 /\ int64 e.2)
        (TPokemon.abilities tp)
  /\ Forall (fun e => int64 e.1.1.1 /\ is_str e.1.1.2 /\ int64 e.1.2 /\ int64 e.2)
        (TPokemon.stats tp).

(** A float that a REAL column gives back as it was given: not a NaN,
    which the store keeps as NULL, and not the negative zero, on whose
    sign nothing here relies. *)
Definition kept_float (f : spec_float) : Prop :=
  f <> S754_nan /\ f <> S754_zero true.

(** The key and the columns of a [Pokemon] that the store keeps value for
    value: each of the declared type, so that the affinity of its column
    converts nothing, and within what the driver binds. *)
Definition typed_columns (k : Z) (g : Pokemon.columns) : Prop :=
  int64 k /\ int64 (Pokemon.height_cm g)
  /\ kept_float (Pokemon.weight_kg g)
  /\ (forall b, Pokemon.bmi g = Some b -> kept_float b)
  /\ (Pokemon.base_experience g = JNull
      \/ exists n, Pokemon.base_experience g = JInt n /\ int64 n)
  /\ (Pokemon.sprite_url g = JNull \/ is_str (Pokemon.sprite_url g)).

(** An item all of whose values the store keeps as they are given. *)
Definition stored_as_given (tp : TPokemon.t) : Prop :=
  well_typed tp /\ typed_columns (TPokemon.id tp) (pokemon_columns tp).

(** A reference dict agrees with a reference table: its names are not
    null and differ from id to id; an id that the table holds has the same
    name there; the name of an id that the table does not hold is the name
    of no row. *)
Definition refs_agree (t : gmap Z json) (d : list (Z * json)) : Prop :=
  NoDup d.*2
  /\ forall k nm, (k, nm) ∈ d ->
       nm <> JNull
       /\ match t !! k with
          | Some nm0 => nm0 = nm
          | None => forall k' nm', t !! k' = Some nm' -> nm' <> nm
          end.

(** A page of Pokemon that the store does not hold yet: ids and names
    differ from item to item and from those of the stored rows, no
    association row of an item is stored, an item lists a type, an ability
    or a stat once, and the reference rows agree with the store. *)
Record new_page (s : store) (items : list TPokemon.t) : Prop := {
  page_ids : NoDup (map TPokemon.id items);
  page_names : NoDup (map TPokemon.name items);
  page_not_stored : forall tp, tp ∈ items ->
    tbl_pokemon s !! TPokemon.id tp = None
    /\ (forall k r, tbl_pokemon s !! k = Some r ->
          Pokemon.name (Pokemon.cols r) <> TPokemon.name tp)
    /\ (forall x, tbl_pokemon_type s !! (TPokemon.id tp, x) = None)
    /\ (forall x, tbl_pokemon_ability s !! (TPokemon.id tp, x) = None)
    /\ (forall x, tbl_pokemon_stat s !! (TPokemon.id tp, x) = None);
  page_entries : forall tp, tp ∈ items ->
    NoDup (map (fun e => e.1.1) (TPokemon.types tp))
    /\ NoDup (map (fun e => e.1.1.1) (TPokemon.abilities tp))
    /\ NoDup (map (fun e => e.1.1.1) (TPokemon.stats tp));
  page_types : refs_agree (tbl_type s) (type_map_of items);
  page_abilities : refs_agree (tbl_ability s) (ability_map_of items);
  page_stats : refs_agree (tbl_stat s) (stat_map_of items)
}.

End Load.
Import Load.

(* ===================================================================== *)
(** ** pokepipeline/pipeline.py *)
(* ===================================================================== *)

Module Pipeline.

(** [with session_scope() as session: loaded = load_batch(session, items)] *)
Definition load_in_scope (clock : Z -> Z) (s : store) (items : list TPokemon.t)
    : store * result Z :=
  session_scope clock s (fun session =>
    let '(session, loaded) := load_batch session items in (session, Ok loaded)).

(** [run_etl(limit, offset)]: the store after the run, and the pair
    [(requested, loaded)] or the exception that left the function. *)
Definition run_etl (py_repr : json -> string) (cfg : Config.t) (net : network)
    (clock : Z -> Z) (s : store) (limit offset : Z) : store * result (Z * Z) :=
  let s := create_schema s in
  match extract_transform py_repr cfg net limit offset with
  | Err e => (s, Err e)
  | Ok items =>
      match load_in_scope clock s items with
      | (s', Ok loaded) => (s', Ok (Z.of_nat (length items), loaded))
      | (s', Err e) => (s', Err e)
      end
  end.

End Pipeline.
Import Pipeline.
(* ===================================================================== *)
(** ** The semaphore of [fetch_pokemon_details] *)
(* ===================================================================== *)

Module Gather.

(** Where a task [_one(target)] stands: before [async with sem] has let
    it in, inside the block (it holds a permit and runs [_fetch_json]), or
    out of it (returned, raised or cancelled). *)
Inductive phase :=
  | Waiting
  | Fetching
  | Finished.

Global Instance phase_eq_dec : EqDecision phase.
Proof. solve_decision. Defined.

(** The event loop between two steps: the value of the semaphore and the
    phase of every task, in target order. *)
Record state := {
  permits : Z;
  tasks : list phase
}.

(** [sem = asyncio.Semaphore(MAX_CONCURRENCY)] and one task per target;
    a negative value makes the constructor raise, and no task exists. *)
Definition start (cfg : Config.t) (targets : nat) : state :=
  if MAX_CONCURRENCY cfg <? 0 then {| permits := 0; tasks := [] |}
  else {| permits := MAX_CONCURRENCY cfg; tasks := replicate targets Waiting |}.

(** What the loop can do next: let a waiting task in ([__aenter__], only
    with a permit left), take a task out of the block ([__aexit__], on
    every way out), or cancel a task that still waits. *)
Inductive action :=
  | Enter (i : nat)
  | Leave (i : nat)
  | Cancel (i : nat).

Global Instance action_eq_dec : EqDecision action.
Proof. solve_decision. Defined.

Definition step (a : action) (st : state) : option state :=
  match a with
  | Enter i =>
      match tasks st !! i with
      | Some Waiting =>
          if 0 <? permits st
          then Some {| permits := permits st - 1;
                       tasks := <[i := Fetching]> (tasks st) |}
          else None
      | _ => None
      end
  | Leave i =>
      match tasks st !! i with
      | Some Fetching =>
          Some {| permits := permits st + 1;
                  tasks := <[i := Finished]> (tasks st) |}
      | _ => None
      end
  | Cancel i =>
      match tasks st !! i with
      | Some Waiting =>
          Some {| permits := permits st; tasks := <[i := Finished]> (tasks st) |}
      | _ => None
      end
  end.

(** A schedule is a sequence of steps, each enabled when it is taken. *)
Fixpoint run (sched : list action) (st : state) : option state :=
  match sched with
  | [] => Some st
  | a :: sched' =>
      match step a st with
      | Some st' => run sched' st'
      | None => None
      end
  end.

(** The number of detail fetches executing. *)
Definition fetching (l : list phase) : Z :=
  Z.of_nat (length (filter (fun p => p = Fetching) l)).

Definition in_flight (st : state) : Z := fetching (tasks st).

(** The permits left and the fetches in flight add up to the size of the
    semaphore. *)
Definition balanced (cfg : Config.t) (st : state) : Prop :=
  0 <= permits st /\ permits st + in_flight st = Z.max 0 (MAX_CONCURRENCY cfg).

(** The steps that a task has ahead: into the block, then out of it. *)
Definition steps_left (p : phase) : nat :=
  match p with
  | Waiting => 2
  | Fetching => 1
  | Finished => 0
  end.

Definition work_left (st : state) : nat := sum_list (map steps_left (tasks st)).

(** A schedule that cancels nothing. *)
Definition cancels (a : action) : bool :=
  match a with
  | Cancel _ => true
  | _ => false
  end.

End Gather.

(* ===================================================================== *)
(** ** The wording of the specification, for comparison *)
(* ===================================================================== *)

Module Spec.

(** "split on [/], drop empty trailing segment, parse last segment as
    integer" *)
Definition drop_empty_trailing (segs : list string) : list string :=
  match last segs with
  | Some EmptyString => removelast segs
  | _ => segs
  end.

Definition locator_id (locator : string) : result Z :=
  seg ← last_item (drop_empty_trailing (split "/" locator));
  int_of_str seg.

(** The same with every empty trailing segment dropped. *)
Fixpoint drop_all_empty_trailing (segs : list string) : list string :=
  match segs with
  | [] => []
  | seg :: rest =>
      match drop_all_empty_trailing rest with
      | [] => if String.eqb seg EmptyString then [] else [seg]
      | rest' => seg :: rest'
      end
  end.

Definition locator_id_lenient (locator : string) : result Z :=
  seg ← last_item (drop_all_empty_trailing (split "/" locator));
  int_of_str seg.

(** "bmi = weight_kg / (height_cm/100)^2", in float arithmetic. *)
Definition bmi_formula (height_cm : Z) (weight_kg : spec_float) : result spec_float :=
  m ← PyFloat.int_div height_cm PyFloat.lit_100;
  PyFloat.div weight_kg (PyFloat.mul m m).

(** The fields a detail payload cannot lack. *)
Definition required_fields : list string := ["id"; "name"; "height"; "weight"].

(** The fields an entry of [types], [abilities] or [stats] cannot lack. *)
Definition entry_fields : list (string * list string) :=
  [("types", ["type"; "slot"]);
   ("abilities", ["ability"; "is_hidden"; "slot"]);
   ("stats", ["stat"; "base_stat"; "effort"])].

(** The exceptions by which the transform rejects a payload. *)
Definition malformed (e : exn) : Prop :=
  match e with
  | KeyError _ | TypeError | ValueError | AttributeError | OverflowError => True
  | _ => False
  end.

End Spec.

(* ===================================================================== *)
(** ** Sample data *)
(* ===================================================================== *)

Module Samples.

(** [sample_pokemon_payload] of test/test_transform.py. *)
Definition sample_pokemon_payload : json :=
  JObj [("id", JInt 1); ("name", JStr "bulbasaur"); ("height", JInt 7);
        ("weight", JInt 69); ("base_experience", JInt 64);
        ("types", JArr [
           JObj [("slot", JInt 1); ("type", JObj [("name", JStr "grass");
                 ("url", JStr "https://pokeapi.co/api/v2/type/12/")])];
           JObj [("slot", JInt 2); ("type", JObj [("name", JStr "poison");
                 ("url", JStr "https://pokeapi.co/api/v2/type/4/")])]]);
        ("abilities", JArr [
           JObj [("ability", JObj [("name", JStr "overgrow");
                 ("url", JStr "https://pokeapi.co/api/v2/ability/65/")]);
                 ("is_hidden", JBool false); ("slot", JInt 1)];
           JObj [("ability", JObj [("name", JStr "chlorophyll");
                 ("url", JStr "https://pokeapi.co/api/v2/ability/34/")]);
                 ("is_hidden", JBool true); ("slot", JInt 3)]]);
        ("stats", JArr [
           JObj [("base_stat", JInt 45); ("effort", JInt 0);
                 ("stat", JObj [("name", JStr "hp");
                 ("url", JStr "https://pokeapi.co/api/v2/stat/1/")])];
           JObj [("base_stat", JInt 49); ("effort", JInt 0);
                 ("stat", JObj [("name", JStr "attack");
                 ("url", JStr "https://pokeapi.co/api/v2/stat/2/")])]]);
        ("sprites", JObj [("front_default", JStr "https://example/img.png")])].

(** A payload with nothing but the four scalar fields. *)
Definition sized_payload (pid : Z) (name : string) (height weight : Z) : json :=
  JObj [("id", JInt pid); ("name", JStr name);
        ("height", JInt height); ("weight", JInt weight)].

(** A remote API with two Pokemon, which answers at once. *)
Definition two_pokemon (c : call) (url : string) (k : nat) : reply :=
  if String.eqb url "https://pokeapi.co/api/v2/pokemon?limit=2&offset=0" then
    Body (JObj [("count", JInt 1302);
                ("results", JArr [
                   JObj [("name", JStr "bulbasaur");
                         ("url", JStr "https://pokeapi.co/api/v2/pokemon/1/")];
                   JObj [("name", JStr "ivysaur");
                         ("url", JStr "https://pokeapi.co/api/v2/pokemon/2/")]])])
  else if String.eqb url "https://pokeapi.co/api/v2/pokemon/bulbasaur" then
    Body sample_pokemon_payload
  else if String.eqb url "https://pokeapi.co/api/v2/pokemon/ivysaur" then
    Body (sized_payload 2 "ivysaur" 10 130)
  else Raises (HTTPError 404).

(** The same API when the second detail resource is out of reach. *)
Definition ivysaur_down (c : call) (url : string) (k : nat) : reply :=
  if String.eqb url "https://pokeapi.co/api/v2/pokemon/ivysaur"
  then Raises (HTTPError 503)
  else two_pokemon c url k.

(** The interpreter's [str] is not needed on these payloads. *)
Definition no_repr (v : json) : string := EmptyString.

Definition bulbasaur : TPokemon.t :=
  {| TPokemon.id := 1;
     TPokemon.name := "bulbasaur";
     TPokemon.base_experience := JInt 64;
     TPokemon.height_cm := 70;
     TPokemon.weight_kg := S754_finite false 7768709357214106 (-50);
     TPokemon.bmi := Some (S754_finite false 7927254446136844 (-49));
     TPokemon.sprite_url := JStr "https://example/img.png";
     TPokemon.types := [(12, JStr "grass", 1); (4, JStr "poison", 2)];
     TPokemon.abilities :=
       [(65, JStr "overgrow", false, 1); (34, JStr "chlorophyll", true, 3)];
     TPokemon.stats := [(1, JStr "hp", 45, 0); (2, JStr "attack", 49, 0)] |}.

End Samples.

(* ===================================================================== *)
(** * Verified properties *)
(* ===================================================================== *)

(** Inversion of a chain of statements that returned. *)
Ltac bind_inv H :=
  repeat match type of H with
         | (?m ≫= _) = Ok _ =>
             let E := fresh "E" in
             destruct m eqn:E; [simpl in H|discriminate H]
         end.

(* ===================================================================== *)
(** ** Cross-reference ids *)
(* ===================================================================== *)

Section Strings.
Variable c : ascii.

Lemma rstrip_snoc u a :
  rstrip c (u ++ String a EmptyString)
  = if Ascii.eqb a c then rstrip c u else u ++ String a EmptyString.
Proof.
  induction u as [|b u IH]; simpl.
  - destruct (Ascii.eqb a c); reflexivity.
  - rewrite IH. destruct (Ascii.eqb a c); [reflexivity|].
    destruct u; reflexivity.
Qed.

Lemma split_nonempty s : split c s <> [].
Proof.
  destruct s as [|a s]; simpl; [done|].
  destruct (Ascii.eqb a c); [done|]. destruct (split c s); done.
Qed.

Lemma split_snoc u a :
  split c (u ++ String a EmptyString) =
  if Ascii.eqb a c then (split c u ++ [EmptyString])%list
  else (removelast (split c u)
          ++ [(default EmptyString (last (split c u)) ++ String a EmptyString)%string])%list.
Proof.
  induction u as [|b u IH]; simpl.
  - destruct (Ascii.eqb a c); reflexivity.
  - rewrite IH. pose proof (split_nonempty u) as Hne.
    destruct (split c u) as [|h t]; [done|].
    destruct (Ascii.eqb b c), (Ascii.eqb a c); simpl; try reflexivity.
    all: destruct t; reflexivity.
Qed.

Lemma split_snoc_ne u a :
  Ascii.eqb a c = false ->
  split c (u ++ String a EmptyString)
  = (removelast (split c u)
       ++ [(default EmptyString (last (split c u)) ++ String a EmptyString)%string])%list.
Proof. intros Ha. by rewrite split_snoc, Ha. Qed.

(** Every string is empty or ends with a character. *)
Lemma string_snoc_cases s : s = EmptyString \/ exists u a, s = u ++ String a EmptyString.
Proof.
  induction s as [|b s IH]; [by left|right].
  destruct IH as [->|(u & a & ->)].
  - by exists EmptyString, b.
  - by exists (String b u), a.
Qed.

Lemma last_snoc_list {A} (l : list A) x : last (l ++ [x])%list = Some x.
Proof. apply last_snoc. Qed.

(** A string whose last segment is not empty has no trailing separator. *)
Lemma rstrip_id s seg :
  last (split c s) = Some seg -> seg <> EmptyString -> rstrip c s = s.
Proof.
  intros Hl Hne. destruct (string_snoc_cases s) as [->|(u & a & ->)].
  - reflexivity.
  - rewrite split_snoc in Hl. rewrite rstrip_snoc.
    destruct (Ascii.eqb a c); [|reflexivity].
    rewrite last_snoc in Hl. congruence.
Qed.
End Strings.

(** [int] on a few literals. *)
Example int_of_str_samples :
  map int_of_str
    ["12"; " 12 "; "+1_000"; "-07"; EmptyString; "1__0"; "_1"; "1_"; "1 2"; "0x10"; "-"]
  = [Ok 12; Ok 12; Ok 1000; Ok (-7); Err ValueError; Err ValueError;
     Err ValueError; Err ValueError; Err ValueError; Err ValueError; Err ValueError].
Proof. reflexivity. Qed.

(** C4.  For every locator, the id that [_id_from_url] extracts is the
    integer obtained by splitting the locator on [/], dropping the empty
    trailing segment and parsing the last segment; a locator ending in
    [.../type/12/] yields 12. *)
Theorem id_from_url_refines_spec url n :
  Spec.locator_id url = Ok n -> _id_from_url url = Ok n.
Proof.
  unfold Spec.locator_id, _id_from_url, Spec.drop_empty_trailing, last_item.
  intros H.
  destruct (string_snoc_cases url) as [->|(u & a & ->)]; [discriminate H|].
  rewrite split_snoc in H. rewrite rstrip_snoc.
  destruct (Ascii.eqb a "/") eqn:Ea.
  - rewrite last_snoc in H. rewrite removelast_last in H.
    destruct (last (split "/" u)) as [seg|] eqn:El; [|discriminate H].
    simpl in H.
    assert (seg <> EmptyString) as Hne by (intros ->; discriminate H).
    rewrite (rstrip_id "/" u seg El Hne), El. exact H.
  - rewrite split_snoc, Ea.
    rewrite last_snoc in H |- *.
    destruct (default EmptyString (last (split "/" u)) ++ String a EmptyString) eqn:E.
    + destruct (default EmptyString (last (split "/" u))); discriminate E.
    + rewrite last_snoc in H. exact H.
Qed.

Lemma id_from_url_witness :
  Spec.locator_id "https://pokeapi.co/api/v2/type/12/" = Ok 12%Z
  /\ _id_from_url "https://pokeapi.co/api/v2/type/12/" = Ok 12%Z.
Proof.
  split; [reflexivity|].
  apply (id_from_url_refines_spec "https://pokeapi.co/api/v2/type/12/" 12). reflexivity.
Defined.

Lemma string_app_assoc (a b d : string) : (a ++ b) ++ d = a ++ (b ++ d).
Proof.
  induction a as [|x a IH]; [reflexivity|].
  change (String x ((a ++ b) ++ d) = String x (a ++ (b ++ d))). by rewrite IH.
Qed.

Lemma id_from_url_type_12 p :
  _id_from_url (p ++ "/type/12/") = Ok 12%Z.
Proof.
  unfold _id_from_url.
  change "/type/12/"
    with (("/type/" ++ String "1" EmptyString) ++ String "2" EmptyString ++ String "/" EmptyString).
  rewrite <- !string_app_assoc.
  rewrite !rstrip_snoc. simpl Ascii.eqb. cbv iota.
  rewrite !split_snoc. simpl Ascii.eqb. cbv iota.
  change "/type/" with ("/type" ++ String "/" EmptyString).
  rewrite <- !string_app_assoc, split_snoc. simpl Ascii.eqb. cbv iota.
  unfold last_item. rewrite !last_snoc. reflexivity.
Qed.

(** The exact extent of [_id_from_url]: it drops every empty trailing
    segment, not one. *)
Lemma string_rev_ind (P : string -> Prop) :
  P EmptyString -> (forall u a, P u -> P (u ++ String a EmptyString)) -> forall s, P s.
Proof.
  intros H0 Hs s. remember (String.length s) as n eqn:Hn. revert s Hn.
  induction n as [|n IH]; intros s Hn.
  - destruct s; [exact H0|discriminate Hn].
  - destruct (string_snoc_cases s) as [->|(u & a & ->)]; [discriminate Hn|].
    apply Hs, IH.
    assert (forall v, String.length (v ++ String a EmptyString) = S (String.length v)) as Hlen
      by (induction v as [|b v IHv]; simpl; [reflexivity|by rewrite IHv]).
    rewrite Hlen in Hn. by injection Hn.
Qed.

Lemma drop_all_empty_snoc l x :
  Spec.drop_all_empty_trailing (l ++ [x])
  = if String.eqb x EmptyString then Spec.drop_all_empty_trailing l else (l ++ [x])%list.
Proof.
  induction l as [|y l IH]; simpl.
  - destruct (String.eqb x EmptyString); reflexivity.
  - rewrite IH. destruct (String.eqb x EmptyString) eqn:Ex; [reflexivity|].
    destruct l; reflexivity.
Qed.

Lemma drop_all_empty_split s :
  Spec.drop_all_empty_trailing (split "/" s)
  = match rstrip "/" s with
    | EmptyString => []
    | r => split "/" r
    end.
Proof.
  induction s as [|u a IH] using string_rev_ind; [reflexivity|].
  rewrite split_snoc, rstrip_snoc. destruct (Ascii.eqb a "/") eqn:Ea.
  - rewrite drop_all_empty_snoc. exact IH.
  - rewrite drop_all_empty_snoc, <- split_snoc_ne by exact Ea.
    destruct (default EmptyString (last (split "/" u))); [|destruct u; reflexivity].
    destruct u; reflexivity.
Qed.

Lemma id_from_url_drops_all_trailing url n :
  _id_from_url url = Ok n <-> Spec.locator_id_lenient url = Ok n.
Proof.
  unfold _id_from_url, Spec.locator_id_lenient. rewrite drop_all_empty_split.
  destruct (rstrip "/" url) eqn:E; [split; intros H; discriminate H|reflexivity].
Qed.

(** The code accepts more locators than the wording: any number of
    trailing separators is dropped. *)
Example id_from_url_double_slash :
  _id_from_url "type/12//" = Ok 12%Z
  /\ Spec.locator_id "type/12//" = Err ValueError.
Proof. split; reflexivity. Qed.

(* ===================================================================== *)
(** ** Facts on binary64 arithmetic *)
(* ===================================================================== *)

Module FloatFacts.
Import PyFloat.

Local Abbreviation emin := (emin prec emax).
Local Abbreviation fexp := (fexp prec emax).

Lemma digits2_pos_size p : digits2_pos p = Pos.size p.
Proof. induction p; simpl; congruence. Qed.

(** The number of binary digits, through [Z.log2]. *)
Lemma Zdigits2_log2 m : 0 < m -> Zdigits2 m = Z.log2 m + 1.
Proof.
  destruct m as [|p|p]; try lia. intros _. simpl.
  rewrite digits2_pos_size. destruct p; simpl; lia.
Qed.

Lemma Zdigits2_shiftr m n :
  0 < m -> 0 <= n < Zdigits2 m ->
  0 < Z.shiftr m n /\ Zdigits2 (Z.shiftr m n) = Zdigits2 m - n.
Proof.
  intros Hm Hn. rewrite (Zdigits2_log2 m Hm) in *.
  assert (Z.log2 (Z.shiftr m n) = Z.log2 m - n) as Hl.
  { rewrite Z.log2_shiftr by lia. lia. }
  assert (0 < Z.shiftr m n) as Hpos.
  { rewrite Z.shiftr_div_pow2 by lia.
    apply Z.div_str_pos. split; [apply Z.pow_pos_nonneg; lia|].
    apply Z.log2_le_pow2; lia. }
  split; [exact Hpos|]. rewrite Zdigits2_log2 by exact Hpos. lia.
Qed.

Lemma shr_1_m mrs : 0 <= shr_m mrs -> shr_m (shr_1 mrs) = Z.shiftr (shr_m mrs) 1.
Proof.
  destruct mrs as [m r s]. simpl. intros Hm.
  rewrite <- Z.div2_spec. destruct m as [|[p|p|]|p]; try reflexivity; lia.
Qed.

Lemma iter_shr_1_m p mrs :
  0 <= shr_m mrs -> shr_m (SpecFloat.iter_pos shr_1 p mrs) = Z.shiftr (shr_m mrs) (Z.pos p).
Proof.
  revert mrs. induction p as [p IH|p IH|]; intros mrs Hm; simpl.
  - assert (0 <= shr_m (shr_1 mrs)) as H1
      by (rewrite shr_1_m by lia; apply Z.shiftr_nonneg; lia).
    assert (0 <= shr_m (SpecFloat.iter_pos shr_1 p (shr_1 mrs))) as H2
      by (rewrite IH by lia; apply Z.shiftr_nonneg; lia).
    rewrite IH by lia. rewrite IH by lia. rewrite shr_1_m by lia.
    rewrite !Z.shiftr_shiftr by lia. f_equal; lia.
  - assert (0 <= shr_m (SpecFloat.iter_pos shr_1 p mrs)) as H2
      by (rewrite IH by lia; apply Z.shiftr_nonneg; lia).
    rewrite IH by lia. rewrite IH by lia.
    rewrite Z.shiftr_shiftr by lia. f_equal; lia.
  - apply shr_1_m, Hm.
Qed.

(** A right shift keeps a positive mantissa positive as long as it has
    more digits than the shift, and keeps the magnitude. *)
Lemma shr_keeps m l e n mrs e' :
  0 < m -> n < Zdigits2 m ->
  shr (shr_record_of_loc m l) e n = (mrs, e') ->
  0 < shr_m mrs /\ Zdigits2 (shr_m mrs) + e' = Zdigits2 m + e.
Proof.
  intros Hm Hn Hs.
  assert (shr_m (shr_record_of_loc m l) = m) as Hrec by (destruct l as [|[]]; reflexivity).
  unfold shr in Hs. destruct n as [|p|p]; inversion Hs; subst; clear Hs.
  - rewrite Hrec. lia.
  - rewrite iter_shr_1_m by (rewrite Hrec; lia). rewrite Hrec.
    destruct (Zdigits2_shiftr m (Z.pos p) Hm) as [? ?]; lia.
  - rewrite Hrec. lia.
Qed.

Lemma fexp_lt d : emin < d -> fexp d < d.
Proof. unfold SpecFloat.fexp, SpecFloat.emin, prec, emax. lia. Qed.

Lemma round_nearest_even_bounds m l :
  m <= round_nearest_even m l <= m + 1.
Proof. unfold round_nearest_even. destruct l as [|[]]; try destruct (Z.even m); lia. Qed.

Lemma Zdigits2_mono a b : 0 < a <= b -> Zdigits2 a <= Zdigits2 b.
Proof.
  intros H. rewrite !Zdigits2_log2 by lia.
  pose proof (Z.log2_le_mono a b). lia.
Qed.

(** Rounding a positive mantissa whose magnitude lies above the smallest
    subnormal gives a non-zero float of the same sign, of a magnitude at
    least as large. *)
Lemma binary_round_aux_pos s m e l :
  0 < m -> emin < Zdigits2 m + e ->
  rounded s (Zdigits2 m + e) (binary_round_aux prec emax s m e l).
Proof.
  intros Hm Hmag. unfold binary_round_aux, shr_fexp.
  destruct (shr (shr_record_of_loc m l) e (fexp (Zdigits2 m + e) - e))
    as [mrs1 e1] eqn:E1.
  apply shr_keeps in E1; [|lia|pose proof (fexp_lt _ Hmag); lia].
  destruct E1 as [Hm1 Hd1].
  set (m1 := round_nearest_even (shr_m mrs1) (loc_of_shr_record mrs1)).
  assert (shr_m mrs1 <= m1 <= shr_m mrs1 + 1) as Hr by apply round_nearest_even_bounds.
  assert (Zdigits2 (shr_m mrs1) <= Zdigits2 m1) as Hdm by (apply Zdigits2_mono; lia).
  destruct (shr (shr_record_of_loc m1 loc_Exact) e1 (fexp (Zdigits2 m1 + e1) - e1))
    as [mrs2 e2] eqn:E2.
  apply shr_keeps in E2; [|lia|].
  2:{ assert (emin < Zdigits2 m1 + e1) as H1 by lia.
      pose proof (fexp_lt _ H1). lia. }
  destruct E2 as [Hm2 Hd2].
  destruct (shr_m mrs2) as [|p|p] eqn:Ep; try lia.
  destruct (e2 <=? emax - prec); [|constructor].
  constructor. simpl in Hd2. lia.
Qed.


Lemma shr_exponent m l e n mrs e' :
  shr (shr_record_of_loc m l) e n = (mrs, e') -> e' = e + Z.max n 0.
Proof. unfold shr. destruct n; intros [= <- <-]; lia. Qed.

Lemma Zdigits2_succ a : 0 < a -> Zdigits2 (a + 1) <= Zdigits2 a + 1.
Proof.
  intros Ha. rewrite !Zdigits2_log2 by lia.
  pose proof (Z.log2_le_mono (a + 1) (2 * a) ltac:(lia)).
  pose proof (Z.log2_double a Ha). lia.
Qed.

(** Rounding a positive mantissa, aligned on its exponent, gives a
    finite float when the magnitude stays below that of the infinity. *)
Lemma binary_round_aux_finite s m e l :
  0 < m -> emin < Zdigits2 m + e -> Zdigits2 m + e < emax ->
  e <= fexp (Zdigits2 m + e) ->
  exists m' e', binary_round_aux prec emax s m e l = S754_finite s m' e'.
Proof.
  intros Hm Hlo Hhi He. unfold binary_round_aux, shr_fexp.
  destruct (shr (shr_record_of_loc m l) e (fexp (Zdigits2 m + e) - e))
    as [mrs1 e1] eqn:E1.
  pose proof (shr_exponent _ _ _ _ _ _ E1) as He1.
  apply shr_keeps in E1; [|lia|pose proof (fexp_lt _ Hlo); lia].
  destruct E1 as [Hm1 Hd1].
  pose proof (round_nearest_even_bounds (shr_m mrs1) (loc_of_shr_record mrs1)) as Hr.
  pose proof (Zdigits2_mono (shr_m mrs1) (round_nearest_even (shr_m mrs1)
                (loc_of_shr_record mrs1)) ltac:(lia)) as Hdlo.
  pose proof (Zdigits2_mono (round_nearest_even (shr_m mrs1) (loc_of_shr_record mrs1))
                (shr_m mrs1 + 1) ltac:(lia)) as Hdhi.
  pose proof (Zdigits2_succ (shr_m mrs1) Hm1) as Hsucc.
  generalize dependent (round_nearest_even (shr_m mrs1) (loc_of_shr_record mrs1)).
  intros m1 Hr Hdlo Hdhi.
  destruct (shr (shr_record_of_loc m1 loc_Exact) e1 (fexp (Zdigits2 m1 + e1) - e1))
    as [mrs2 e2] eqn:E2.
  pose proof (shr_exponent _ _ _ _ _ _ E2) as He2.
  apply shr_keeps in E2; [|lia|].
  2:{ assert (emin < Zdigits2 m1 + e1) as H1 by lia.
      pose proof (fexp_lt _ H1). lia. }
  destruct E2 as [Hm2 Hd2].
  destruct (shr_m mrs2) as [|p|p] eqn:Ep; try lia.
  assert (e2 <= emax - prec) as Hfin.
  { unfold SpecFloat.fexp, SpecFloat.emin, prec, emax in *. lia. }
  apply Z.leb_le in Hfin. rewrite Hfin. by exists p, e2.
Qed.

(** A rounding never changes the sign. *)
Lemma binary_round_aux_signed s m e l : signed s (binary_round_aux prec emax s m e l).
Proof.
  unfold binary_round_aux.
  destruct (shr_fexp prec emax m e l) as [mrs1 e1].
  destruct (shr_fexp prec emax _ e1 loc_Exact) as [mrs2 e2].
  destruct (shr_m mrs2); simpl; try done.
  destruct (e2 <=? emax - prec); done.
Qed.

Lemma rounded_weaken s lo lo' x : lo' <= lo -> rounded s lo x -> rounded s lo' x.
Proof. intros Hle [m e H|]; constructor; lia. Qed.

Lemma digits2_pos_iter_xO m d :
  Z.pos (digits2_pos (Pos.iter xO m d)) = Z.pos (digits2_pos m) + Z.pos d.
Proof.
  induction d as [|d IH] using Pos.peano_ind.
  - simpl. lia.
  - rewrite Pos.iter_succ. simpl. lia.
Qed.

Lemma shl_align_mag mx ex ex' mz ez :
  shl_align mx ex ex' = (mz, ez) ->
  Z.pos (digits2_pos mz) + ez = Z.pos (digits2_pos mx) + ex.
Proof.
  unfold shl_align. destruct (ex' - ex) as [|d|d] eqn:E; intros [= <- <-]; try lia.
  rewrite digits2_pos_iter_xO. lia.
Qed.

Lemma binary_round_pos s mx ex :
  emin < Z.pos (digits2_pos mx) + ex ->
  rounded s (Z.pos (digits2_pos mx) + ex) (binary_round prec emax s mx ex).
Proof.
  intros Hmag. unfold binary_round.
  destruct (shl_align mx ex _) as [mz ez] eqn:E.
  apply shl_align_mag in E. rewrite <- E.
  apply (binary_round_aux_pos s (Z.pos mz) ez loc_Exact); simpl; lia.
Qed.

Lemma shl_align_exponent mx ex ex' mz ez :
  shl_align mx ex ex' = (mz, ez) -> ez <= ex'.
Proof. unfold shl_align. destruct (ex' - ex) eqn:E; intros [= <- <-]; lia. Qed.

(** [float(n)] exists for every int below [2^1023] in absolute value. *)
Lemma of_int_converts n : Z.abs n < 2 ^ 1023 -> exists f, of_int n = Ok f.
Proof.
  intros Hn. unfold of_int.
  assert (forall s p, Z.pos p < 2 ^ 1023 ->
            exists m e, binary_round prec emax s p 0 = S754_finite s m e) as Hfin.
  { intros s p Hp. unfold binary_round.
    destruct (shl_align p 0 _) as [mz ez] eqn:E.
    pose proof (shl_align_mag _ _ _ _ _ E) as Hmag.
    pose proof (shl_align_exponent _ _ _ _ _ E) as Hexp.
    assert (Z.pos (digits2_pos p) <= 1023) as Hd.
    { change (Z.pos (digits2_pos p)) with (Zdigits2 (Z.pos p)).
      rewrite Zdigits2_log2 by lia.
      pose proof (Z.log2_lt_pow2 (Z.pos p) 1023 ltac:(lia)). lia. }
    apply binary_round_aux_finite; simpl Zdigits2.
    - lia.
    - unfold SpecFloat.emin, prec, emax. lia.
    - unfold emax. lia.
    - rewrite Hmag. exact Hexp. }
  destruct n as [|p|p]; simpl.
  - by eexists.
  - destruct (Hfin false p) as (m & e & ->); [lia|]. by eexists.
  - destruct (Hfin true p) as (m & e & ->); [lia|]. by eexists.
Qed.

(** [float(n)] for a positive int: a positive float of magnitude at
    least 1. *)
Lemma of_int_pos n f :
  0 < n -> of_int n = Ok f -> exists m e, f = S754_finite false m e /\ 1 <= mag f.
Proof.
  intros Hn. unfold of_int. destruct n as [|p|p]; try lia. simpl.
  assert (1 <= Z.pos (digits2_pos p) + 0) as H1 by lia.
  pose proof (binary_round_pos false p 0) as Hr.
  destruct Hr as [m e Hm|]; [unfold SpecFloat.emin, prec, emax; lia| |discriminate].
  intros [= <-]. exists m, e. split; [reflexivity|simpl; lia].
Qed.

Lemma of_int_nonpos n f :
  n <= 0 -> of_int n = Ok f -> f = S754_zero false \/ signed true f.
Proof.
  intros Hn. unfold of_int. destruct n as [|p|p]; try lia; simpl.
  - intros [= <-]. by left.
  - unfold binary_round. destruct (shl_align _ _ _) as [mz ez].
    pose proof (binary_round_aux_signed true (Z.pos mz) ez loc_Exact) as Hs.
    destruct (binary_round_aux _ _ _ _ _ _); intros [= <-]; by right.
Qed.

Lemma Zdigits2_bounds m : 0 < m -> 2 ^ (Zdigits2 m - 1) <= m < 2 ^ Zdigits2 m.
Proof.
  intros Hm. rewrite Zdigits2_log2 by lia.
  pose proof (Z.log2_spec m Hm). replace (Z.log2 m + 1 - 1) with (Z.log2 m) by lia.
  replace (Z.log2 m + 1) with (Z.succ (Z.log2 m)) by lia. lia.
Qed.

Lemma Zdigits2_lower k m : 0 <= k -> 2 ^ k <= m -> k + 1 <= Zdigits2 m.
Proof.
  intros Hk Hm. assert (0 < m) by (pose proof (Z.pow_pos_nonneg 2 k); lia).
  rewrite Zdigits2_log2 by lia. apply Z.log2_le_pow2 in Hm; lia.
Qed.

(** The quotient of two positive floats does not underflow to zero when
    the magnitudes are not too far apart. *)
Lemma div_pos mx ex my ey :
  let x := S754_finite false mx ex in
  let y := S754_finite false my ey in
  emin + prec <= mag x - mag y ->
  rounded false (mag x - mag y) (SFdiv prec emax x y).
Proof.
  intros x y Hmag. simpl in Hmag. unfold SFdiv, x, y, SFdiv_core_binary. simpl mag.
  pose proof (Zdigits2_bounds (Z.pos mx) ltac:(lia)) as Hb1.
  pose proof (Zdigits2_bounds (Z.pos my) ltac:(lia)) as Hb2.
  change (Z.pos (digits2_pos mx)) with (Zdigits2 (Z.pos mx)) in *.
  change (Z.pos (digits2_pos my)) with (Zdigits2 (Z.pos my)) in *.
  assert (0 < Zdigits2 (Z.pos mx)) as Hp1 by (simpl; lia).
  assert (0 < Zdigits2 (Z.pos my)) as Hp2 by (simpl; lia).
  generalize dependent (Zdigits2 (Z.pos mx)). intros d1 Hmag Hb1 Hp1.
  generalize dependent (Zdigits2 (Z.pos my)). intros d2 Hb2 Hp2 Hmag.
  remember (Z.min (fexp (d1 + ex - (d2 + ey))) (ex - ey)) as e' eqn:He'.
  remember (ex - ey - e') as s eqn:Hs.
  assert (e' <= d1 + ex - (d2 + ey) - prec) as Hle.
  { rewrite He'. unfold SpecFloat.fexp. unfold SpecFloat.emin, prec, emax in *. lia. }
  assert (0 <= s) as Hs0 by lia.
  assert (Z.div_eucl match s with
                     | 0 => Z.pos mx
                     | Z.pos _ => Z.shiftl (Z.pos mx) s
                     | Z.neg _ => 0
                     end (Z.pos my)
          = Z.div_eucl (Z.pos mx * 2 ^ s) (Z.pos my)) as ->.
  { destruct s; try lia; [by rewrite Z.mul_1_r|].
    rewrite Z.shiftl_mul_pow2 by lia. reflexivity. }
  destruct (Z.div_eucl (Z.pos mx * 2 ^ s) (Z.pos my)) as [q r] eqn:Eq.
  assert (q = (Z.pos mx * 2 ^ s) / Z.pos my) as Hq by (unfold Z.div; rewrite Eq; reflexivity).
  assert (0 <= d1 - 1 + s - d2) as Hk by (unfold prec in *; lia).
  assert (2 ^ (d1 - 1 + s - d2) <= q) as Hqk.
  { rewrite Hq. apply Z.div_le_lower_bound; [lia|].
    assert (2 ^ (d1 - 1) * 2 ^ s = 2 ^ (d1 - 1 + s - d2) * 2 ^ d2) as Hp.
    { rewrite <- !Z.pow_add_r by lia. f_equal. lia. }
    assert (0 < 2 ^ (d1 - 1 + s - d2)) by (apply Z.pow_pos_nonneg; lia).
    assert (0 < 2 ^ s) by (apply Z.pow_pos_nonneg; lia).
    assert (0 < 2 ^ d2) by (apply Z.pow_pos_nonneg; lia).
    nia. }
  pose proof (Zdigits2_lower _ q Hk Hqk) as Hdq.
  assert (0 < q) by (pose proof (Z.pow_pos_nonneg 2 (d1 - 1 + s - d2)); lia).
  simpl xorb.
  apply (rounded_weaken false (Zdigits2 q + e')); [lia|].
  apply binary_round_aux_pos; [lia|]. unfold SpecFloat.emin, prec, emax in *. lia.
Qed.

(** Nor does the product of two finite floats, when the magnitudes add
    up to more than that of the smallest subnormal. *)
Lemma mul_finite sx mx ex sy my ey :
  let x := S754_finite sx mx ex in
  let y := S754_finite sy my ey in
  emin < mag x + mag y - 1 ->
  rounded (xorb sx sy) (mag x + mag y - 1) (SFmul prec emax x y).
Proof.
  intros x y Hmag. simpl in Hmag. unfold SFmul, x, y.
  assert (Zdigits2 (Z.pos mx) + Zdigits2 (Z.pos my) - 1 <= Zdigits2 (Z.pos (mx * my))) as Hd.
  { rewrite !Zdigits2_log2 by lia. rewrite Pos2Z.inj_mul.
    pose proof (Z.log2_mul_below (Z.pos mx) (Z.pos my)). lia. }
  simpl Zdigits2 in Hd. simpl mag.
  apply (rounded_weaken _ (Zdigits2 (Z.pos (mx * my)) + (ex + ey))); [simpl; lia|].
  apply binary_round_aux_pos; [lia|simpl; lia].
Qed.

Lemma rounded_gt_zero lo x : rounded false lo x -> gt_zero x = true.
Proof. intros [m e _|]; reflexivity. Qed.

Lemma signed_not_gt_zero x : signed true x -> gt_zero x = false.
Proof. destruct x as [s|s| |s m e]; simpl; try done; intros ->; reflexivity. Qed.

Lemma mag_lit_100 : mag lit_100 = 7.
Proof. reflexivity. Qed.

(** [h / 100.0] is a positive float (or infinity) when [h] is a positive
    int that converts. *)
Lemma metres_pos h f :
  0 < h -> of_int h = Ok f -> rounded false (-6) (SFdiv prec emax f lit_100).
Proof.
  intros Hh Hf. destruct (of_int_pos h f Hh Hf) as (m & e & -> & Hmag).
  simpl in Hmag.
  apply (rounded_weaken _ (mag (S754_finite false m e) - mag lit_100)); [simpl; lia|].
  apply div_pos. unfold SpecFloat.emin, prec, emax. simpl. lia.
Qed.

Lemma metres_nonpos h f :
  h <= 0 -> of_int h = Ok f -> gt_zero (SFdiv prec emax f lit_100) = false.
Proof.
  intros Hh Hf. destruct (of_int_nonpos h f Hh Hf) as [->|Hs]; [reflexivity|].
  destruct f as [s|s| |s m e]; simpl in Hs; subst; try reflexivity.
  apply signed_not_gt_zero. unfold SFdiv, lit_100.
  destruct (SFdiv_core_binary _ _ _ _ _ _) as [[mz ez] lz].
  apply binary_round_aux_signed.
Qed.

(** The square of a positive float of magnitude at least [-6] is not
    zero. *)
Lemma square_not_zero x : rounded false (-6) x -> is_zero (mul x x) = false.
Proof.
  intros [m e Hm|]; [|reflexivity].
  assert (rounded false (-13) (mul (S754_finite false m e) (S754_finite false m e))) as Hr.
  { apply (rounded_weaken _ (mag (S754_finite false m e) + mag (S754_finite false m e) - 1));
      [simpl; lia|].
    apply (mul_finite false m e false m e). unfold SpecFloat.emin, prec, emax. simpl. lia. }
  destruct Hr; reflexivity.
Qed.

End FloatFacts.

(* ===================================================================== *)
(** ** The transformer *)
(* ===================================================================== *)

Section TransformFacts.
Import PyFloat FloatFacts.
Variable py_repr : json -> string.

(** What a returned record says about the statements that built it. *)
Lemma transform_one_sizes payload r :
  transform_one py_repr payload = Ok r ->
  exists vh h vw w,
    getitem payload "height" = Ok vh /\ py_int vh = Ok h /\
    getitem payload "weight" = Ok vw /\ py_int vw = Ok w /\
    TPokemon.height_cm r = _to_cm h /\
    _to_kg w = Ok (TPokemon.weight_kg r) /\
    _bmi (TPokemon.height_cm r) (TPokemon.weight_kg r) = Ok (TPokemon.bmi r).
Proof.
  unfold transform_one. intros H.
  bind_inv H. inversion H; subst; clear H. simpl.
  repeat match goal with
         | E : _ ≫= _ = Ok _ |- _ => bind_inv E
         | E : Ok _ = Ok _ |- _ => inversion E; subst; clear E
         end.
  eauto 12.
Qed.

Lemma bmi_unfold h w f :
  of_int h = Ok f ->
  _bmi h w =
  let m := SFdiv prec emax f lit_100 in
  if gt_zero m
  then (if is_zero (mul m m) then Err ZeroDivisionError
        else Ok (Some (SFdiv prec emax w (mul m m))))
  else Ok None.
Proof.
  intros Hf. unfold _bmi, int_div. rewrite Hf. cbv zeta.
  change (Ok f ≫= (fun x => div x lit_100)) with (Ok (SFdiv prec emax f lit_100)).
  change (Ok (SFdiv prec emax f lit_100) ≫= ?k) with (k (SFdiv prec emax f lit_100)).
  cbv beta. destruct (gt_zero _); [|reflexivity].
  unfold div. destruct (is_zero _); reflexivity.
Qed.

(** [_bmi] on a positive height: the guard passes and the divisor is not
    zero. *)
Lemma bmi_positive h w f :
  0 < h -> of_int h = Ok f ->
  let m := SFdiv prec emax f lit_100 in
  is_zero (mul m m) = false /\ _bmi h w = Ok (Some (SFdiv prec emax w (mul m m))).
Proof.
  intros Hh Hf m. pose proof (metres_pos h f Hh Hf) as Hm. fold m in Hm.
  pose proof (square_not_zero m Hm) as Hz. split; [exact Hz|].
  rewrite (bmi_unfold h w f Hf). cbv zeta. fold m.
  rewrite (rounded_gt_zero _ _ Hm), Hz. reflexivity.
Qed.

(** [_bmi] on a height that is not positive: the guard returns [None]. *)
Lemma bmi_nonpositive h w f :
  h <= 0 -> of_int h = Ok f -> _bmi h w = Ok None.
Proof.
  intros Hh Hf. rewrite (bmi_unfold h w f Hf). cbv zeta.
  rewrite (metres_nonpos h f Hh Hf). reflexivity.
Qed.

(** The guard is enough: [_bmi] never divides by zero, and returns as
    soon as the height converts to a float. *)
Lemma bmi_never_divides_by_zero h w :
  _bmi h w = (f ← of_int h; Ok (if 0 <? h
                                then Some (SFdiv prec emax w
                                             (mul (SFdiv prec emax f lit_100)
                                                  (SFdiv prec emax f lit_100)))
                                else None)).
Proof.
  destruct (of_int h) as [f|e] eqn:Hf; simpl.
  - destruct (Z.ltb_spec 0 h) as [Hh|Hh].
    + apply (bmi_positive h w f Hh Hf).
    + apply (bmi_nonpositive h w f); [lia|exact Hf].
  - unfold _bmi, int_div. rewrite Hf. reflexivity.
Qed.


(** Sizes below [2^1023] in absolute value always convert: a payload
    with the four scalar fields and such sizes is accepted. *)
Lemma transform_one_sized pid name h w :
  Z.abs (h * 10) < 2 ^ 1023 -> Z.abs w < 2 ^ 1023 ->
  exists kg b,
    _to_kg w = Ok kg /\ _bmi (h * 10) kg = Ok b /\
    transform_one py_repr (Samples.sized_payload pid name h w)
    = Ok {| TPokemon.id := pid; TPokemon.name := name;
            TPokemon.base_experience := JNull; TPokemon.height_cm := h * 10;
            TPokemon.weight_kg := kg; TPokemon.bmi := b;
            TPokemon.sprite_url := JNull; TPokemon.types := [];
            TPokemon.abilities := []; TPokemon.stats := [] |}.
Proof.
  intros Hh Hw. destruct (of_int_converts w Hw) as [f Hf].
  destruct (of_int_converts (h * 10) Hh) as [fh Hfh].
  assert (_to_kg w = Ok (SFdiv prec emax f lit_10)) as Hkg
    by (unfold _to_kg, int_div; by rewrite Hf).
  destruct (_bmi (h * 10) (SFdiv prec emax f lit_10)) as [b|e] eqn:Hb.
  2:{ rewrite bmi_never_divides_by_zero, Hfh in Hb. discriminate Hb. }
  exists (SFdiv prec emax f lit_10), b. split; [exact Hkg|]. split; [exact Hb|].
  unfold transform_one, Samples.sized_payload.
  change (getitem (JObj ?o) "id") with (Ok (JInt pid)).
  change (getitem (JObj ?o) "name") with (Ok (JStr name)).
  change (getitem (JObj ?o) "height") with (Ok (JInt h)).
  change (getitem (JObj ?o) "weight") with (Ok (JInt w)).
  change (Ok (JInt h) ≫= _) with (Ok (_to_cm h)).
  change (Ok (JInt w) ≫= _) with (_to_kg w).
  rewrite Hkg. unfold _to_cm.
  change (Ok (JInt pid) ≫= _) with (Ok pid).
  change (Ok (JStr name) ≫= _) with (Ok name).
  change (Ok pid ≫= ?k) with (k pid). cbv beta.
  change (Ok name ≫= ?k) with (k name). cbv beta.
  change (get (JObj ?o) "base_experience" JNull) with (Ok JNull).
  change (Ok JNull ≫= ?k) with (k JNull). cbv beta.
  change (Ok (h * 10) ≫= ?k) with (k (h * 10)). cbv beta.
  change (Ok (SFdiv prec emax f lit_10) ≫= ?k) with (k (SFdiv prec emax f lit_10)). cbv beta.
  rewrite Hb. reflexivity.
Qed.

(** C2 (as amended).  For every payload that [transform_one] accepts:
    when [height_cm > 0] the record's [bmi] is
    [weight_kg / (height_cm/100)^2], the division being defined; and
    [bmi] is null exactly when [height_cm <= 0] -- the guard is [m > 0],
    so a negative height gives a null [bmi] too. *)
Theorem bmi_null_iff_height_not_positive payload r :
  transform_one py_repr payload = Ok r ->
  (0 < TPokemon.height_cm r ->
   exists b, Spec.bmi_formula (TPokemon.height_cm r) (TPokemon.weight_kg r) = Ok b
             /\ TPokemon.bmi r = Some b)
  /\ (TPokemon.bmi r = None <-> TPokemon.height_cm r <= 0).
Proof.
  intros Hr. destruct (transform_one_sizes payload r Hr)
    as (vh & h & vw & w & _ & _ & _ & _ & _ & _ & Hb).
  rewrite bmi_never_divides_by_zero in Hb.
  destruct (of_int (TPokemon.height_cm r)) as [f|e] eqn:Hf; [|discriminate Hb].
  simpl in Hb. injection Hb as Hb. split.
  - intros Hh. destruct (bmi_positive _ (TPokemon.weight_kg r) f Hh Hf) as [Hz _].
    exists (SFdiv prec emax (TPokemon.weight_kg r)
              (mul (SFdiv prec emax f lit_100) (SFdiv prec emax f lit_100))).
    split.
    + unfold Spec.bmi_formula, int_div. rewrite Hf.
      change (Ok f ≫= (fun x => div x lit_100)) with (Ok (SFdiv prec emax f lit_100)).
      change (Ok (SFdiv prec emax f lit_100) ≫= ?k) with (k (SFdiv prec emax f lit_100)).
      cbv beta. unfold div. rewrite Hz. reflexivity.
    + rewrite <- Hb. destruct (Z.ltb_spec 0 (TPokemon.height_cm r)); [reflexivity|lia].
  - rewrite <- Hb. destruct (Z.ltb_spec 0 (TPokemon.height_cm r)); split; try done; lia.
Qed.

(** C3 (as amended).  For every payload that [transform_one] accepts and
    whose raw height and weight are ints, [height_cm] is the raw height
    times 10, exactly, and [weight_kg] is the float quotient
    [weight / 10.0], which exists only when the raw weight converts to a
    float. *)
Theorem unit_conversion payload r h w :
  getitem payload "height" = Ok (JInt h) ->
  getitem payload "weight" = Ok (JInt w) ->
  transform_one py_repr payload = Ok r ->
  TPokemon.height_cm r = h * 10
  /\ exists f, of_int w = Ok f
               /\ TPokemon.weight_kg r = SFdiv prec emax f lit_10.
Proof.
  intros Hh Hw Hr. destruct (transform_one_sizes payload r Hr)
    as (vh & h' & vw & w' & Hh' & Hih & Hw' & Hiw & Hcm & Hkg & _).
  rewrite Hh in Hh'. injection Hh' as <-. rewrite Hw in Hw'. injection Hw' as <-.
  simpl in Hih, Hiw. injection Hih as <-. injection Hiw as <-.
  split; [exact Hcm|].
  unfold _to_kg, int_div in Hkg.
  destruct (of_int w) as [f|e]; [|discriminate Hkg].
  exists f. split; [reflexivity|].
  change (Ok (SFdiv prec emax f lit_10) = Ok (TPokemon.weight_kg r)) in Hkg.
  by injection Hkg.
Qed.

End TransformFacts.

(** The test of the repository, on the model. *)
Example test_transform_basic_units_and_bmi :
  transform_one Samples.no_repr Samples.sample_pokemon_payload = Ok Samples.bulbasaur.
Proof. reflexivity. Qed.

(** The float [6.9] is the double next to 69/10, not 69/10. *)
Example weight_69_is_rounded :
  TPokemon.weight_kg Samples.bulbasaur = S754_finite false 7768709357214106 (-50)
  /\ 7768709357214106 * 10 <> 69 * 2 ^ 50.
Proof. split; [reflexivity|]. vm_compute. discriminate. Qed.

Lemma bmi_null_iff_height_not_positive_witness :
  exists r, transform_one Samples.no_repr Samples.sample_pokemon_payload = Ok r
    /\ ((0 < TPokemon.height_cm r ->
         exists b, Spec.bmi_formula (TPokemon.height_cm r) (TPokemon.weight_kg r) = Ok b
                   /\ TPokemon.bmi r = Some b)
        /\ (TPokemon.bmi r = None <-> TPokemon.height_cm r <= 0)).
Proof.
  exists Samples.bulbasaur. split; [reflexivity|].
  apply (bmi_null_iff_height_not_positive Samples.no_repr Samples.sample_pokemon_payload).
  reflexivity.
Defined.

(** C2 as stated fails on a negative height: the payload with height -1
    is accepted, its [height_cm] is -10 and its [bmi] is null. *)
Lemma bmi_null_with_negative_height :
  exists r, transform_one Samples.no_repr (Samples.sized_payload 1 "bulbasaur" (-1) 69) = Ok r
    /\ TPokemon.bmi r = None /\ TPokemon.height_cm r = -10
    /\ ~ (TPokemon.bmi r = None <-> TPokemon.height_cm r = 0).
Proof.
  eexists. split; [vm_compute; reflexivity|]. simpl.
  repeat split. intros [H _]. specialize (H eq_refl). discriminate H.
Qed.

Lemma unit_conversion_witness :
  TPokemon.height_cm Samples.bulbasaur = 7 * 10
  /\ exists f, PyFloat.of_int 69 = Ok f
       /\ TPokemon.weight_kg Samples.bulbasaur
          = SFdiv PyFloat.prec PyFloat.emax f PyFloat.lit_10.
Proof.
  apply (unit_conversion Samples.no_repr Samples.sample_pokemon_payload Samples.bulbasaur 7 69);
    reflexivity.
Defined.

(** C3 as stated fails on a large weight: an int of 1025 bits has no
    float, and the payload is rejected with [OverflowError]. *)
Lemma unit_conversion_overflows :
  transform_one Samples.no_repr (Samples.sized_payload 1 "bulbasaur" 7 (2 ^ 1024))
  = Err OverflowError.
Proof. vm_compute. reflexivity. Qed.

(* ===================================================================== *)
(** ** The fetcher *)
(* ===================================================================== *)

Section FetchFacts.
Variable cfg : Config.t.

(** No more requests than rounds. *)
Lemma fetch_loop_attempts attempt url n k last :
  (attempts (fetch_loop cfg attempt url n k last).2 <= n)%nat.
Proof.
  revert k last. induction n as [|n IH]; intros k last; simpl.
  - destruct last; unfold attempts; simpl; lia.
  - destruct (attempt k) as [data|exc]; simpl; [unfold attempts; simpl; lia|].
    specialize (IH (S k) (Some exc)).
    destruct (fetch_loop cfg attempt url n (S k) (Some exc)) as [r evs].
    unfold attempts in *. simpl in *. lia.
Qed.


(** When every round fails, the loop makes all its requests and leaves
    with the exception of the last one; with no round at all it leaves on
    the assertion. *)
Lemma fetch_loop_exhausted attempt url n k last :
  (forall j, (j < n)%nat -> raised (attempt (k + j)%nat) <> None) ->
  (fetch_loop cfg attempt url n k last).1 =
    match n with
    | O => match last with Some e => Err e | None => Err AssertionError end
    | S n' => match raised (attempt (k + n')%nat) with
              | Some e => Err e
              | None => Err AssertionError
              end
    end
  /\ attempts (fetch_loop cfg attempt url n k last).2 = n.
Proof.
  revert k last. induction n as [|n IH]; intros k last Hall; simpl.
  - destruct last; split; reflexivity.
  - pose proof (Hall 0%nat ltac:(lia)) as H0. rewrite Nat.add_0_r in H0.
    destruct (attempt k) as [data|exc] eqn:Ek; [done|]. clear H0.
    assert (forall j, (j < n)%nat -> raised (attempt (S k + j)%nat) <> None) as Hall'.
    { intros j Hj. specialize (Hall (S j) ltac:(lia)).
      by replace (k + S j)%nat with (S k + j)%nat in Hall by lia. }
    destruct (IH (S k) (Some exc) Hall') as [IH1 IH2].
    destruct (fetch_loop cfg attempt url n (S k) (Some exc)) as [r evs].
    simpl in *. split.
    + rewrite IH1. destruct n as [|n'].
      * by rewrite Nat.add_0_r, Ek.
      * by replace (k + S n')%nat with (S k + n')%nat by lia.
    + unfold attempts in *. simpl. by rewrite IH2.
Qed.


(** The first success ends the loop. *)
Lemma fetch_loop_success attempt url n k last j data :
  (j < n)%nat ->
  (forall i, (i < j)%nat -> raised (attempt (k + i)%nat) <> None) ->
  attempt (k + j)%nat = Body data ->
  (fetch_loop cfg attempt url n k last).1 = Ok data
  /\ attempts (fetch_loop cfg attempt url n k last).2 = S j.
Proof.
  revert n k last. induction j as [|j IH]; intros n k last Hn Hall Hj.
  - destruct n as [|n]; [lia|]. simpl. rewrite Nat.add_0_r in Hj. rewrite Hj.
    split; reflexivity.
  - destruct n as [|n]; [lia|]. simpl.
    pose proof (Hall 0%nat ltac:(lia)) as H0. rewrite Nat.add_0_r in H0.
    destruct (attempt k) as [d|exc] eqn:Ek; [done|].
    destruct (IH n (S k) (Some exc)) as [IH1 IH2];
      [lia| |by replace (S k + j)%nat with (k + S j)%nat by lia|].
    { intros i Hi. specialize (Hall (S i) ltac:(lia)).
      by replace (k + S i)%nat with (S k + i)%nat in Hall by lia. }
    destruct (fetch_loop cfg attempt url n (S k) (Some exc)) as [r evs].
    simpl in *. split; [exact IH1|]. unfold attempts in *. simpl. by rewrite IH2.
Qed.

(** C10.  [_fetch_json] makes at most [MAX_RETRIES] requests.  With
    [MAX_RETRIES >= 1] a call whose requests all fail leaves with the
    exception of the last request, so the assertion on [last_exc] holds
    when it is reached; with [MAX_RETRIES = 0] (or less) the call makes
    no request and fails on that assertion. *)
Theorem fetch_json_retry_bound attempt url :
  (attempts (_fetch_json cfg attempt url).2 <= Z.to_nat (MAX_RETRIES cfg))%nat
  /\ (1 <= MAX_RETRIES cfg ->
      (forall k, (k < Z.to_nat (MAX_RETRIES cfg))%nat -> raised (attempt k) <> None) ->
      exists e, raised (attempt (Z.to_nat (MAX_RETRIES cfg) - 1)%nat) = Some e
                /\ (_fetch_json cfg attempt url).1 = Err e)
  /\ (MAX_RETRIES cfg <= 0 ->
      _fetch_json cfg attempt url = (Err AssertionError, [])).
Proof.
  unfold _fetch_json. split; [apply fetch_loop_attempts|split].
  - intros HM Hall.
    destruct (fetch_loop_exhausted attempt url (Z.to_nat (MAX_RETRIES cfg)) 0 None Hall)
      as [Hr _].
    destruct (Z.to_nat (MAX_RETRIES cfg)) as [|n] eqn:En; [lia|].
    simpl in Hr. replace (S n - 1)%nat with n by lia.
    specialize (Hall n ltac:(lia)).
    destruct (raised (attempt n)) as [e|]; [|done]. by exists e.
  - intros HM. replace (Z.to_nat (MAX_RETRIES cfg)) with 0%nat by lia. reflexivity.
Qed.


Lemma gather_length {A} (tasks : list (nat -> result A)) i0 xs :
  gather tasks i0 = Ok xs -> length xs = length tasks.
Proof.
  revert i0 xs. induction tasks as [|t0 tasks IH]; intros i0 xs; simpl.
  - by intros [= <-].
  - destruct (t0 i0); [|done]. simpl.
    destruct (gather tasks (S i0)) eqn:E; [|done]. simpl. intros [= <-].
    simpl. f_equal. by eapply IH.
Qed.

Lemma for_each_length {A B} (f : A -> result B) l ys :
  for_each f l = Ok ys -> length ys = length l.
Proof.
  revert ys. induction l as [|x l IH]; intros ys; simpl.
  - by intros [= <-].
  - destruct (f x); [|done]. simpl. destruct (for_each f l); [|done]. simpl.
    intros [= <-]. simpl. f_equal. by apply IH.
Qed.

Lemma for_each_fails {A B} (f : A -> result B) l x :
  x ∈ l -> is_ok (f x) = false -> is_ok (for_each f l) = false.
Proof.
  induction 1 as [x l|x y l Hin IH]; intros Hf; simpl.
  - destruct (f x); [done|reflexivity].
  - destruct (f y); [|reflexivity]. simpl.
    specialize (IH Hf). destruct (for_each f l); [done|reflexivity].
Qed.

Lemma fetch_pokemon_details_length net targets details :
  fetch_pokemon_details cfg net targets = Ok details ->
  length details = length targets.
Proof.
  unfold fetch_pokemon_details. destruct (_ <? 0); [done|].
  destruct (_ && _); [done|]. intros H. apply gather_length in H.
  by rewrite length_map in H.
Qed.

End FetchFacts.

(* ===================================================================== *)
(** ** The session scope and the orchestrator *)
(* ===================================================================== *)

Section ScopeFacts.

Lemma foldl_preserves {A B C} (f : A -> B -> A) (g : A -> C) l a :
  (forall a b, g (f a b) = g a) -> g (foldl f a l) = g a.
Proof.
  intros Hf. revert a. induction l as [|b l IH]; intros a; simpl; [reflexivity|].
  by rewrite IH, Hf.
Qed.

(** The merges of a load read the store and write to the session only. *)
Lemma upsert_reference_batch_conn ss batch :
  conn (upsert_reference_batch ss batch) = conn ss.
Proof.
  unfold upsert_reference_batch.
  rewrite !(foldl_preserves _ conn); [reflexivity|..]; by intros a [k v].
Qed.

Ltac by_cases_on_tuple :=
  let a := fresh "a" in let x := fresh "x" in
  intros a x; repeat (destruct x as [x ?]); reflexivity.

Lemma upsert_pokemon_conn ss tp : conn (upsert_pokemon ss tp) = conn ss.
Proof.
  unfold upsert_pokemon.
  rewrite !(foldl_preserves _ conn); [reflexivity|..]; by_cases_on_tuple.
Qed.

Lemma load_batch_conn ss batch : conn (load_batch ss batch).1 = conn ss.
Proof.
  unfold load_batch. simpl.
  rewrite (foldl_preserves _ conn); [apply upsert_reference_batch_conn|].
  intros a b. apply upsert_pokemon_conn.
Qed.

(** [load_batch] returns the size of its batch. *)
Lemma load_batch_count ss batch : (load_batch ss batch).2 = Z.of_nat (length batch).
Proof. reflexivity. Qed.

(** The scope around a load: what the flush of the loaded session does
    decides between the commit of all of it and the rollback. *)
Lemma load_in_scope_cases clock s items :
  load_in_scope clock s items =
  match flush_all clock (load_batch (SessionLocal s) items).1 s with
  | (s', None) => (s', Ok (Z.of_nat (length items)))
  | (_, Some e) => (s, Err e)
  end.
Proof.
  unfold load_in_scope, session_scope.
  pose proof (load_batch_conn (SessionLocal s) items) as Hc.
  destruct (load_batch (SessionLocal s) items) as [ss n] eqn:El.
  assert (n = Z.of_nat (length items)) as -> by (by injection El).
  simpl in Hc |- *. unfold commit. rewrite Hc.
  change (visible {| committed := s; tx := None |}) with s.
  destruct (flush_all clock ss s) as [s' [e|]]; reflexivity.
Qed.

(** Whatever the body does with its session, short of committing by
    itself, an exception of the body or of the commit leaves the store as
    it was. *)
Lemma session_scope_rolls_back {A} clock s (body : session -> session * result A) s' e :
  (forall ss, committed (conn (body ss).1) = committed (conn ss)) ->
  session_scope clock s body = (s', Err e) -> s' = s.
Proof.
  intros Hkeep. unfold session_scope. specialize (Hkeep (SessionLocal s)).
  destruct (body (SessionLocal s)) as [ss [a|e0]]; simpl in Hkeep.
  - unfold commit. destruct (flush_all clock ss (visible (conn ss))) as [s1 [e1|]].
    + intros [= <- _]. exact Hkeep.
    + done.
  - intros [= <- _]. exact Hkeep.
Qed.

(** C6.  [load_batch] runs its merges inside one transaction:
    when the flush of the commit succeeds the store becomes what the whole
    flush wrote and the count is returned; when any statement fails the
    store is left as it was before the call and the exception reaches
    the caller of [run_etl]. *)
Theorem load_is_atomic clock s items :
  (forall s' e, load_in_scope clock s items = (s', Err e) -> s' = s)
  /\ (forall s' n, load_in_scope clock s items = (s', Ok n) ->
        flush_all clock (load_batch (SessionLocal s) items).1 s = (s', None)
        /\ n = Z.of_nat (length items))
  /\ (forall py_repr cfg net limit offset s' e,
        extract_transform py_repr cfg net limit offset = Ok items ->
        load_in_scope clock s items = (s', Err e) ->
        run_etl py_repr cfg net clock s limit offset = (s, Err e)).
Proof.
  rewrite load_in_scope_cases.
  destruct (flush_all clock (load_batch (SessionLocal s) items).1 s) as [s1 [e1|]] eqn:Ef.
  - split; [by intros s' e [= <- _]|]. split; [by intros s' n [= _ ?]|].
    intros py_repr cfg net limit offset s' e Hx [= <- <-].
    unfold run_etl, create_schema. rewrite Hx, load_in_scope_cases, Ef. reflexivity.
  - split; [by intros s' e [= _ ?]|]. split; [by intros s' n [= <- <-]|].
    by intros py_repr cfg net limit offset s' e Hx [= _ ?].
Qed.

(** C5.  A run that returns gives [(requested, loaded)] with [requested]
    the number of items of the fetched listing and [loaded] the value of
    [load_batch], which is the size of its batch; the two are equal. *)
Theorem run_etl_counts py_repr cfg net clock s limit offset s' requested loaded :
  run_etl py_repr cfg net clock s limit offset = (s', Ok (requested, loaded)) ->
  (exists listing items batch,
     fetch_pokemon_list cfg net limit offset = Ok listing
     /\ iter listing = Ok items
     /\ requested = Z.of_nat (length items)
     /\ extract_transform py_repr cfg net limit offset = Ok batch
     /\ loaded = (load_batch (SessionLocal s) batch).2)
  /\ (forall ss batch, (load_batch ss batch).2 = Z.of_nat (length batch))
  /\ requested = loaded.
Proof.
  unfold run_etl, create_schema. intros H.
  destruct (extract_transform py_repr cfg net limit offset) as [batch|e] eqn:Ex; [|done].
  rewrite load_in_scope_cases in H.
  destruct (flush_all clock _ s) as [s1 [e1|]]; [done|].
  injection H as <- <- <-.
  split; [|split; [reflexivity|reflexivity]].
  unfold extract_transform in Ex. bind_inv Ex.
  unfold targets_of in E0. bind_inv E0.
  apply for_each_length in E0. apply for_each_length in Ex.
  apply fetch_pokemon_details_length in E1.
  eexists _, _, batch. repeat split; eauto.
  f_equal. lia.
Qed.


End ScopeFacts.

(** Scenario A: both detail fetches succeed at the first attempt. *)
Example scenario_a :
  (run_etl Samples.no_repr Config.defaults Samples.two_pokemon (fun _ => 0)
     empty_store 2 0).2 = Ok (2, 2).
Proof. vm_compute. reflexivity. Qed.

(* ===================================================================== *)
(** ** Rejected payloads *)
(* ===================================================================== *)

Create HintDb malformed.

Lemma getitem_err v k e : getitem v k = Err e -> Spec.malformed e.
Proof.
  destruct v; simpl; try (by intros [= <-]).
  destruct (assoc k o); [done|by intros [= <-]].
Qed.

Lemma get_err v k d e : get v k d = Err e -> Spec.malformed e.
Proof. destruct v; simpl; try done; by intros [= <-]. Qed.

Lemma iter_err v e : iter v = Err e -> Spec.malformed e.
Proof. destruct v; simpl; try done; by intros [= <-]. Qed.

Lemma int_of_str_err s e : int_of_str s = Err e -> Spec.malformed e.
Proof.
  unfold int_of_str.
  match goal with |- match ?x with _ => _ end = _ -> _ => destruct x end;
    [done|by intros [= <-]].
Qed.

Lemma py_int_err v e : py_int v = Err e -> Spec.malformed e.
Proof.
  destruct v as [| | |f| | |]; simpl; try done; try (by intros [= <-]).
  - destruct f; simpl; try done; by intros [= <-].
  - apply int_of_str_err.
Qed.

Lemma of_int_err n e : PyFloat.of_int n = Err e -> Spec.malformed e.
Proof.
  unfold PyFloat.of_int. destruct (binary_normalize _ _ _ _ _); try done.
  by intros [= <-].
Qed.

Lemma to_kg_err w e : _to_kg w = Err e -> Spec.malformed e.
Proof.
  unfold _to_kg, PyFloat.int_div. destruct (PyFloat.of_int w) eqn:E; simpl; [done|].
  intros [= <-]. by apply of_int_err in E.
Qed.

Lemma bmi_err h w e : _bmi h w = Err e -> Spec.malformed e.
Proof.
  rewrite bmi_never_divides_by_zero. destruct (PyFloat.of_int h) eqn:E; simpl; [done|].
  intros [= <-]. by apply of_int_err in E.
Qed.

Lemma split_last_item c s : exists seg, last_item (split c s) = Ok seg.
Proof.
  unfold last_item. pose proof (split_nonempty c s) as Hne.
  destruct (last (split c s)) as [seg|] eqn:E; [by exists seg|].
  apply last_None in E. done.
Qed.

Lemma id_of_ref_err v e : id_of_ref v = Err e -> Spec.malformed e.
Proof.
  destruct v; simpl; try (by intros [= <-]).
  unfold _id_from_url. destruct (split_last_item "/" (rstrip "/" s)) as [seg ->].
  apply int_of_str_err.
Qed.

Lemma for_each_err {A B} (f : A -> result B) l e :
  for_each f l = Err e -> exists x, x ∈ l /\ f x = Err e.
Proof.
  induction l as [|x l IH]; simpl; [done|].
  destruct (f x) eqn:Ex; simpl.
  - destruct (for_each f l); simpl; [done|]. intros [= <-].
    destruct IH as (y & Hy & Hfy); [done|]. exists y. split; [by right|done].
  - intros [= <-]. exists x. split; [by left|done].
Qed.

Lemma for_each_ok {A B} (f : A -> result B) l ys x :
  for_each f l = Ok ys -> x ∈ l -> is_ok (f x) = true.
Proof.
  intros Hok Hin. destruct (is_ok (f x)) eqn:E; [done|].
  pose proof (for_each_fails f l x Hin E) as Hf. by rewrite Hok in Hf.
Qed.

#[local] Hint Resolve getitem_err get_err iter_err py_int_err to_kg_err bmi_err
  id_of_ref_err : malformed.

(** Inversion of a chain of statements that ends in an exception. *)
Ltac err_inv H :=
  lazymatch type of H with
  | (?m ≫= _) = Err _ =>
      let E := fresh "E" in
      destruct m eqn:E; simpl in H; [err_inv H|injection H as <-; err_inv E]
  | Ok _ = Err _ => discriminate H
  | _ => eauto with malformed
  end.

Section Rejection.
Variable py_repr : json -> string.

Lemma type_entry_err t e : type_entry t = Err e -> Spec.malformed e.
Proof. unfold type_entry. intros H. err_inv H. Qed.

Lemma ability_entry_err a e : ability_entry a = Err e -> Spec.malformed e.
Proof. unfold ability_entry. intros H. err_inv H. Qed.

Lemma stat_entry_err t e : stat_entry t = Err e -> Spec.malformed e.
Proof. unfold stat_entry. intros H. err_inv H. Qed.

Lemma for_each_malformed {A B} (f : A -> result B) l e :
  (forall x e, f x = Err e -> Spec.malformed e) ->
  for_each f l = Err e -> Spec.malformed e.
Proof. intros Hf H. apply for_each_err in H as (x & _ & Hx). eauto. Qed.

(** Whatever [transform_one] raises is a [KeyError], a [TypeError], a
    [ValueError], an [AttributeError] or an [OverflowError]. *)
Lemma transform_one_err payload e :
  transform_one py_repr payload = Err e -> Spec.malformed e.
Proof.
  unfold transform_one. intros H.
  pose proof type_entry_err. pose proof ability_entry_err. pose proof stat_entry_err.
  err_inv H; eauto using for_each_malformed.
Qed.

(** What an accepted payload contained. *)
Lemma transform_one_fields payload r :
  transform_one py_repr payload = Ok r ->
  (forall k, k ∈ Spec.required_fields -> is_ok (getitem payload k) = true)
  /\ (exists l ts, get payload "types" (JArr []) = Ok l /\ iter l = Ok ts
        /\ for_each type_entry ts = Ok (TPokemon.types r))
  /\ (exists l xs, get payload "abilities" (JArr []) = Ok l /\ iter l = Ok xs
        /\ for_each ability_entry xs = Ok (TPokemon.abilities r))
  /\ (exists l ss, get payload "stats" (JArr []) = Ok l /\ iter l = Ok ss
        /\ for_each stat_entry ss = Ok (TPokemon.stats r)).
Proof.
  unfold transform_one. intros H.
  bind_inv H. inversion H; subst; clear H. simpl.
  repeat match goal with
         | E : _ ≫= _ = Ok _ |- _ => bind_inv E
         | E : Ok _ = Ok _ |- _ => inversion E; subst; clear E
         end.
  split.
  - intros k Hk. unfold Spec.required_fields in Hk.
    repeat (apply elem_of_cons in Hk as [->|Hk];
            [match goal with E : getitem payload _ = Ok _ |- _ => by rewrite E end|]).
    by apply elem_of_nil in Hk.
  - repeat split; eexists _, _; eauto.
Qed.

Ltac ok_inv H :=
  bind_inv H;
  repeat match goal with
         | E : _ ≫= _ = Ok _ |- _ => bind_inv E
         end.

Lemma type_entry_fields t x f :
  type_entry t = Ok x -> f ∈ ["type"; "slot"] -> is_ok (getitem t f) = true.
Proof.
  unfold type_entry. intros H Hf. ok_inv H.
  repeat (apply elem_of_cons in Hf as [->|Hf];
          [match goal with E : getitem t _ = Ok _ |- _ => by rewrite E end|]).
  by apply elem_of_nil in Hf.
Qed.

Lemma ability_entry_fields t x f :
  ability_entry t = Ok x -> f ∈ ["ability"; "is_hidden"; "slot"] ->
  is_ok (getitem t f) = true.
Proof.
  unfold ability_entry. intros H Hf. ok_inv H.
  repeat (apply elem_of_cons in Hf as [->|Hf];
          [match goal with E : getitem t _ = Ok _ |- _ => by rewrite E end|]).
  by apply elem_of_nil in Hf.
Qed.

Lemma stat_entry_fields t x f :
  stat_entry t = Ok x -> f ∈ ["stat"; "base_stat"; "effort"] ->
  is_ok (getitem t f) = true.
Proof.
  unfold stat_entry. intros H Hf. ok_inv H.
  repeat (apply elem_of_cons in Hf as [->|Hf];
          [match goal with E : getitem t _ = Ok _ |- _ => by rewrite E end|]).
  by apply elem_of_nil in Hf.
Qed.

Lemma is_ok_true {A} (r : result A) : is_ok r = true -> exists a, r = Ok a.
Proof. destruct r as [a|e]; [by exists a|done]. Qed.

(** An accepted payload has every field of every entry. *)
Lemma transform_one_entries o r kind fields f l entries t :
  transform_one py_repr (JObj o) = Ok r ->
  (kind, fields) ∈ Spec.entry_fields -> f ∈ fields ->
  assoc kind o = Some l -> iter l = Ok entries -> t ∈ entries ->
  is_ok (getitem t f) = true.
Proof.
  intros Hr Hk Hf Hl Hi Ht.
  destruct (transform_one_fields _ _ Hr)
    as (_ & (l1 & ts & Hg1 & Hi1 & Hf1) & (l2 & xs & Hg2 & Hi2 & Hf2)
        & (l3 & ss & Hg3 & Hi3 & Hf3)).
  unfold Spec.entry_fields in Hk. simpl in Hg1, Hg2, Hg3.
  repeat (apply elem_of_cons in Hk as [[= -> ->]|Hk]); [| | |by apply elem_of_nil in Hk].
  - rewrite Hl in Hg1. simpl in Hg1. injection Hg1 as <-.
    rewrite Hi in Hi1. injection Hi1 as <-.
    destruct (is_ok_true _ (for_each_ok _ _ _ t Hf1 Ht)) as [x Hx].
    by apply (type_entry_fields t x).
  - rewrite Hl in Hg2. simpl in Hg2. injection Hg2 as <-.
    rewrite Hi in Hi2. injection Hi2 as <-.
    destruct (is_ok_true _ (for_each_ok _ _ _ t Hf2 Ht)) as [x Hx].
    by apply (ability_entry_fields t x).
  - rewrite Hl in Hg3. simpl in Hg3. injection Hg3 as <-.
    rewrite Hi in Hi3. injection Hi3 as <-.
    destruct (is_ok_true _ (for_each_ok _ _ _ t Hf3 Ht)) as [x Hx].
    by apply (stat_entry_fields t x).
Qed.

(** Absent optional fields are defaulted. *)
Lemma optional_fields_default o r :
  transform_one py_repr (JObj o) = Ok r ->
  (assoc "types" o = None -> TPokemon.types r = [])
  /\ (assoc "abilities" o = None -> TPokemon.abilities r = [])
  /\ (assoc "stats" o = None -> TPokemon.stats r = [])
  /\ (assoc "base_experience" o = None -> TPokemon.base_experience r = JNull)
  /\ (assoc "sprites" o = None -> TPokemon.sprite_url r = JNull).
Proof.
  unfold transform_one. intros H.
  bind_inv H. inversion H; subst; clear H. simpl.
  repeat match goal with
         | E : _ ≫= _ = Ok _ |- _ => bind_inv E
         | E : Ok _ = Ok _ |- _ => inversion E; subst; clear E
         end.
  simpl in *.
  repeat split; intros Hn; rewrite Hn in *; simpl in *;
    repeat match goal with
           | E : Ok _ = Ok _ |- _ => inversion E; subst; clear E
           end; simpl in *;
    repeat match goal with
           | E : Ok _ = Ok _ |- _ => inversion E; subst; clear E
           end; reflexivity.
Qed.

(** A rejected payload ends the run: nothing fetches it again, nothing
    is loaded. *)
Lemma rejected_payload_aborts_run cfg net clock s limit offset listing targets details p :
  fetch_pokemon_list cfg net limit offset = Ok listing ->
  targets_of listing = Ok targets ->
  fetch_pokemon_details cfg net targets = Ok details ->
  p ∈ details -> is_ok (transform_one py_repr p) = false ->
  exists e, Spec.malformed e
            /\ run_etl py_repr cfg net clock s limit offset = (s, Err e).
Proof.
  intros Hl Ht Hd Hp Hf.
  pose proof (for_each_fails _ _ _ Hp Hf) as Hall.
  destruct (for_each (transform_one py_repr) details) as [rs|e] eqn:E; [done|].
  exists e. split.
  - apply (for_each_malformed _ _ _ transform_one_err E).
  - unfold run_etl, create_schema, extract_transform. rewrite Hl. simpl.
    rewrite Ht. simpl. rewrite Hd. simpl. rewrite E. reflexivity.
Qed.

(** [transform_one] on an object, statement by statement. *)
Lemma transform_one_object o :
  transform_one py_repr (JObj o) =
  match assoc "id" o with
  | None => Err (KeyError "id")
  | Some vid =>
      pid ← py_int vid;
      match assoc "name" o with
      | None => Err (KeyError "name")
      | Some vname =>
          match assoc "height" o with
          | None => Err (KeyError "height")
          | Some vh =>
              h ← py_int vh;
              match assoc "weight" o with
              | None => Err (KeyError "weight")
              | Some vw =>
                  w ← py_int vw;
                  kg ← _to_kg w;
                  b ← _bmi (_to_cm h) kg;
                  sprite ← get (default (JObj []) (assoc "sprites" o)) "front_default" JNull;
                  types ← (ts ← iter (default (JArr []) (assoc "types" o));
                           for_each type_entry ts);
                  abilities ← (xs ← iter (default (JArr []) (assoc "abilities" o));
                               for_each ability_entry xs);
                  stats ← (ss ← iter (default (JArr []) (assoc "stats" o));
                           for_each stat_entry ss);
                  Ok {| TPokemon.id := pid;
                        TPokemon.name := py_str py_repr vname;
                        TPokemon.base_experience :=
                          default JNull (assoc "base_experience" o);
                        TPokemon.height_cm := _to_cm h;
                        TPokemon.weight_kg := kg;
                        TPokemon.bmi := b;
                        TPokemon.sprite_url := sprite;
                        TPokemon.types := types;
                        TPokemon.abilities := abilities;
                        TPokemon.stats := stats |}
              end
          end
      end
  end.
Proof.
  unfold transform_one, getitem, get.
  destruct (assoc "id" o) as [vid|]; [|reflexivity].
  cbn [mbind result_bind]. destruct (py_int vid) as [pid|e]; [|reflexivity].
  cbn [mbind result_bind]. destruct (assoc "name" o) as [vname|]; [|reflexivity].
  cbn [mbind result_bind]. destruct (assoc "height" o) as [vh|]; [|reflexivity].
  cbn [mbind result_bind]. destruct (py_int vh) as [h|e]; [|reflexivity].
  cbn [mbind result_bind]. destruct (assoc "weight" o) as [vw|]; [|reflexivity].
  cbn [mbind result_bind]. destruct (py_int vw) as [w|e]; [|reflexivity].
  cbn [mbind result_bind]. destruct (_to_kg w) as [kg|e]; [|reflexivity].
  cbn [mbind result_bind]. destruct (_bmi (_to_cm h) kg) as [b|e]; [|reflexivity].
  cbn [mbind result_bind]. reflexivity.
Qed.

(** The comprehension stops at the first entry that raises. *)
Lemma for_each_first_err {A B} (f : A -> result B) l1 x l2 ys e :
  for_each f l1 = Ok ys -> f x = Err e -> for_each f (l1 ++ x :: l2) = Err e.
Proof.
  revert ys. induction l1 as [|a l1 IH]; intros ys; simpl.
  - intros _ ->. reflexivity.
  - destruct (f a) as [y|e0]; simpl; [|done].
    destruct (for_each f l1) as [ys'|e0] eqn:E; simpl; [|done].
    intros _ Hx. by rewrite (IH ys' eq_refl Hx).
Qed.

(** When the payload with its lists cut before an entry is accepted, the
    exception of that entry is the one that [transform_one] raises. *)
Ltac through_scalars Hcut :=
  rewrite transform_one_object in Hcut |- *;
  cbn [assoc String.eqb Ascii.eqb Bool.eqb] in Hcut;
  destruct (assoc "id" _) as [?vid|]; [|done];
  destruct (py_int _) as [?pid|?]; [|done];
  cbn [mbind result_bind] in Hcut |- *;
  destruct (assoc "name" _) as [?vname|]; [|done];
  destruct (assoc "height" _) as [?vh|]; [|done];
  destruct (py_int _) as [?h|?]; [|done];
  cbn [mbind result_bind] in Hcut |- *;
  destruct (assoc "weight" _) as [?vw|]; [|done];
  destruct (py_int _) as [?w|?]; [|done];
  cbn [mbind result_bind] in Hcut |- *;
  destruct (_to_kg _) as [?kg|?]; [|done];
  cbn [mbind result_bind] in Hcut |- *;
  destruct (_bmi _ _) as [?b|?]; [|done];
  cbn [mbind result_bind] in Hcut |- *;
  destruct (get _ "front_default" JNull) as [?sp|?]; [|done];
  cbn [mbind result_bind] in Hcut |- *.

Ltac through_list f :=
  match goal with
  | Hcut : context [iter ?l ≫= _] |- context [iter ?l ≫= _] =>
      destruct (iter l) as [?xs|?]; [|done];
      cbn [mbind result_bind] in Hcut |- *
  end;
  match goal with
  | Hcut : context [for_each f ?l] |- context [for_each f ?l] =>
      destruct (for_each f l) as [?ys|?]; [|done];
      cbn [mbind result_bind] in Hcut |- *
  end.

Lemma types_entry_raises o l1 t l2 e r0 :
  assoc "types" o = Some (JArr (l1 ++ t :: l2)) ->
  transform_one py_repr
    (JObj (("types", JArr l1) :: ("abilities", JArr []) :: ("stats", JArr []) :: o))
  = Ok r0 ->
  type_entry t = Err e -> transform_one py_repr (JObj o) = Err e.
Proof.
  intros Hl Hcut He. through_scalars Hcut.
  rewrite Hl. cbn [default from_option id iter mbind result_bind] in Hcut |- *.
  destruct (for_each type_entry l1) as [ys|?] eqn:E1; [|done].
  by rewrite (for_each_first_err _ _ _ _ _ _ E1 He).
Qed.

Lemma abilities_entry_raises o l1 t l2 e r0 :
  assoc "abilities" o = Some (JArr (l1 ++ t :: l2)) ->
  transform_one py_repr (JObj (("abilities", JArr l1) :: ("stats", JArr []) :: o))
  = Ok r0 ->
  ability_entry t = Err e -> transform_one py_repr (JObj o) = Err e.
Proof.
  intros Hl Hcut He. through_scalars Hcut. through_list type_entry.
  rewrite Hl. cbn [default from_option id iter mbind result_bind] in Hcut |- *.
  destruct (for_each ability_entry l1) as [zs|?] eqn:E1; [|done].
  by rewrite (for_each_first_err _ _ _ _ _ _ E1 He).
Qed.

Lemma stats_entry_raises o l1 t l2 e r0 :
  assoc "stats" o = Some (JArr (l1 ++ t :: l2)) ->
  transform_one py_repr (JObj (("stats", JArr l1) :: o)) = Ok r0 ->
  stat_entry t = Err e -> transform_one py_repr (JObj o) = Err e.
Proof.
  intros Hl Hcut He. through_scalars Hcut. through_list type_entry.
  through_list ability_entry.
  rewrite Hl. cbn [default from_option id iter mbind result_bind] in Hcut |- *.
  destruct (for_each stat_entry l1) as [zs|?] eqn:E1; [|done].
  by rewrite (for_each_first_err _ _ _ _ _ _ E1 He).
Qed.

Ltac through_reference H :=
  destruct H as (ref & nm & u & n & Hk & Hnm & Hu & _ & Hid);
  unfold getitem; rewrite Hk; cbn [mbind result_bind];
  rewrite Hnm, Hu; cbn [mbind result_bind id_of_ref]; rewrite Hid;
  cbn [mbind result_bind].

(** The [KeyError] of an entry: that of the first field that it lacks. *)
Lemma type_entry_key_error t :
  (assoc "type" t = None -> type_entry (JObj t) = Err (KeyError "type"))
  /\ (has_reference t "type" -> assoc "slot" t = None ->
      type_entry (JObj t) = Err (KeyError "slot")).
Proof.
  unfold type_entry. split.
  - intros Hn. unfold getitem. by rewrite Hn.
  - intros Hr Hs. through_reference Hr. by rewrite Hs.
Qed.

Lemma ability_entry_key_error t :
  (assoc "ability" t = None -> ability_entry (JObj t) = Err (KeyError "ability"))
  /\ (has_reference t "ability" -> assoc "is_hidden" t = None ->
      ability_entry (JObj t) = Err (KeyError "is_hidden"))
  /\ (has_reference t "ability" -> assoc "is_hidden" t <> None -> assoc "slot" t = None ->
      ability_entry (JObj t) = Err (KeyError "slot")).
Proof.
  unfold ability_entry. split; [|split].
  - intros Hn. unfold getitem. by rewrite Hn.
  - intros Hr Hs. through_reference Hr. by rewrite Hs.
  - intros Hr Hh Hs. through_reference Hr.
    destruct (assoc "is_hidden" t); [|done]. cbn [mbind result_bind]. by rewrite Hs.
Qed.

Lemma stat_entry_key_error t :
  (assoc "stat" t = None -> stat_entry (JObj t) = Err (KeyError "stat"))
  /\ (has_reference t "stat" -> assoc "base_stat" t = None ->
      stat_entry (JObj t) = Err (KeyError "base_stat"))
  /\ (forall base, has_reference t "stat" -> assoc "base_stat" t = Some (JInt base) ->
      assoc "effort" t = None -> stat_entry (JObj t) = Err (KeyError "effort")).
Proof.
  unfold stat_entry. split; [|split].
  - intros Hn. unfold getitem. by rewrite Hn.
  - intros Hr Hs. through_reference Hr. by rewrite Hs.
  - intros base Hr Hb Hs. through_reference Hr. rewrite Hb.
    cbn [mbind result_bind py_int]. by rewrite Hs.
Qed.

(** C8 (as amended).  A payload that lacks [id], [name], [height] or
    [weight], or one of whose [types], [abilities] or [stats] entries
    lacks a field, is rejected: [transform_one] raises a [KeyError], a
    [TypeError], a [ValueError], an [AttributeError] or an
    [OverflowError] and builds no record, and that exception ends the run
    with the store as it was.  The exception is the [KeyError] of the
    missing field where the fields read before it are well formed: for the
    first of the four scalar fields that is missing, when [id] and
    [height] are integers; for an entry, when the payload with its lists
    cut before that entry is accepted (the items put in front of [o]
    replace those of [o]), for the first field that the entry lacks, its
    reference and [base_stat] being well formed.  [types],
    [abilities], [stats], [base_experience] and [sprites] themselves may
    be absent: an accepted payload has an empty list or a null in their
    place, and a payload with none of them is accepted when [id], [height]
    and [weight] are integers of ordinary size. *)
Theorem missing_field_aborts o :
  (forall k, k ∈ Spec.required_fields -> assoc k o = None ->
     exists e, transform_one py_repr (JObj o) = Err e /\ Spec.malformed e)
  /\ (forall kind fields f l entries t,
        (kind, fields) ∈ Spec.entry_fields -> f ∈ fields ->
        assoc kind o = Some l -> iter l = Ok entries -> t ∈ entries ->
        is_ok (getitem t f) = false ->
        exists e, transform_one py_repr (JObj o) = Err e /\ Spec.malformed e)
  /\ (forall cfg net clock s limit offset listing targets details,
        fetch_pokemon_list cfg net limit offset = Ok listing ->
        targets_of listing = Ok targets ->
        fetch_pokemon_details cfg net targets = Ok details ->
        JObj o ∈ details -> is_ok (transform_one py_repr (JObj o)) = false ->
        exists e, Spec.malformed e
                  /\ run_etl py_repr cfg net clock s limit offset = (s, Err e))
  /\ ((assoc "id" o = None ->
       transform_one py_repr (JObj o) = Err (KeyError "id"))
      /\ (forall pid, assoc "id" o = Some (JInt pid) -> assoc "name" o = None ->
            transform_one py_repr (JObj o) = Err (KeyError "name"))
      /\ (forall pid, assoc "id" o = Some (JInt pid) -> assoc "name" o <> None ->
            assoc "height" o = None ->
            transform_one py_repr (JObj o) = Err (KeyError "height"))
      /\ (forall pid h, assoc "id" o = Some (JInt pid) -> assoc "name" o <> None ->
            assoc "height" o = Some (JInt h) -> assoc "weight" o = None ->
            transform_one py_repr (JObj o) = Err (KeyError "weight")))
  /\ (forall l1 t l2 r0,
        assoc "types" o = Some (JArr (l1 ++ JObj t :: l2)) ->
        transform_one py_repr
          (JObj (("types", JArr l1) :: ("abilities", JArr [])
                 :: ("stats", JArr []) :: o)) = Ok r0 ->
        (assoc "type" t = None ->
         transform_one py_repr (JObj o) = Err (KeyError "type"))
        /\ (has_reference t "type" -> assoc "slot" t = None ->
            transform_one py_repr (JObj o) = Err (KeyError "slot")))
  /\ (forall l1 t l2 r0,
        assoc "abilities" o = Some (JArr (l1 ++ JObj t :: l2)) ->
        transform_one py_repr
          (JObj (("abilities", JArr l1) :: ("stats", JArr []) :: o)) = Ok r0 ->
        (assoc "ability" t = None ->
         transform_one py_repr (JObj o) = Err (KeyError "ability"))
        /\ (has_reference t "ability" -> assoc "is_hidden" t = None ->
            transform_one py_repr (JObj o) = Err (KeyError "is_hidden"))
        /\ (has_reference t "ability" -> assoc "is_hidden" t <> None ->
            assoc "slot" t = None ->
            transform_one py_repr (JObj o) = Err (KeyError "slot")))
  /\ (forall l1 t l2 r0,
        assoc "stats" o = Some (JArr (l1 ++ JObj t :: l2)) ->
        transform_one py_repr (JObj (("stats", JArr l1) :: o)) = Ok r0 ->
        (assoc "stat" t = None ->
         transform_one py_repr (JObj o) = Err (KeyError "stat"))
        /\ (has_reference t "stat" -> assoc "base_stat" t = None ->
            transform_one py_repr (JObj o) = Err (KeyError "base_stat"))
        /\ (forall base, has_reference t "stat" ->
            assoc "base_stat" t = Some (JInt base) -> assoc "effort" t = None ->
            transform_one py_repr (JObj o) = Err (KeyError "effort")))
  /\ (forall r, transform_one py_repr (JObj o) = Ok r ->
        (assoc "types" o = None -> TPokemon.types r = [])
        /\ (assoc "abilities" o = None -> TPokemon.abilities r = [])
        /\ (assoc "stats" o = None -> TPokemon.stats r = [])
        /\ (assoc "base_experience" o = None -> TPokemon.base_experience r = JNull)
        /\ (assoc "sprites" o = None -> TPokemon.sprite_url r = JNull))
  /\ (forall pid vname h w,
        assoc "id" o = Some (JInt pid) -> assoc "name" o = Some vname ->
        assoc "height" o = Some (JInt h) -> assoc "weight" o = Some (JInt w) ->
        Z.abs (h * 10) < 2 ^ 1023 -> Z.abs w < 2 ^ 1023 ->
        assoc "types" o = None -> assoc "abilities" o = None ->
        assoc "stats" o = None -> assoc "base_experience" o = None ->
        assoc "sprites" o = None ->
        exists kg b,
          _to_kg w = Ok kg /\ _bmi (h * 10) kg = Ok b
          /\ transform_one py_repr (JObj o)
             = Ok {| TPokemon.id := pid; TPokemon.name := py_str py_repr vname;
                     TPokemon.base_experience := JNull; TPokemon.height_cm := h * 10;
                     TPokemon.weight_kg := kg; TPokemon.bmi := b;
                     TPokemon.sprite_url := JNull; TPokemon.types := [];
                     TPokemon.abilities := []; TPokemon.stats := [] |}).
Proof.
  split; [|split; [|split; [|split; [|split; [|split; [|split; [|split]]]]]]].
  - intros k Hk Hnone.
    destruct (transform_one py_repr (JObj o)) as [r|e] eqn:E.
    + destruct (transform_one_fields _ _ E) as [Hreq _].
      specialize (Hreq k Hk). simpl in Hreq. by rewrite Hnone in Hreq.
    + exists e. split; [reflexivity|by apply (transform_one_err (JObj o))].
  - intros kind fields f l entries t Hk Hf Hl Hi Ht Hmiss.
    destruct (transform_one py_repr (JObj o)) as [r|e] eqn:E.
    + pose proof (transform_one_entries o r kind fields f l entries t E Hk Hf Hl Hi Ht).
      congruence.
    + exists e. split; [reflexivity|by apply (transform_one_err (JObj o))].
  - intros cfg net clock s limit offset listing targets details Hl Ht Hd Hp Hf.
    by apply (rejected_payload_aborts_run cfg net clock s limit offset listing targets
                details (JObj o)).
  - rewrite transform_one_object. repeat split.
    + by intros ->.
    + by intros pid -> ->.
    + intros pid -> Hn ->. cbn [py_int mbind result_bind]. by destruct (assoc "name" o).
    + intros pid h -> Hn -> ->. cbn [py_int mbind result_bind].
      by destruct (assoc "name" o).
  - intros l1 t l2 r0 Hl Hcut.
    pose proof (types_entry_raises o l1 (JObj t) l2) as Hup.
    destruct (type_entry_key_error t) as (H1 & H2).
    split; [intros Hn|intros Hr Hn]; eapply Hup; eauto.
  - intros l1 t l2 r0 Hl Hcut.
    pose proof (abilities_entry_raises o l1 (JObj t) l2) as Hup.
    destruct (ability_entry_key_error t) as (H1 & H2 & H3).
    split; [intros Hn|split; [intros Hr Hn|intros Hr Hh Hn]]; eapply Hup; eauto.
  - intros l1 t l2 r0 Hl Hcut.
    pose proof (stats_entry_raises o l1 (JObj t) l2) as Hup.
    destruct (stat_entry_key_error t) as (H1 & H2 & H3).
    split; [intros Hn|split; [intros Hr Hn|intros base Hr Hb Hn]]; eapply Hup; eauto.
  - intros r Hr. by apply optional_fields_default.
  - intros pid vname h w Hid Hname Hh Hw Hsh Hsw Ht Ha Hs Hb Hsp.
    destruct (transform_one_sized py_repr pid EmptyString h w Hsh Hsw)
      as (kg & b & Hkg & Hbmi & _).
    exists kg, b. split; [exact Hkg|]. split; [exact Hbmi|].
    rewrite transform_one_object, Hid, Hname, Hh, Hw, Ht, Ha, Hs, Hb, Hsp.
    cbn [py_int mbind result_bind default from_option id]. rewrite Hkg.
    cbn [mbind result_bind].
    unfold _to_cm. rewrite Hbmi. reflexivity.
Qed.

End Rejection.

Lemma missing_field_aborts_witness :
  transform_one Samples.no_repr
    (JObj [("id", JInt 1); ("name", JStr "bulbasaur"); ("height", JInt 7)])
  = Err (KeyError "weight").
Proof.
  destruct (missing_field_aborts Samples.no_repr
              [("id", JInt 1); ("name", JStr "bulbasaur"); ("height", JInt 7)])
    as (_ & _ & _ & (_ & _ & _ & Hw) & _).
  apply (Hw 1 7); done.
Defined.

(** C8 as stated fails on the list fields: a payload without [types],
    [abilities] and [stats] is accepted, with empty lists. *)
Lemma payload_without_types_accepted :
  assoc "types" [("id", JInt 1); ("name", JStr "bulbasaur");
                 ("height", JInt 7); ("weight", JInt 69)] = None
  /\ exists r, transform_one Samples.no_repr (Samples.sized_payload 1 "bulbasaur" 7 69) = Ok r
       /\ TPokemon.types r = [] /\ TPokemon.abilities r = [] /\ TPokemon.stats r = [].
Proof. split; [reflexivity|]. eexists. split; [vm_compute; reflexivity|]. by repeat split. Qed.

(* ===================================================================== *)
(** ** The admission control of the detail fetches *)
(* ===================================================================== *)

Section GatherFacts.
Import Gather.

Lemma fetching_cons p l :
  fetching (p :: l) = (if decide (p = Fetching) then 1 else 0) + fetching l.
Proof.
  unfold fetching. rewrite filter_cons. destruct (decide (p = Fetching)); simpl; lia.
Qed.

(** Changing the phase of one task changes the count by that task. *)
Lemma fetching_insert l i p q :
  l !! i = Some p ->
  fetching (<[i := q]> l) =
  fetching l - (if decide (p = Fetching) then 1 else 0)
             + (if decide (q = Fetching) then 1 else 0).
Proof.
  revert i. induction l as [|x l IH]; intros i Hi; [done|].
  destruct i as [|i]; simpl in *.
  - injection Hi as ->. rewrite !fetching_cons. lia.
  - rewrite !fetching_cons, (IH i Hi). lia.
Qed.

Lemma fetching_replicate n : fetching (replicate n Waiting) = 0.
Proof.
  induction n as [|n IH]; [reflexivity|]. simpl. rewrite fetching_cons, IH.
  destruct (decide (Waiting = Fetching)); [done|lia].
Qed.

Variable cfg : Config.t.

Lemma start_balanced n : balanced cfg (start cfg n).
Proof.
  unfold balanced, start, in_flight.
  destruct (Z.ltb_spec (MAX_CONCURRENCY cfg) 0); simpl.
  - change (fetching []) with 0. lia.
  - rewrite fetching_replicate. lia.
Qed.

Lemma step_balanced a st st' : balanced cfg st -> step a st = Some st' -> balanced cfg st'.
Proof.
  unfold balanced, in_flight.
  intros [Hp Hsum] Hstep. destruct a as [i|i|i]; simpl in Hstep.
  - destruct (tasks st !! i) as [[| |]|] eqn:Ei; try done.
    destruct (Z.ltb_spec 0 (permits st)); [|done].
    injection Hstep as <-. simpl.
    rewrite (fetching_insert _ _ _ _ Ei). simpl. lia.
  - destruct (tasks st !! i) as [[| |]|] eqn:Ei; try done.
    injection Hstep as <-. simpl.
    rewrite (fetching_insert _ _ _ _ Ei). simpl. lia.
  - destruct (tasks st !! i) as [[| |]|] eqn:Ei; try done.
    injection Hstep as <-. simpl.
    rewrite (fetching_insert _ _ _ _ Ei). simpl. lia.
Qed.

Lemma run_balanced sched st st' :
  balanced cfg st -> run sched st = Some st' -> balanced cfg st'.
Proof.
  revert st. induction sched as [|a sched IH]; intros st Hb; simpl.
  - by intros [= <-].
  - destruct (step a st) as [st1|] eqn:Es; [|done].
    apply IH. by apply (step_balanced a st).
Qed.

(** C9.  In every state that the tasks of [fetch_pokemon_details] can
    reach, at most [MAX_CONCURRENCY] detail fetches are in flight; when
    that many are, no further task is let in; and once a task has left, a
    waiting task can enter. *)
Theorem semaphore_bounds_in_flight n sched st :
  run sched (start cfg n) = Some st ->
  in_flight st <= Z.max 0 (MAX_CONCURRENCY cfg)
  /\ (0 <= MAX_CONCURRENCY cfg -> in_flight st <= MAX_CONCURRENCY cfg)
  /\ (in_flight st = Z.max 0 (MAX_CONCURRENCY cfg) -> forall i, step (Enter i) st = None)
  /\ (forall i j st', step (Leave i) st = Some st' ->
        tasks st' !! j = Some Waiting -> is_Some (step (Enter j) st')).
Proof.
  intros Hrun. destruct (run_balanced _ _ _ (start_balanced n) Hrun) as [Hp Hsum].
  split; [lia|]. split; [lia|]. split.
  - intros Hfull i. simpl. destruct (tasks st !! i) as [[| |]|]; try done.
    destruct (Z.ltb_spec 0 (permits st)); [lia|done].
  - intros i j st' Hleave Hj. simpl in Hleave.
    destruct (tasks st !! i) as [[| |]|]; try done. injection Hleave as <-.
    simpl in *. rewrite Hj. destruct (Z.ltb_spec 0 (permits st + 1)); [done|lia].
Qed.

End GatherFacts.

Lemma semaphore_bounds_in_flight_witness :
  let cfg := {| POKEAPI_BASE := "https://pokeapi.co/api/v2";
                HTTP_TIMEOUT_SECONDS := PyFloat.lit_10;
                MAX_CONCURRENCY := 2; MAX_RETRIES := 3 |} in
  let sched := [Gather.Enter 0; Gather.Enter 2; Gather.Leave 0; Gather.Enter 1] in
  exists st, Gather.run sched (Gather.start cfg 3) = Some st
    /\ Gather.in_flight st = 2
    /\ Gather.in_flight st <= Z.max 0 (MAX_CONCURRENCY cfg)
    /\ (0 <= MAX_CONCURRENCY cfg -> Gather.in_flight st <= MAX_CONCURRENCY cfg)
    /\ (Gather.in_flight st = Z.max 0 (MAX_CONCURRENCY cfg) ->
        forall i, Gather.step (Gather.Enter i) st = None)
    /\ (forall i j st', Gather.step (Gather.Leave i) st = Some st' ->
          Gather.tasks st' !! j = Some Gather.Waiting ->
          is_Some (Gather.step (Gather.Enter j) st')).
Proof.
  intros cfg sched. eexists. split; [reflexivity|]. split; [reflexivity|].
  apply (semaphore_bounds_in_flight cfg 3 sched). reflexivity.
Defined.

(* ===================================================================== *)
(** ** The unit of work: a second load changes nothing *)
(* ===================================================================== *)

Section WorkFacts.
Context {K G R : Type} `{Countable K} `{EqDecision R} `{!Mapped K G R}.
Implicit Types (t : gmap K R) (ops : list (K * G)) (u : work K G R).

Lemma latest_snoc k ops k' g :
  latest k (ops ++ [(k', g)]) = if decide (k' = k) then Some g else latest k ops.
Proof.
  induction ops as [|x ops IH]; simpl.
  - reflexivity.
  - rewrite IH. destruct (decide (k' = k)); reflexivity.
Qed.

Lemma latest_elem k ops g : latest k ops = Some g -> (k, g) ∈ ops.
Proof.
  induction ops as [|[k' g'] ops IH]; simpl; [done|].
  destruct (latest k ops) as [g0|].
  - intros [= ->]. right. by apply IH.
  - destruct (decide (k' = k)) as [->|]; [|done]. intros [= ->]. by left.
Qed.

Lemma latest_is_Some k g ops : (k, g) ∈ ops -> is_Some (latest k ops).
Proof.
  induction ops as [|[k' g'] ops IH]; intros Hin; [by apply elem_of_nil in Hin|].
  simpl. apply elem_of_cons in Hin as [[= <- <-]|Hin].
  - destruct (latest k ops); [done|]. by rewrite decide_True.
  - destruct (IH Hin) as [g0 ->]. done.
Qed.

Lemma filter_free_snoc t0 ops k g :
  filter (fun kg => t0 !! kg.1 = None) (ops ++ [(k, g)])%list
  = (filter (fun kg => t0 !! kg.1 = None) ops
       ++ match t0 !! k with None => [(k, g)] | Some _ => [] end)%list.
Proof.
  rewrite filter_app. f_equal. rewrite filter_cons, filter_nil.
  destruct (decide _) as [Hd|Hd]; simpl in Hd; destruct (t0 !! k); done.
Qed.

(** The objects of a session after the merges [ops] on the table [t0]:
    the keys found in the table are loaded and carry the attributes merged
    last; the others are pending, one object per merge. *)
Lemma merge_all_spec t0 ops :
  (forall k, persistent (merge_all t0 ops no_work) !! k =
             match latest k ops, t0 !! k with
             | Some g, Some r0 => Some (persist g r0)
             | _, _ => None
             end)
  /\ pending (merge_all t0 ops no_work) = filter (fun kg => t0 !! kg.1 = None) ops.
Proof.
  induction ops as [|[k' g'] ops [IHp IHq]] using rev_ind.
  - split; [intros k; apply lookup_empty|reflexivity].
  - unfold merge_all in *. rewrite foldl_snoc. simpl.
    set (u := foldl _ no_work ops) in *. unfold merge_work.
    rewrite filter_free_snoc.
    pose proof (IHp k') as Hk'.
    destruct (persistent u !! k') as [r|] eqn:Ep.
    + destruct (latest k' ops) as [g0|]; [|done].
      destruct (t0 !! k') as [r0|] eqn:Et; [|done]. injection Hk' as ->.
      simpl. split.
      * intros k. rewrite latest_snoc. destruct (decide (k' = k)) as [<-|Hne].
        -- rewrite lookup_insert_eq, Et. by rewrite persist_persist.
        -- rewrite lookup_insert_ne by done. apply IHp.
      * by rewrite app_nil_r.
    + destruct (t0 !! k') as [r0|] eqn:Et; simpl.
      * split.
        -- intros k. rewrite latest_snoc. destruct (decide (k' = k)) as [<-|Hne].
           ++ by rewrite lookup_insert_eq, Et.
           ++ rewrite lookup_insert_ne by done. apply IHp.
        -- by rewrite app_nil_r.
      * split.
        -- intros k. rewrite latest_snoc. destruct (decide (k' = k)) as [<-|Hne].
           ++ by rewrite Ep, Et.
           ++ apply IHp.
        -- by rewrite IHq.
Qed.

(** The UPDATEs of a flush leave each loaded row as the session has it. *)
Lemma exec_updates_result ok (l : list (K * R)) t t' :
  NoDup l.*1 ->
  exec_all (update_stmt ok) l t = (t', None) ->
  (forall k r, (k, r) ∈ l -> t' !! k = Some r)
  /\ (forall k, k ∉ l.*1 -> t' !! k = t !! k).
Proof.
  revert t. induction l as [|[k0 r0] l IH]; intros t Hnd; simpl.
  - intros [= <-]. split; [intros k r Hin; by apply elem_of_nil in Hin|done].
  - apply NoDup_cons in Hnd as [Hk0 Hnd].
    destruct (update_stmt ok (k0, r0) t) as [t1 [e|]] eqn:E1; [done|].
    intros Hrest. destruct (IH t1 Hnd Hrest) as [IHin IHout].
    assert (t1 !! k0 = Some r0 /\ forall k, k <> k0 -> t1 !! k = t !! k) as [H0 Hoth].
    { unfold update_stmt in E1. simpl in E1.
      destruct (decide (t !! k0 = Some r0)) as [Heq|Hne].
      - injection E1 as <-. done.
      - destruct (ok k0 r0 (delete k0 t)); [|done]. injection E1 as <-.
        split; [apply lookup_insert_eq|]. intros k Hk. by rewrite lookup_insert_ne. }
    split.
    + intros k r Hin. apply elem_of_cons in Hin as [[= -> ->]|Hin].
      * by rewrite IHout.
      * by apply IHin.
    + intros k Hk. apply not_elem_of_cons in Hk as [Hk Hk'].
      rewrite IHout by done. by apply Hoth.
Qed.

(** When the table already holds every loaded row, no UPDATE is emitted. *)
Lemma exec_updates_noop ok (l : list (K * R)) t :
  (forall k r, (k, r) ∈ l -> t !! k = Some r) ->
  exec_all (update_stmt ok) l t = (t, None).
Proof.
  induction l as [|[k0 r0] l IH]; intros Hall; simpl; [reflexivity|].
  unfold update_stmt. simpl. rewrite decide_True by (apply Hall; by left).
  apply IH. intros k r Hin. apply Hall. by right.
Qed.

(** The INSERTs of a flush that succeeds create one row per pending
    object, on keys that were free. *)
Lemma exec_inserts_result ok clock (l : list (K * G)) t t' :
  exec_all (insert_stmt ok clock) l t = (t', None) ->
  (forall k g, (k, g) ∈ l -> t' !! k = Some (fresh (clock k) g))
  /\ (forall k, k ∉ l.*1 -> t' !! k = t !! k)
  /\ (forall k, k ∈ l.*1 -> t !! k = None).
Proof.
  revert t. induction l as [|[k0 g0] l IH]; intros t; simpl.
  - intros [= <-]. split; [intros k g Hin; by apply elem_of_nil in Hin|].
    split; [done|]. intros k Hin. by apply elem_of_nil in Hin.
  - destruct (insert_stmt ok clock (k0, g0) t) as [t1 [e|]] eqn:E1; [done|].
    intros Hrest. destruct (IH t1 Hrest) as (IHin & IHout & IHfree).
    unfold insert_stmt in E1. simpl in E1.
    destruct (t !! k0) eqn:Et; [done|].
    destruct (ok k0 _ t); [|done]. injection E1 as <-.
    assert (k0 ∉ l.*1) as Hk0.
    { intros Hin. specialize (IHfree k0 Hin). by rewrite lookup_insert_eq in IHfree. }
    split; [|split].
    + intros k g Hin. apply elem_of_cons in Hin as [[= -> ->]|Hin].
      * rewrite IHout by done. apply lookup_insert_eq.
      * by apply IHin.
    + intros k Hk. apply not_elem_of_cons in Hk as [Hk Hk'].
      rewrite IHout by done. by rewrite lookup_insert_ne.
    + intros k Hk. apply elem_of_cons in Hk as [->|Hk]; [done|].
      specialize (IHfree k Hk). destruct (decide (k0 = k)) as [->|Hne].
      * by rewrite lookup_insert_eq in IHfree.
      * by rewrite lookup_insert_ne in IHfree.
Qed.

Lemma sorted_rows_elem (m : gmap K R) k r :
  (k, r) ∈ merge_sort by_key (map_to_list m) <-> m !! k = Some r.
Proof. rewrite merge_sort_Permutation. apply elem_of_map_to_list. Qed.

Lemma sorted_rows_NoDup (m : gmap K R) :
  NoDup (merge_sort by_key (map_to_list m)).*1.
Proof. rewrite merge_sort_Permutation. apply NoDup_fst_map_to_list. Qed.

(** After a flush that succeeds, the table holds the outcome of the
    merges. *)
Lemma flush_work_settles ok clock t0 ops t1 :
  flush_work ok clock (merge_all t0 ops no_work) t0 = (t1, None) ->
  settled t1 ops.
Proof.
  unfold flush_work. destruct (merge_all_spec t0 ops) as [Hp Hq].
  set (u := merge_all t0 ops no_work) in *.
  destruct (exec_all (update_stmt ok) _ t0) as [t' [e|]] eqn:Eu; [done|].
  intros Ei.
  destruct (exec_updates_result _ _ _ _ (sorted_rows_NoDup _) Eu) as [Uin Uout].
  destruct (exec_inserts_result _ _ _ _ _ Ei) as (Iin & Iout & Ifree).
  intros k g Hl. destruct (t0 !! k) as [r0|] eqn:Et.
  - exists (persist g r0). split; [|apply persist_persist].
    rewrite Iout.
    + apply Uin, sorted_rows_elem. by rewrite Hp, Hl, Et.
    + rewrite Hq. intros Hin. apply list_elem_of_fmap in Hin as ([k1 g1] & -> & Hin).
      apply list_elem_of_filter in Hin as [Hnone _]. simpl in *. congruence.
  - exists (fresh (clock k) g). split; [|apply persist_fresh].
    apply Iin. rewrite Hq. apply list_elem_of_filter. split; [done|].
    by apply latest_elem.
Qed.

(** On a table that holds the outcome of the merges, the same merges
    load rows, change none, and the flush emits no statement. *)
Lemma flush_work_settled ok clock t ops :
  settled t ops ->
  flush_work ok clock (merge_all t ops no_work) t = (t, None).
Proof.
  intros Hs. unfold flush_work. destruct (merge_all_spec t ops) as [Hp Hq].
  set (u := merge_all t ops no_work) in *.
  assert (pending u = []) as ->.
  { rewrite Hq. clear Hq.
    destruct (filter _ ops) as [|[k g] l] eqn:Ef; [reflexivity|].
    assert ((k, g) ∈ filter (fun kg => t !! kg.1 = None) ops) as Hin
      by (rewrite Ef; by left).
    apply list_elem_of_filter in Hin as [Hnone Hin].
    destruct (latest_is_Some k g ops Hin) as [g' Hg'].
    destruct (Hs k g' Hg') as (r & Hr & _). simpl in *. congruence. }
  rewrite exec_updates_noop; [reflexivity|].
  intros k r Hin. apply sorted_rows_elem in Hin. rewrite Hp in Hin.
  destruct (latest k ops) as [g|] eqn:Hl; [|done].
  destruct (Hs k g Hl) as (r' & Hr' & Hfix). rewrite Hr' in Hin |- *.
  injection Hin as <-. by rewrite Hfix.
Qed.

Lemma flush_work_idempotent ok clock ok' clock' t0 ops t1 :
  flush_work ok clock (merge_all t0 ops no_work) t0 = (t1, None) ->
  flush_work ok' clock' (merge_all t1 ops no_work) t1 = (t1, None).
Proof. intros Hf. eapply flush_work_settled, flush_work_settles, Hf. Qed.

End WorkFacts.

Section LoadFacts.

Lemma merge_all_app {K G R} `{Countable K} `{!Mapped K G R}
    (tbl : gmap K R) (l1 l2 : list (K * G)) u :
  merge_all tbl (l1 ++ l2) u = merge_all tbl l2 (merge_all tbl l1 u).
Proof. apply foldl_app. Qed.

(** Each loop of merges works on the objects of one class. *)
Lemma foldl_merge_Type l ss :
  foldl (fun ss '(tid, name) => merge_Type tid name ss) ss l
  = {| conn := conn ss;
       u_type := merge_all (tbl_type (visible (conn ss))) l (u_type ss);
       u_ability := u_ability ss; u_stat := u_stat ss; u_pokemon := u_pokemon ss;
       u_pokemon_type := u_pokemon_type ss;
       u_pokemon_ability := u_pokemon_ability ss;
       u_pokemon_stat := u_pokemon_stat ss |}.
Proof.
  revert ss. induction l as [|[k v] l IH]; intros ss; simpl; [by destruct ss|].
  by rewrite IH.
Qed.

Lemma foldl_merge_Ability l ss :
  foldl (fun ss '(aid, name) => merge_Ability aid name ss) ss l
  = {| conn := conn ss; u_type := u_type ss;
       u_ability := merge_all (tbl_ability (visible (conn ss))) l (u_ability ss);
       u_stat := u_stat ss; u_pokemon := u_pokemon ss;
       u_pokemon_type := u_pokemon_type ss;
       u_pokemon_ability := u_pokemon_ability ss;
       u_pokemon_stat := u_pokemon_stat ss |}.
Proof.
  revert ss. induction l as [|[k v] l IH]; intros ss; simpl; [by destruct ss|].
  by rewrite IH.
Qed.

Lemma foldl_merge_Stat l ss :
  foldl (fun ss '(sid, name) => merge_Stat sid name ss) ss l
  = {| conn := conn ss; u_type := u_type ss; u_ability := u_ability ss;
       u_stat := merge_all (tbl_stat (visible (conn ss))) l (u_stat ss);
       u_pokemon := u_pokemon ss; u_pokemon_type := u_pokemon_type ss;
       u_pokemon_ability := u_pokemon_ability ss;
       u_pokemon_stat := u_pokemon_stat ss |}.
Proof.
  revert ss. induction l as [|[k v] l IH]; intros ss; simpl; [by destruct ss|].
  by rewrite IH.
Qed.

Lemma foldl_merge_PokemonType pid (l : list (Z * json * Z)) ss :
  foldl (fun ss '(type_id, _, slot) => merge_PokemonType (pid, type_id) slot ss) ss l
  = {| conn := conn ss; u_type := u_type ss; u_ability := u_ability ss;
       u_stat := u_stat ss; u_pokemon := u_pokemon ss;
       u_pokemon_type :=
         merge_all (tbl_pokemon_type (visible (conn ss)))
           (map (fun e => ((pid, e.1.1), e.2)) l) (u_pokemon_type ss);
       u_pokemon_ability := u_pokemon_ability ss;
       u_pokemon_stat := u_pokemon_stat ss |}.
Proof.
  revert ss. induction l as [|[[k v] sl] l IH]; intros ss; simpl; [by destruct ss|].
  by rewrite IH.
Qed.

Lemma foldl_merge_PokemonAbility pid (l : list (Z * json * bool * Z)) ss :
  foldl (fun ss '(ability_id, _, is_hidden, slot) =>
           merge_PokemonAbility (pid, ability_id) (is_hidden, slot) ss) ss l
  = {| conn := conn ss; u_type := u_type ss; u_ability := u_ability ss;
       u_stat := u_stat ss; u_pokemon := u_pokemon ss;
       u_pokemon_type := u_pokemon_type ss;
       u_pokemon_ability :=
         merge_all (tbl_pokemon_ability (visible (conn ss)))
           (map (fun e => ((pid, e.1.1.1), (e.1.2, e.2))) l) (u_pokemon_ability ss);
       u_pokemon_stat := u_pokemon_stat ss |}.
Proof.
  revert ss. induction l as [|[[[k v] h] sl] l IH]; intros ss; simpl; [by destruct ss|].
  by rewrite IH.
Qed.

Lemma foldl_merge_PokemonStat pid (l : list (Z * json * Z * Z)) ss :
  foldl (fun ss '(stat_id, _, base_stat, effort) =>
           merge_PokemonStat (pid, stat_id) (base_stat, effort) ss) ss l
  = {| conn := conn ss; u_type := u_type ss; u_ability := u_ability ss;
       u_stat := u_stat ss; u_pokemon := u_pokemon ss;
       u_pokemon_type := u_pokemon_type ss;
       u_pokemon_ability := u_pokemon_ability ss;
       u_pokemon_stat :=
         merge_all (tbl_pokemon_stat (visible (conn ss)))
           (map (fun e => ((pid, e.1.1.1), (e.1.2, e.2))) l) (u_pokemon_stat ss) |}.
Proof.
  revert ss. induction l as [|[[[k v] b] ef] l IH]; intros ss; simpl; [by destruct ss|].
  by rewrite IH.
Qed.

Lemma foldl_upsert_pokemon batch ss :
  foldl upsert_pokemon ss batch
  = {| conn := conn ss; u_type := u_type ss; u_ability := u_ability ss;
       u_stat := u_stat ss;
       u_pokemon :=
         merge_all (tbl_pokemon (visible (conn ss))) (pokemon_ops batch) (u_pokemon ss);
       u_pokemon_type :=
         merge_all (tbl_pokemon_type (visible (conn ss)))
           (pokemon_type_ops batch) (u_pokemon_type ss);
       u_pokemon_ability :=
         merge_all (tbl_pokemon_ability (visible (conn ss)))
           (pokemon_ability_ops batch) (u_pokemon_ability ss);
       u_pokemon_stat :=
         merge_all (tbl_pokemon_stat (visible (conn ss)))
           (pokemon_stat_ops batch) (u_pokemon_stat ss) |}.
Proof.
  revert ss. induction batch as [|tp batch IH]; intros ss; simpl; [by destruct ss|].
  rewrite IH. unfold upsert_pokemon.
  rewrite foldl_merge_PokemonStat, foldl_merge_PokemonAbility, foldl_merge_PokemonType.
  unfold pokemon_type_ops, pokemon_ability_ops, pokemon_stat_ops. simpl.
  by rewrite !merge_all_app.
Qed.

(** The session after [load_batch]: every class has gone through its
    list of merges. *)
Lemma load_batch_session d batch :
  (load_batch (on_connection d) batch).1
  = {| conn := d;
       u_type := merge_all (tbl_type (visible d)) (type_map_of batch) no_work;
       u_ability := merge_all (tbl_ability (visible d)) (ability_map_of batch) no_work;
       u_stat := merge_all (tbl_stat (visible d)) (stat_map_of batch) no_work;
       u_pokemon := merge_all (tbl_pokemon (visible d)) (pokemon_ops batch) no_work;
       u_pokemon_type :=
         merge_all (tbl_pokemon_type (visible d)) (pokemon_type_ops batch) no_work;
       u_pokemon_ability :=
         merge_all (tbl_pokemon_ability (visible d)) (pokemon_ability_ops batch) no_work;
       u_pokemon_stat :=
         merge_all (tbl_pokemon_stat (visible d)) (pokemon_stat_ops batch) no_work |}.
Proof.
  unfold load_batch, upsert_reference_batch. simpl.
  by rewrite foldl_upsert_pokemon, foldl_merge_Stat, foldl_merge_Ability, foldl_merge_Type.
Qed.

(** C1.  [load_batch] is idempotent: when a load of a batch has been
    committed, a second load of the same batch, at any later time, commits
    too and leaves the store exactly as the first left it -- the same rows
    in every table, with the same values -- and returns the same count. *)
Theorem load_batch_idempotent clock1 clock2 s items s1 n :
  load_in_scope clock1 s items = (s1, Ok n) ->
  load_in_scope clock2 s1 items = (s1, Ok n).
Proof.
  rewrite !load_in_scope_cases. unfold SessionLocal. rewrite !load_batch_session.
  unfold flush_all, and_then, flush_table. simpl.
  destruct (flush_work _ _ _ (tbl_type s)) as [t1 [e|]] eqn:E1; [done|]. simpl.
  destruct (flush_work _ _ _ (tbl_ability s)) as [t2 [e|]] eqn:E2; [done|]. simpl.
  destruct (flush_work _ _ _ (tbl_stat s)) as [t3 [e|]] eqn:E3; [done|]. simpl.
  destruct (flush_work _ _ _ (tbl_pokemon s)) as [t4 [e|]] eqn:E4; [done|]. simpl.
  destruct (flush_work _ _ _ (tbl_pokemon_type s)) as [t5 [e|]] eqn:E5; [done|]. simpl.
  destruct (flush_work _ _ _ (tbl_pokemon_ability s)) as [t6 [e|]] eqn:E6; [done|]. simpl.
  destruct (flush_work _ _ _ (tbl_pokemon_stat s)) as [t7 [e|]] eqn:E7; [done|]. simpl.
  intros [= <- <-]. simpl.
  rewrite (flush_work_idempotent _ _ _ _ _ _ _ E1). simpl.
  rewrite (flush_work_idempotent _ _ _ _ _ _ _ E2). simpl.
  rewrite (flush_work_idempotent _ _ _ _ _ _ _ E3). simpl.
  rewrite (flush_work_idempotent _ _ _ _ _ _ _ E4). simpl.
  rewrite (flush_work_idempotent _ _ _ _ _ _ _ E5). simpl.
  rewrite (flush_work_idempotent _ _ _ _ _ _ _ E6). simpl.
  rewrite (flush_work_idempotent _ _ _ _ _ _ _ E7). simpl.
  reflexivity.
Qed.

End LoadFacts.

(* ===================================================================== *)
(** ** The properties on the sample data *)
(* ===================================================================== *)

Lemma load_batch_idempotent_witness :
  exists s1,
    load_in_scope (fun _ => 5) empty_store [Samples.bulbasaur] = (s1, Ok 1)
    /\ load_in_scope (fun _ => 9) s1 [Samples.bulbasaur] = (s1, Ok 1).
Proof.
  eexists. split; [vm_compute; reflexivity|].
  apply (load_batch_idempotent (fun _ => 5) (fun _ => 9) empty_store [Samples.bulbasaur]).
  vm_compute. reflexivity.
Defined.

(** A second load keeps even the time of the first insertion. *)
Example second_load_keeps_loaded_at :
  let s1 := (load_in_scope (fun _ => 5) empty_store [Samples.bulbasaur]).1 in
  let s2 := (load_in_scope (fun _ => 9) s1 [Samples.bulbasaur]).1 in
  Pokemon.loaded_at <$> tbl_pokemon s2 !! 1 = Some 5
  /\ size (tbl_pokemon s2) = 1%nat /\ size (tbl_pokemon_type s2) = 2%nat.
Proof. vm_compute. done. Qed.

(** A batch that names the same new Pokemon twice is refused as a whole:
    the two pending objects collide on the primary key. *)
Example duplicate_in_batch_is_refused :
  load_in_scope (fun _ => 0) empty_store [Samples.bulbasaur; Samples.bulbasaur]
  = (empty_store, Err IntegrityError).
Proof. vm_compute. reflexivity. Qed.

(** At that failure the transaction had written rows, which the rollback
    dropped. *)
Example rollback_drops_written_rows :
  let ss := (load_batch (SessionLocal empty_store)
               [Samples.bulbasaur; Samples.bulbasaur]).1 in
  exists ss' written,
    commit (fun _ => 0) ss = (ss', Err IntegrityError)
    /\ tx (conn ss') = Some written
    /\ size (tbl_type written) = 2%nat
    /\ close (rollback ss') = empty_store.
Proof. eexists _, _. split; [vm_compute; reflexivity|]. vm_compute. done. Qed.

Lemma load_is_atomic_witness :
  load_in_scope (fun _ => 0) empty_store [Samples.bulbasaur; Samples.bulbasaur]
  = (empty_store, Err IntegrityError)
  /\ forall s' e,
       load_in_scope (fun _ => 0) empty_store [Samples.bulbasaur; Samples.bulbasaur]
       = (s', Err e) -> s' = empty_store.
Proof.
  split; [vm_compute; reflexivity|].
  apply (load_is_atomic (fun _ => 0) empty_store [Samples.bulbasaur; Samples.bulbasaur]).
Defined.

Lemma run_etl_counts_witness :
  exists s',
    run_etl Samples.no_repr Config.defaults Samples.two_pokemon (fun _ => 0)
      empty_store 2 0 = (s', Ok (2, 2))
    /\ (exists listing items batch,
          fetch_pokemon_list Config.defaults Samples.two_pokemon 2 0 = Ok listing
          /\ iter listing = Ok items
          /\ 2 = Z.of_nat (length items)
          /\ extract_transform Samples.no_repr Config.defaults Samples.two_pokemon 2 0
             = Ok batch
          /\ 2 = (load_batch (SessionLocal empty_store) batch).2)
    /\ (forall ss batch, (load_batch ss batch).2 = Z.of_nat (length batch))
    /\ 2 = 2.
Proof.
  eexists. split; [vm_compute; reflexivity|].
  eapply (run_etl_counts Samples.no_repr Config.defaults Samples.two_pokemon
            (fun _ => 0) empty_store 2 0 _ 2 2).
  vm_compute. reflexivity.
Defined.

(** Scenario A: two items listed, two rows stored. *)
Example scenario_a_rows :
  size (tbl_pokemon
          (run_etl Samples.no_repr Config.defaults Samples.two_pokemon (fun _ => 0)
             empty_store 2 0).1) = 2%nat.
Proof. vm_compute. reflexivity. Qed.


(** Scenario B: the run leaves with the network error of the target. *)
Example scenario_b :
  run_etl Samples.no_repr Config.defaults Samples.ivysaur_down (fun _ => 0) empty_store 2 0
  = (empty_store, Err (HTTPError 503)).
Proof. vm_compute. reflexivity. Qed.

Lemma fetch_json_retry_bound_witness :
  let cfg := {| POKEAPI_BASE := "https://pokeapi.co/api/v2";
                HTTP_TIMEOUT_SECONDS := PyFloat.lit_10;
                MAX_CONCURRENCY := 8; MAX_RETRIES := 0 |} in
  let url := "https://pokeapi.co/api/v2/pokemon/ivysaur" in
  _fetch_json cfg (Samples.two_pokemon (Detail 0) url) url = (Err AssertionError, [])
  /\ (exists e, raised (Samples.ivysaur_down (Detail 0) url 2) = Some e
        /\ (_fetch_json Config.defaults (Samples.ivysaur_down (Detail 0) url) url).1 = Err e).
Proof.
  intros cfg url. split.
  - apply (fetch_json_retry_bound cfg (Samples.two_pokemon (Detail 0) url) url).
    vm_compute. discriminate.
  - apply (fetch_json_retry_bound Config.defaults
             (Samples.ivysaur_down (Detail 0) url) url).
    + vm_compute. discriminate.
    + intros k _. vm_compute. discriminate.
Defined.

(** Three requests, three delays of half a second, then the error. *)
Example fetch_json_three_attempts :
  _fetch_json Config.defaults
    (Samples.ivysaur_down (Detail 1) "https://pokeapi.co/api/v2/pokemon/ivysaur")
    "https://pokeapi.co/api/v2/pokemon/ivysaur"
  = (Err (HTTPError 503),
     [Get "https://pokeapi.co/api/v2/pokemon/ivysaur" PyFloat.lit_10;
      Sleep PyFloat.lit_half;
      Get "https://pokeapi.co/api/v2/pokemon/ivysaur" PyFloat.lit_10;
      Sleep PyFloat.lit_half;
      Get "https://pokeapi.co/api/v2/pokemon/ivysaur" PyFloat.lit_10;
      Sleep PyFloat.lit_half]).
Proof. reflexivity. Qed.

(* ===================================================================== *)
(** ** Ids in locators and in the environment *)
(* ===================================================================== *)

Section Decimal.
Import Decimal.

Local Abbreviation string_of_uint := DecimalString.NilEmpty.string_of_uint.

Ltac digit_step :=
  cbn [DecimalString.NilEmpty.string_of_uint int_digits];
  match goal with
  | |- context [digit ?a] =>
      let v := eval vm_compute in (digit a) in change (digit a) with v
  end; cbv beta iota.

(** Reading the digits that print a number, [acc] being positive. *)
Lemma int_digits_uint_acc d acc b :
  (d <> Nil \/ b = true) ->
  int_digits (Z.pos acc) b (string_of_uint d) = Some (Z.pos (Pos.of_uint_acc d acc)).
Proof.
  revert acc b. induction d; intros acc b Hd;
    try (digit_step; cbn [Pos.of_uint_acc];
         rewrite <- (IHd _ true) by (by right); f_equal; lia).
  simpl. destruct Hd as [?| ->]; done.
Qed.

Lemma int_digits_uint d b :
  (d <> Nil \/ b = true) ->
  int_digits 0 b (string_of_uint d) = Some (Z.of_uint d).
Proof.
  revert b. induction d; intros b Hd;
    try (digit_step; unfold Z.of_uint; cbn [Pos.of_uint Z.of_N];
         first [ apply IHd; by right
               | rewrite <- (int_digits_uint_acc _ _ true) by (by right); reflexivity ]).
  simpl. destruct Hd as [?| ->]; done.
Qed.

Lemma lstrip_space_uint d : lstrip_space (string_of_uint d) = string_of_uint d.
Proof. destruct d; reflexivity. Qed.

Lemma int_of_str_uint d : d <> Nil -> int_of_str (string_of_uint d) = Ok (Z.of_uint d).
Proof.
  intros Hd. unfold int_of_str. rewrite lstrip_space_uint.
  assert (int_digits 0 false (string_of_uint d) = Some (Z.of_uint d)) as Hi
    by (apply int_digits_uint; by left).
  destruct d; try done; cbn [string_of_uint] in *; by rewrite Hi.
Qed.

Lemma split_uint d : split "/" (string_of_uint d) = [string_of_uint d].
Proof. induction d; try reflexivity; cbn [string_of_uint split]; by rewrite IHd. Qed.

Lemma string_of_uint_nonempty d : d <> Nil -> string_of_uint d <> EmptyString.
Proof. by destruct d. Qed.

(** [int(str(n)) = n] *)
Lemma int_of_str_str_of_int n : int_of_str (str_of_int n) = Ok n.
Proof.
  unfold str_of_int. destruct n as [|p|p]; [reflexivity|..]; simpl.
  - rewrite int_of_str_uint by apply DecimalPos.Unsigned.to_uint_nonnil.
    unfold Z.of_uint. by rewrite DecimalPos.Unsigned.of_to.
  - unfold int_of_str. cbn [lstrip_space is_space]. simpl.
    rewrite int_digits_uint by (left; apply DecimalPos.Unsigned.to_uint_nonnil).
    unfold Z.of_uint. by rewrite DecimalPos.Unsigned.of_to.
Qed.

(** What [str(n)] prints holds no [/] and is not empty. *)
Lemma split_str_of_int n : split "/" (str_of_int n) = [str_of_int n].
Proof.
  unfold str_of_int. destruct n as [|p|p]; [reflexivity|apply split_uint|].
  simpl. by rewrite split_uint.
Qed.

Lemma str_of_int_nonempty n : str_of_int n <> EmptyString.
Proof.
  unfold str_of_int. destruct n as [|p|p]; [done| |done].
  apply string_of_uint_nonempty, DecimalPos.Unsigned.to_uint_nonnil.
Qed.

End Decimal.

Lemma split_app_sep c p q : split c (p ++ String c q) = (split c p ++ split c q)%list.
Proof.
  induction p as [|a p IH]; simpl.
  - by rewrite Ascii.eqb_refl.
  - rewrite IH. pose proof (split_nonempty c p) as Hne.
    destruct (Ascii.eqb a c); [reflexivity|].
    destruct (split c p); [done|reflexivity].
Qed.

(** X1.  [_id_from_url] fails in one way only, with the [ValueError] of
    [int]: [split] always returns a segment, so the subscript [[-1]] never
    raises [IndexError]. *)
Theorem id_from_url_only_value_error url e : _id_from_url url = Err e -> e = ValueError.
Proof.
  unfold _id_from_url. destruct (split_last_item "/" (rstrip "/" url)) as [seg ->].
  simpl. unfold int_of_str.
  match goal with |- match ?x with _ => _ end = _ -> _ => destruct x end;
    [done|by intros [= <-]].
Qed.

(** X2.  [_id_from_url] reads back the id that a locator was built
    from: for every prefix and every integer [n] that [str] and [int]
    convert (fewer than 4300 digits), the locator [f"{prefix}/{n}/"] gives
    [n], and so does the same without the final [/]. *)
Theorem id_from_url_round_trip (pre : string) (n : Z) :
  Z.abs n < 10 ^ 4300 ->
  _id_from_url (pre ++ "/" ++ str_of_int n ++ "/") = Ok n
  /\ _id_from_url (pre ++ "/" ++ str_of_int n) = Ok n.
Proof.
  intros _.
  assert (_id_from_url (pre ++ "/" ++ str_of_int n) = Ok n) as Hplain.
  { unfold _id_from_url.
    assert (last (split "/" (pre ++ "/" ++ str_of_int n)) = Some (str_of_int n)) as Hl.
    { change (pre ++ "/" ++ str_of_int n) with (pre ++ String "/" (str_of_int n)).
      rewrite split_app_sep, split_str_of_int. apply last_snoc. }
    rewrite (rstrip_id "/" _ _ Hl (str_of_int_nonempty n)).
    unfold last_item. rewrite Hl. simpl. apply int_of_str_str_of_int. }
  split; [|exact Hplain].
  unfold _id_from_url in *.
  replace (pre ++ "/" ++ str_of_int n ++ "/")
    with ((pre ++ "/" ++ str_of_int n) ++ String "/" EmptyString).
  - by rewrite rstrip_snoc, Ascii.eqb_refl.
  - by rewrite !string_app_assoc.
Qed.

(** *** The constants read from the environment *)

(** X29.  The import of [config] validates no range: whatever integer
    [n] the environment gives for [MAX_RETRIES], written as [str(n)], the
    constant is [n] -- negative and zero included -- and the default [3]
    applies only when the variable is not set; a value that [int] rejects
    makes the import fail with [ValueError].  The same holds for
    [MAX_CONCURRENCY], with the default [8]. *)
Theorem config_reads_any_integer environ n :
  Z.abs n < 10 ^ 4300 ->
  (environ "MAX_RETRIES" = Some (str_of_int n) -> MAX_RETRIES_of environ = Ok n)
  /\ (environ "MAX_RETRIES" = None -> MAX_RETRIES_of environ = Ok (MAX_RETRIES defaults))
  /\ (environ "MAX_CONCURRENCY" = Some (str_of_int n) -> MAX_CONCURRENCY_of environ = Ok n)
  /\ (environ "MAX_CONCURRENCY" = None ->
      MAX_CONCURRENCY_of environ = Ok (MAX_CONCURRENCY defaults))
  /\ (forall e, MAX_RETRIES_of environ = Err e \/ MAX_CONCURRENCY_of environ = Err e ->
                e = ValueError).
Proof.
  intros _. unfold MAX_RETRIES_of, MAX_CONCURRENCY_of, getenv. repeat split.
  - intros ->. apply int_of_str_str_of_int.
  - by intros ->.
  - intros ->. apply int_of_str_str_of_int.
  - by intros ->.
  - intros e [He|He]; revert He; unfold int_of_str;
      match goal with |- match ?x with _ => _ end = _ -> _ => destruct x end;
      try done; by intros [= <-].
Qed.

(* ===================================================================== *)
(** ** The requests of a run *)
(* ===================================================================== *)

Section FetchTraces.
Variable cfg : Config.t.

(** One failed round: the request, then the delay. *)
Local Abbreviation failed_round url :=
  [Get url (HTTP_TIMEOUT_SECONDS cfg); Sleep PyFloat.lit_half].

Lemma fetch_loop_success_trace attempt url n k last j data :
  (j < n)%nat ->
  (forall i, (i < j)%nat -> raised (attempt (k + i)%nat) <> None) ->
  attempt (k + j)%nat = Body data ->
  fetch_loop cfg attempt url n k last
  = (Ok data, (concat (replicate j (failed_round url))
                 ++ [Get url (HTTP_TIMEOUT_SECONDS cfg)])%list).
Proof.
  revert n k last. induction j as [|j IH]; intros n k last Hn Hall Hj.
  - destruct n as [|n]; [lia|]. simpl. rewrite Nat.add_0_r in Hj. by rewrite Hj.
  - destruct n as [|n]; [lia|]. simpl.
    pose proof (Hall 0%nat ltac:(lia)) as H0. rewrite Nat.add_0_r in H0.
    destruct (attempt k) as [d|exc] eqn:Ek; [done|].
    rewrite (IH n (S k) (Some exc)); [reflexivity|lia| |].
    + intros i Hi. specialize (Hall (S i) ltac:(lia)).
      by replace (k + S i)%nat with (S k + i)%nat in Hall by lia.
    + by replace (S k + j)%nat with (k + S j)%nat by lia.
Qed.

Lemma fetch_loop_exhausted_trace attempt url n k last :
  (forall j, (j < n)%nat -> raised (attempt (k + j)%nat) <> None) ->
  (fetch_loop cfg attempt url n k last).2 = concat (replicate n (failed_round url)).
Proof.
  revert k last. induction n as [|n IH]; intros k last Hall; simpl.
  - by destruct last.
  - pose proof (Hall 0%nat ltac:(lia)) as H0. rewrite Nat.add_0_r in H0.
    destruct (attempt k) as [data|exc] eqn:Ek; [done|].
    specialize (IH (S k) (Some exc)).
    destruct (fetch_loop cfg attempt url n (S k) (Some exc)) as [r evs]. simpl in *.
    rewrite IH; [reflexivity|].
    intros j Hj. specialize (Hall (S j) ltac:(lia)).
    by replace (k + S j)%nat with (S k + j)%nat in Hall by lia.
Qed.

(** X3.  [_fetch_json] returns the body of the first attempt that
    succeeds, provided it comes within [MAX_RETRIES] attempts: when the
    first [j] attempts fail and the next one succeeds, the call sends
    [j + 1] requests to the same locator, each with the configured
    timeout, sleeps half a second after each of the [j] failures, and
    sends nothing after the success. *)
Theorem fetch_json_first_success attempt url j data :
  (j < Z.to_nat (MAX_RETRIES cfg))%nat ->
  (forall i, (i < j)%nat -> raised (attempt i) <> None) ->
  attempt j = Body data ->
  _fetch_json cfg attempt url
  = (Ok data, (concat (replicate j (failed_round url))
                 ++ [Get url (HTTP_TIMEOUT_SECONDS cfg)])%list).
Proof. intros Hj Hall Hs. by apply fetch_loop_success_trace. Qed.

(** X4.  When every attempt fails, [_fetch_json] has sent exactly
    [MAX_RETRIES] requests and has slept half a second after each of them,
    the last one included: the exception leaves the function only after
    that last delay. *)
Theorem fetch_json_exhausted_trace attempt url :
  (forall k, (k < Z.to_nat (MAX_RETRIES cfg))%nat -> raised (attempt k) <> None) ->
  (_fetch_json cfg attempt url).2
  = concat (replicate (Z.to_nat (MAX_RETRIES cfg)) (failed_round url))
  /\ is_ok (_fetch_json cfg attempt url).1 = false.
Proof.
  intros Hall. split; [by apply fetch_loop_exhausted_trace|].
  unfold _fetch_json.
  destruct (fetch_loop_exhausted cfg attempt url (Z.to_nat (MAX_RETRIES cfg)) 0 None Hall)
    as [-> _].
  destruct (Z.to_nat (MAX_RETRIES cfg)); [reflexivity|].
  by destruct (raised _).
Qed.

(** *** Results in the order of the targets *)

Lemma gather_lookup {A} (tasks : list (nat -> result A)) i0 xs j t :
  gather tasks i0 = Ok xs -> tasks !! j = Some t ->
  exists x, xs !! j = Some x /\ t (i0 + j)%nat = Ok x.
Proof.
  revert i0 xs j. induction tasks as [|t0 tasks IH]; intros i0 xs j; simpl; [done|].
  destruct (t0 i0) as [x0|] eqn:E0; [|done]. simpl.
  destruct (gather tasks (S i0)) as [xs'|] eqn:Eg; [|done]. simpl.
  intros [= <-]. destruct j as [|j]; simpl.
  - intros [= <-]. exists x0. by rewrite Nat.add_0_r.
  - intros Hj. destruct (IH _ _ _ Eg Hj) as (x & Hx & Ht). exists x.
    split; [done|]. by replace (i0 + S j)%nat with (S i0 + j)%nat by lia.
Qed.

Lemma for_each_lookup {A B} (f : A -> result B) l ys j x :
  for_each f l = Ok ys -> l !! j = Some x ->
  exists y, ys !! j = Some y /\ f x = Ok y.
Proof.
  revert ys j. induction l as [|x0 l IH]; intros ys j; simpl; [done|].
  destruct (f x0) as [y0|] eqn:E0; [|done]. simpl.
  destruct (for_each f l) as [ys'|] eqn:Ef; [|done]. simpl.
  intros [= <-]. destruct j as [|j]; simpl.
  - intros [= <-]. by exists y0.
  - intros Hj. by apply IH.
Qed.

Lemma fetch_pokemon_details_lookup net targets details i t :
  fetch_pokemon_details cfg net targets = Ok details ->
  targets !! i = Some t ->
  exists name d,
    t = JStr name /\ details !! i = Some d
    /\ let url := if startswith name "http" then name
                  else POKEAPI_BASE cfg ++ "/pokemon/" ++ name in
       (_fetch_json cfg (net (Detail i) url) url).1 = Ok d.
Proof.
  intros Hd Hi. unfold fetch_pokemon_details in Hd. destruct (_ <? 0); [done|].
  destruct (_ && _); [done|].
  destruct (gather_lookup _ 0 _ i (fun i => _one cfg net i t) Hd) as (d & Hdi & Hone).
  { by rewrite list_lookup_fmap, Hi. }
  simpl in Hone. unfold _one, detail_url in Hone.
  destruct t as [| | | |name| |]; try done. simpl in Hone.
  by exists name, d.
Qed.

(** X5.  [fetch_pokemon_details] returns one payload per target, in the
    order of the targets: the payload at position [i] is what the
    [_fetch_json] call of target [i] returned, from the target itself when
    it starts with [http] and from [POKEAPI_BASE/pokemon/<target>]
    otherwise. *)
Theorem fetch_pokemon_details_in_order net targets details :
  fetch_pokemon_details cfg net targets = Ok details ->
  length details = length targets
  /\ forall i t, targets !! i = Some t ->
       exists name d,
         t = JStr name /\ details !! i = Some d
         /\ let url := if startswith name "http" then name
                       else POKEAPI_BASE cfg ++ "/pokemon/" ++ name in
            (_fetch_json cfg (net (Detail i) url) url).1 = Ok d.
Proof.
  intros Hd. split; [by eapply fetch_pokemon_details_length|].
  intros i t Hi. by eapply fetch_pokemon_details_lookup.
Qed.

Variable py_repr : json -> string.

(** X6.  [extract_transform] keeps the page in order: it returns one
    record per entry of the listing, and the record at position [i] is the
    transform of the payload fetched for the ["name"] of entry [i] -- the
    ["url"] of the entry is not used. *)
Theorem extract_transform_in_order net limit offset items :
  extract_transform py_repr cfg net limit offset = Ok items ->
  exists listing entries,
    fetch_pokemon_list cfg net limit offset = Ok listing
    /\ iter listing = Ok entries
    /\ length items = length entries
    /\ forall i entry, entries !! i = Some entry ->
         exists name payload item,
           getitem entry "name" = Ok (JStr name)
           /\ (let url := if startswith name "http" then name
                          else POKEAPI_BASE cfg ++ "/pokemon/" ++ name in
               (_fetch_json cfg (net (Detail i) url) url).1 = Ok payload)
           /\ transform_one py_repr payload = Ok item
           /\ items !! i = Some item.
Proof.
  unfold extract_transform. intros H. bind_inv H.
  unfold targets_of in E0. bind_inv E0.
  rename a into listing, a0 into targets, a1 into details, a2 into entries.
  exists listing, entries. split; [done|]. split; [done|].
  pose proof (for_each_length _ _ _ E0) as Hl1.
  pose proof (for_each_length _ _ _ H) as Hl2.
  pose proof (fetch_pokemon_details_length _ _ _ _ E1) as Hl3.
  split; [lia|]. intros i entry Hi.
  destruct (for_each_lookup _ _ _ _ _ E0 Hi) as (t & Ht & Hname).
  destruct (fetch_pokemon_details_lookup _ _ _ i t E1 Ht)
    as (name & payload & -> & Hp & Hfetch).
  destruct (for_each_lookup _ _ _ _ _ H Hp) as (item & Hitem & Htr).
  by exists name, payload, item.
Qed.

End FetchTraces.

(* ===================================================================== *)
(** ** What the transform reads and what it keeps *)
(* ===================================================================== *)

Section TransformReads.
Variable py_repr : json -> string.

(** X7.  [transform_one] reads nine fields of the payload and nothing
    else: two payloads that agree on [id], [name], [base_experience],
    [height], [weight], [sprites], [types], [abilities] and [stats] are
    transformed alike -- accepted with the same record, or rejected with
    the same exception -- whatever else they hold. *)
Theorem transform_one_reads_nine_fields o o' :
  (forall k, k ∈ ["id"; "name"; "base_experience"; "height"; "weight"; "sprites";
                  "types"; "abilities"; "stats"] -> assoc k o = assoc k o') ->
  transform_one py_repr (JObj o) = transform_one py_repr (JObj o').
Proof.
  intros H. unfold transform_one. cbn [getitem get].
  rewrite (H "id"), (H "name"), (H "base_experience"), (H "height"), (H "weight"),
    (H "sprites"), (H "types"), (H "abilities"), (H "stats");
    [reflexivity|repeat constructor..].
Qed.

Lemma for_each_Forall2 {A B} (f : A -> result B) l ys :
  for_each f l = Ok ys -> Forall2 (fun x y => f x = Ok y) l ys.
Proof.
  revert ys. induction l as [|x l IH]; intros ys; simpl.
  - intros [= <-]. constructor.
  - destruct (f x) as [y|] eqn:Ex; [|done]. simpl.
    destruct (for_each f l) as [ys'|]; [|done]. simpl. intros [= <-].
    constructor; [done|by apply IH].
Qed.

(** X8.  [transform_one] keeps the entries of [types], [abilities] and
    [stats] one for one and in order: the list of the record has the
    length of the list of the payload, and its element at each position is
    the tuple built from the entry at that position; no entry is merged,
    sorted or dropped, a repeated entry stays repeated. *)
Theorem transform_one_keeps_entries o r :
  transform_one py_repr (JObj o) = Ok r ->
  (forall l, assoc "types" o = Some (JArr l) ->
     Forall2 (fun t e => type_entry t = Ok e) l (TPokemon.types r))
  /\ (forall l, assoc "abilities" o = Some (JArr l) ->
        Forall2 (fun a e => ability_entry a = Ok e) l (TPokemon.abilities r))
  /\ (forall l, assoc "stats" o = Some (JArr l) ->
        Forall2 (fun s e => stat_entry s = Ok e) l (TPokemon.stats r)).
Proof.
  intros Hr.
  destruct (transform_one_fields _ _ _ Hr)
    as (_ & (l1 & ts & Hg1 & Hi1 & Hf1) & (l2 & xs & Hg2 & Hi2 & Hf2)
        & (l3 & ss & Hg3 & Hi3 & Hf3)).
  simpl in Hg1, Hg2, Hg3. repeat split; intros l Hl.
  - rewrite Hl in Hg1. simpl in Hg1. injection Hg1 as <-. injection Hi1 as <-.
    by apply for_each_Forall2.
  - rewrite Hl in Hg2. simpl in Hg2. injection Hg2 as <-. injection Hi2 as <-.
    by apply for_each_Forall2.
  - rewrite Hl in Hg3. simpl in Hg3. injection Hg3 as <-. injection Hi3 as <-.
    by apply for_each_Forall2.
Qed.

(** X9.  Whatever [transform_one] raises is a [KeyError], a
    [TypeError], a [ValueError], an [AttributeError] or an
    [OverflowError]: the guard of [_bmi] rules [ZeroDivisionError] out, and
    no subscript of the transform can raise [IndexError]. *)
Theorem transform_one_raises_only payload e :
  transform_one py_repr payload = Err e ->
  (exists k, e = KeyError k) \/ e = TypeError \/ e = ValueError
  \/ e = AttributeError \/ e = OverflowError.
Proof.
  intros H. apply transform_one_err in H. destruct e; simpl in H; try done; eauto 6.
Qed.

(** X10.  [sprite_url] is [sprites.front_default]: null when [sprites] is
    absent, null when [sprites] has no [front_default], and otherwise the
    value found, unconverted.  The default [{}] stands in for an absent
    [sprites] only: a payload whose [sprites] is present and is not an
    object -- [null], say -- is rejected. *)
Theorem sprite_url_is_front_default o r :
  transform_one py_repr (JObj o) = Ok r ->
  match assoc "sprites" o with
  | None => TPokemon.sprite_url r = JNull
  | Some v => exists sprites, v = JObj sprites
                /\ TPokemon.sprite_url r = default JNull (assoc "front_default" sprites)
  end.
Proof.
  unfold transform_one. intros H.
  bind_inv H. inversion H; subst; clear H. simpl.
  repeat match goal with
         | E : _ ≫= _ = Ok _ |- _ => bind_inv E
         | E : Ok _ = Ok _ |- _ => inversion E; subst; clear E
         end.
  match goal with E : get _ "front_default" _ = Ok _ |- _ => rename E into Hs end.
  destruct (assoc "sprites" o) as [v|]; simpl in Hs.
  - destruct v; try done. injection Hs as <-. by eexists.
  - by injection Hs as <-.
Qed.

End TransformReads.

(* ===================================================================== *)
(** ** The sign of the bmi *)
(* ===================================================================== *)

Module FloatBounds.
Import PyFloat FloatFacts.

Local Abbreviation emin := (emin prec emax).
Local Abbreviation fexp := (fexp prec emax).

Lemma Zdigits2_upper k m : 0 < m < 2 ^ k -> Zdigits2 m <= k.
Proof.
  intros Hm. rewrite Zdigits2_log2 by lia.
  destruct (Z.le_gt_cases k 0) as [Hk|Hk].
  - assert (2 ^ k <= 1); [|lia].
    destruct (Z.eq_dec k 0) as [->|]; [simpl; lia|]. rewrite Z.pow_neg_r by lia. lia.
  - pose proof (Z.log2_lt_pow2 m k ltac:(lia)). lia.
Qed.

(** Rounding a positive mantissa whose magnitude is that of a normal or
    subnormal float gives a finite float, of that magnitude or the next. *)
Lemma binary_round_aux_bounded s m e l :
  0 < m -> emin < Zdigits2 m + e -> Zdigits2 m + e < emax -> e <= emax - prec ->
  exists m' e',
    binary_round_aux prec emax s m e l = S754_finite s m' e'
    /\ Zdigits2 m + e <= Z.pos (digits2_pos m') + e' <= Zdigits2 m + e + 1.
Proof.
  intros Hm Hlo Hhi He. unfold binary_round_aux, shr_fexp.
  destruct (shr (shr_record_of_loc m l) e (fexp (Zdigits2 m + e) - e))
    as [mrs1 e1] eqn:E1.
  pose proof (shr_exponent _ _ _ _ _ _ E1) as He1.
  apply shr_keeps in E1; [|lia|pose proof (fexp_lt _ Hlo); lia].
  destruct E1 as [Hm1 Hd1].
  pose proof (round_nearest_even_bounds (shr_m mrs1) (loc_of_shr_record mrs1)) as Hr.
  pose proof (Zdigits2_mono (shr_m mrs1) (round_nearest_even (shr_m mrs1)
                (loc_of_shr_record mrs1)) ltac:(lia)) as Hdlo.
  pose proof (Zdigits2_mono (round_nearest_even (shr_m mrs1) (loc_of_shr_record mrs1))
                (shr_m mrs1 + 1) ltac:(lia)) as Hdhi.
  pose proof (Zdigits2_succ (shr_m mrs1) Hm1) as Hsucc.
  generalize dependent (round_nearest_even (shr_m mrs1) (loc_of_shr_record mrs1)).
  intros m1 Hr Hdlo Hdhi.
  destruct (shr (shr_record_of_loc m1 loc_Exact) e1 (fexp (Zdigits2 m1 + e1) - e1))
    as [mrs2 e2] eqn:E2.
  pose proof (shr_exponent _ _ _ _ _ _ E2) as He2.
  apply shr_keeps in E2; [|lia|].
  2:{ assert (emin < Zdigits2 m1 + e1) as H1 by lia.
      pose proof (fexp_lt _ H1). lia. }
  destruct E2 as [Hm2 Hd2].
  destruct (shr_m mrs2) as [|p|p] eqn:Ep; try lia.
  assert (e2 <= emax - prec) as Hfin.
  { unfold SpecFloat.fexp, SpecFloat.emin, prec, emax in *. lia. }
  apply Z.leb_le in Hfin. rewrite Hfin. exists p, e2. split; [reflexivity|].
  simpl in Hd2. lia.
Qed.

Lemma shl_align_le mx ex ex' mz ez : shl_align mx ex ex' = (mz, ez) -> ez <= ex.
Proof. unfold shl_align. destruct (ex' - ex) eqn:E; intros [= <- <-]; lia. Qed.

(** [float(n)] for a positive int below [2^k]. *)
Lemma of_int_bounded n k :
  0 < n < 2 ^ k -> k <= 1022 -> exists f, of_int n = Ok f /\ bounded 1 (k + 1) f.
Proof.
  intros Hn Hk. unfold of_int. destruct n as [|p|p]; try lia. simpl.
  unfold binary_round. destruct (shl_align p 0 _) as [mz ez] eqn:E.
  pose proof (shl_align_mag _ _ _ _ _ E) as Hmag.
  pose proof (shl_align_le _ _ _ _ _ E) as Hexp.
  pose proof (Zdigits2_upper k (Z.pos p) Hn) as Hd. simpl in Hd.
  destruct (binary_round_aux_bounded false (Z.pos mz) ez loc_Exact)
    as (m' & e' & -> & Hb); simpl Zdigits2;
    try (unfold SpecFloat.emin, prec, emax; lia).
  eexists. split; [reflexivity|]. constructor. simpl in Hb. lia.
Qed.

(** The quotient of two positive floats, away from overflow and
    underflow. *)
Lemma div_bounded lx hx ly hy x y :
  bounded lx hx x -> bounded ly hy y ->
  emin + prec <= lx - hy -> hx - ly + 1 < emax ->
  bounded (lx - hy) (hx - ly + 2) (SFdiv prec emax x y).
Proof.
  intros [mx ex Hx] [my ey Hy] Hlo Hhi. unfold SFdiv, SFdiv_core_binary.
  pose proof (Zdigits2_bounds (Z.pos mx) ltac:(lia)) as Hb1.
  pose proof (Zdigits2_bounds (Z.pos my) ltac:(lia)) as Hb2.
  change (Z.pos (digits2_pos mx)) with (Zdigits2 (Z.pos mx)) in *.
  change (Z.pos (digits2_pos my)) with (Zdigits2 (Z.pos my)) in *.
  assert (0 < Zdigits2 (Z.pos mx)) as Hp1 by (simpl; lia).
  assert (0 < Zdigits2 (Z.pos my)) as Hp2 by (simpl; lia).
  generalize dependent (Zdigits2 (Z.pos mx)). intros d1 Hx Hb1 Hp1.
  generalize dependent (Zdigits2 (Z.pos my)). intros d2 Hy Hb2 Hp2.
  remember (Z.min (fexp (d1 + ex - (d2 + ey))) (ex - ey)) as e' eqn:He'.
  remember (ex - ey - e') as s eqn:Hs.
  assert (e' <= d1 + ex - (d2 + ey) - prec) as Hle.
  { rewrite He'. unfold SpecFloat.fexp. unfold SpecFloat.emin, prec, emax in *. lia. }
  assert (0 <= s) as Hs0 by lia.
  assert (Z.div_eucl match s with
                     | 0 => Z.pos mx
                     | Z.pos _ => Z.shiftl (Z.pos mx) s
                     | Z.neg _ => 0
                     end (Z.pos my)
          = Z.div_eucl (Z.pos mx * 2 ^ s) (Z.pos my)) as ->.
  { destruct s; try lia; [by rewrite Z.mul_1_r|].
    rewrite Z.shiftl_mul_pow2 by lia. reflexivity. }
  destruct (Z.div_eucl (Z.pos mx * 2 ^ s) (Z.pos my)) as [q r] eqn:Eq.
  assert (q = (Z.pos mx * 2 ^ s) / Z.pos my) as Hq by (unfold Z.div; rewrite Eq; reflexivity).
  assert (0 <= d1 - 1 + s - d2) as Hk by (unfold prec in *; lia).
  assert (0 < 2 ^ s) as Hps by (apply Z.pow_pos_nonneg; lia).
  assert (0 < 2 ^ (d2 - 1)) as Hpd by (apply Z.pow_pos_nonneg; lia).
  assert (2 ^ (d1 - 1 + s - d2) <= q) as Hqk.
  { rewrite Hq. apply Z.div_le_lower_bound; [lia|].
    assert (2 ^ (d1 - 1) * 2 ^ s = 2 ^ (d1 - 1 + s - d2) * 2 ^ d2) as Hp.
    { rewrite <- !Z.pow_add_r by lia. f_equal. lia. }
    assert (0 < 2 ^ (d1 - 1 + s - d2)) by (apply Z.pow_pos_nonneg; lia).
    assert (0 < 2 ^ d2) by (apply Z.pow_pos_nonneg; lia).
    nia. }
  assert (q < 2 ^ (d1 + s - d2 + 1)) as Hqu.
  { rewrite Hq. apply Z.div_lt_upper_bound; [lia|].
    assert (2 ^ (d2 - 1) * 2 ^ (d1 + s - d2 + 1) = 2 ^ d1 * 2 ^ s) as Hp.
    { rewrite <- !Z.pow_add_r by lia. f_equal. lia. }
    assert (0 < 2 ^ (d1 + s - d2 + 1)) by (apply Z.pow_pos_nonneg; lia).
    nia. }
  pose proof (Zdigits2_lower _ q Hk Hqk) as Hdq.
  assert (0 < q) by (pose proof (Z.pow_pos_nonneg 2 (d1 - 1 + s - d2)); lia).
  pose proof (Zdigits2_upper (d1 + s - d2 + 1) q ltac:(lia)) as Hdu.
  simpl xorb.
  match goal with
  | |- bounded _ _ (binary_round_aux _ _ _ _ _ ?l) =>
      destruct (binary_round_aux_bounded false q e' l) as (m' & e2 & -> & Hb)
  end.
  - lia.
  - unfold SpecFloat.emin, prec, emax in *. lia.
  - unfold SpecFloat.emin, prec, emax in *. lia.
  - unfold SpecFloat.emin, prec, emax in *. lia.
  - constructor. lia.
Qed.

(** The product of two positive floats, away from overflow and
    underflow. *)
Lemma mul_bounded lx hx ly hy x y :
  bounded lx hx x -> bounded ly hy y ->
  emin < lx + ly - 1 -> hx + hy < emax -> hx + hy - 2 <= emax - prec ->
  bounded (lx + ly - 1) (hx + hy + 1) (mul x y).
Proof.
  intros [mx ex Hx] [my ey Hy] Hlo Hhi He. unfold mul, SFmul.
  assert (Zdigits2 (Z.pos mx) + Zdigits2 (Z.pos my) - 1 <= Zdigits2 (Z.pos (mx * my))
          <= Zdigits2 (Z.pos mx) + Zdigits2 (Z.pos my)) as Hd.
  { rewrite !Zdigits2_log2 by lia. rewrite Pos2Z.inj_mul.
    pose proof (Z.log2_mul_below (Z.pos mx) (Z.pos my)).
    pose proof (Z.log2_mul_above (Z.pos mx) (Z.pos my)). lia. }
  assert (0 < Zdigits2 (Z.pos mx)) as Hp1 by (simpl; lia).
  assert (0 < Zdigits2 (Z.pos my)) as Hp2 by (simpl; lia).
  change (Z.pos (digits2_pos mx)) with (Zdigits2 (Z.pos mx)) in *.
  change (Z.pos (digits2_pos my)) with (Zdigits2 (Z.pos my)) in *.
  simpl xorb.
  destruct (binary_round_aux_bounded false (Z.pos (mx * my)) (ex + ey) loc_Exact)
    as (m' & e2 & -> & Hb); try lia.
  constructor. lia.
Qed.

Lemma bounded_gt_zero lo hi x : bounded lo hi x -> gt_zero x = true.
Proof. by intros [m e _]. Qed.

Lemma bounded_not_zero lo hi x : bounded lo hi x -> is_zero x = false.
Proof. by intros [m e _]. Qed.

Lemma bounded_weaken lo hi lo' hi' x :
  lo' <= lo -> hi <= hi' -> bounded lo hi x -> bounded lo' hi' x.
Proof. intros Hl Hh [m e H]. constructor. lia. Qed.

Lemma bounded_lit_10 : bounded 4 4 lit_10.
Proof. constructor. simpl. lia. Qed.

Lemma bounded_lit_100 : bounded 7 7 lit_100.
Proof. constructor. simpl. lia. Qed.

(** The sizes of a Pokemon that fit in 64 bits give a positive finite
    weight and a positive finite bmi. *)
Lemma bmi_of_sizes h w :
  0 < h < 2 ^ 63 -> 0 < w < 2 ^ 63 ->
  exists kg b,
    _to_kg w = Ok kg /\ bounded (-3) 62 kg
    /\ _bmi h kg = Ok (Some b) /\ bounded (-123) 77 b.
Proof.
  intros Hh Hw.
  destruct (of_int_bounded w 63 Hw ltac:(lia)) as (fw & Hfw & Bw).
  destruct (of_int_bounded h 63 Hh ltac:(lia)) as (fh & Hfh & Bh).
  pose proof (div_bounded _ _ _ _ _ _ Bw bounded_lit_10
                ltac:(unfold SpecFloat.emin, prec, emax; lia)
                ltac:(unfold emax; lia)) as Bkg.
  pose proof (div_bounded _ _ _ _ _ _ Bh bounded_lit_100
                ltac:(unfold SpecFloat.emin, prec, emax; lia)
                ltac:(unfold emax; lia)) as Bm.
  pose proof (mul_bounded _ _ _ _ _ _ Bm Bm
                ltac:(unfold SpecFloat.emin, prec, emax; lia)
                ltac:(unfold emax; lia)
                ltac:(unfold prec, emax; lia)) as Bmm.
  pose proof (div_bounded _ _ _ _ _ _ Bkg Bmm
                ltac:(unfold SpecFloat.emin, prec, emax; lia)
                ltac:(unfold emax; lia)) as Bb.
  exists (SFdiv prec emax fw lit_10),
         (SFdiv prec emax (SFdiv prec emax fw lit_10)
            (mul (SFdiv prec emax fh lit_100) (SFdiv prec emax fh lit_100))).
  split; [unfold _to_kg, int_div; by rewrite Hfw|].
  split; [eapply bounded_weaken; [| |exact Bkg]; lia|].
  split.
  - rewrite bmi_never_divides_by_zero, Hfh. simpl.
    destruct (Z.ltb_spec 0 h); [reflexivity|lia].
  - eapply bounded_weaken; [| |exact Bb]; lia.
Qed.

End FloatBounds.

Section BmiSign.
Import PyFloat FloatBounds.
Variable py_repr : json -> string.

(** X11.  For sizes that fit in 64 bits, a Pokemon with a positive
    height and a positive weight has a bmi, which is a positive finite
    float -- what test/test_transform.py asserts on its sample -- and its
    weight in kilograms is positive and finite too. *)
Theorem bmi_is_positive payload r vw w :
  transform_one py_repr payload = Ok r ->
  getitem payload "weight" = Ok vw -> py_int vw = Ok w ->
  0 < TPokemon.height_cm r < 2 ^ 63 -> 0 < w < 2 ^ 63 ->
  exists b, TPokemon.bmi r = Some b
    /\ gt_zero b = true /\ bounded (-123) 77 b
    /\ gt_zero (TPokemon.weight_kg r) = true /\ bounded (-3) 62 (TPokemon.weight_kg r).
Proof.
  intros Hr Hvw Hw Hh Hwb.
  destruct (transform_one_sizes py_repr payload r Hr)
    as (vh & h & vw' & w' & _ & _ & Hvw' & Hw' & _ & Hkg & Hb).
  rewrite Hvw in Hvw'. injection Hvw' as <-. rewrite Hw in Hw'. injection Hw' as <-.
  destruct (bmi_of_sizes (TPokemon.height_cm r) w Hh Hwb) as (kg & b & Hkg' & Bkg & Hb' & Bb).
  rewrite Hkg in Hkg'. injection Hkg' as <-.
  rewrite Hb in Hb'. injection Hb' as ->.
  exists b. split; [reflexivity|]. split; [by eapply bounded_gt_zero|]. split; [done|].
  split; [by eapply bounded_gt_zero|done].
Qed.

End BmiSign.

Lemma bmi_is_positive_witness :
  exists b, TPokemon.bmi Samples.bulbasaur = Some b /\ PyFloat.gt_zero b = true.
Proof.
  destruct (bmi_is_positive Samples.no_repr Samples.sample_pokemon_payload
              Samples.bulbasaur (JInt 69) 69) as (b & Hb & Hpos & _).
  - vm_compute. reflexivity.
  - reflexivity.
  - reflexivity.
  - vm_compute. done.
  - vm_compute. done.
  - by exists b.
Defined.

(* ===================================================================== *)
(** ** What a load leaves in the store *)
(* ===================================================================== *)

Section FlushFacts.
Context {K G R : Type} `{Countable K} `{EqDecision R} `{!Mapped K G R}.
Implicit Types (t : gmap K R) (ops : list (K * G)).

Lemma latest_None k ops : latest k ops = None <-> k ∉ ops.*1.
Proof.
  split.
  - intros Hl Hin. apply list_elem_of_fmap in Hin as ([k' g] & -> & Hin).
    destruct (latest_is_Some _ _ _ Hin) as [g' Hg']. simpl in *. congruence.
  - intros Hin. destruct (latest k ops) as [g|] eqn:Hl; [|reflexivity].
    exfalso. apply Hin. apply latest_elem in Hl.
    apply list_elem_of_fmap. by exists (k, g).
Qed.

(** The table after a flush that succeeds, key by key. *)
Lemma flush_work_result ok clock t0 ops t1 :
  flush_work ok clock (merge_all t0 ops no_work) t0 = (t1, None) ->
  forall k, t1 !! k = flushed clock t0 ops k.
Proof.
  unfold flush_work, flushed. destruct (merge_all_spec t0 ops) as [Hp Hq].
  set (u := merge_all t0 ops no_work) in *.
  destruct (exec_all (update_stmt ok) _ t0) as [t' [e|]] eqn:Eu; [done|].
  intros Ei k.
  destruct (exec_updates_result _ _ _ _ (sorted_rows_NoDup _) Eu) as [Uin Uout].
  destruct (exec_inserts_result _ _ _ _ _ Ei) as (Iin & Iout & Ifree).
  assert (forall r0, t0 !! k = Some r0 -> k ∉ (pending u).*1) as Hloaded.
  { intros r0 Et. rewrite Hq. intros Hin.
    apply list_elem_of_fmap in Hin as ([k1 g1] & -> & Hin).
    apply list_elem_of_filter in Hin as [Hnone _]. simpl in *. congruence. }
  assert (persistent u !! k = None -> t' !! k = t0 !! k) as Hkeep.
  { intros Hnone. apply Uout. intros Hin.
    apply list_elem_of_fmap in Hin as ([k1 r1] & -> & Hin).
    apply sorted_rows_elem in Hin. simpl in *. congruence. }
  specialize (Hp k).
  destruct (t0 !! k) as [r0|] eqn:Et.
  - rewrite Iout by (by eapply Hloaded). destruct (latest k ops) as [g|] eqn:Hl.
    + apply Uin, sorted_rows_elem. exact Hp.
    + rewrite Hkeep by exact Hp. reflexivity.
  - destruct (latest k ops) as [g|] eqn:Hl.
    + apply Iin. rewrite Hq. apply list_elem_of_filter. split; [done|].
      by apply latest_elem.
    + rewrite Iout, Hkeep; [reflexivity|exact Hp|].
      rewrite Hq. intros Hin. apply list_elem_of_fmap in Hin as ([k1 g1] & -> & Hin).
      apply list_elem_of_filter in Hin as [_ Hin].
      apply latest_None in Hl. apply Hl. apply list_elem_of_fmap. by exists (k1, g1).
Qed.

(** The INSERTs of a flush that succeeds are on distinct keys. *)
Lemma exec_inserts_NoDup ok clock (l : list (K * G)) t t' :
  exec_all (insert_stmt ok clock) l t = (t', None) -> NoDup l.*1.
Proof.
  revert t. induction l as [|[k0 g0] l IH]; intros t; simpl; [constructor|].
  destruct (insert_stmt ok clock (k0, g0) t) as [t1 [e|]] eqn:E1; [done|].
  intros Hrest. constructor; [|by eapply IH].
  destruct (exec_inserts_result _ _ _ _ _ Hrest) as (_ & _ & Hfree).
  intros Hin. specialize (Hfree k0 Hin).
  unfold insert_stmt in E1. simpl in E1. destruct (t !! k0); [done|].
  destruct (ok k0 _ t); [|done]. injection E1 as <-.
  by rewrite lookup_insert_eq in Hfree.
Qed.

(** Two merges of one key that the table does not hold make the flush
    fail. *)
Lemma flush_work_collision ok clock t0 ops i j k gi gj :
  i <> j -> ops !! i = Some (k, gi) -> ops !! j = Some (k, gj) -> t0 !! k = None ->
  exists t e, flush_work ok clock (merge_all t0 ops no_work) t0 = (t, Some e).
Proof.
  intros Hij Hi Hj Hk.
  destruct (flush_work ok clock (merge_all t0 ops no_work) t0) as [t [e|]] eqn:Ef;
    [by exists t, e|exfalso].
  unfold flush_work in Ef. destruct (merge_all_spec t0 ops) as [_ Hq].
  destruct (exec_all (update_stmt ok) _ t0) as [t' [e|]]; [done|].
  apply exec_inserts_NoDup in Ef. rewrite Hq in Ef. clear Hq.
  assert (NoDup (filter (fun k' => t0 !! k' = None) ops.*1)) as Hnd.
  { revert Ef. clear. induction ops as [|[k g] ops IH]; [done|].
    rewrite fmap_cons, !filter_cons. simpl.
    destruct (decide (t0 !! k = None)); simpl; [|exact IH].
    intros Hn. apply NoDup_cons in Hn as [Hk Hn]. constructor; [|by apply IH].
    intros Hin. apply Hk. apply list_elem_of_filter in Hin as [Hnone Hin].
    apply list_elem_of_fmap in Hin as ([k1 g1] & -> & Hin).
    apply list_elem_of_fmap. exists (k1, g1). split; [done|].
    apply list_elem_of_filter. done. }
  clear Ef.
  assert (forall (l : list K) i j, (i < j)%nat -> l !! i = Some k -> l !! j = Some k ->
            NoDup (filter (fun k' => t0 !! k' = None) l) -> False) as Hord.
  { clear -Hk. induction l as [|x l IH]; intros i j Hlt Hi Hj; [done|].
    rewrite filter_cons. destruct j as [|j]; [lia|]. simpl in Hj.
    destruct i as [|i]; simpl in Hi.
    - injection Hi as ->. rewrite decide_True by done.
      intros Hn. apply NoDup_cons in Hn as [Hn _]. apply Hn.
      apply list_elem_of_filter. split; [done|]. by eapply list_elem_of_lookup_2.
    - destruct (decide _); [intros Hn; apply NoDup_cons in Hn as [_ Hn]|intros Hn];
        apply (IH i j); (lia || done). }
  assert (ops.*1 !! i = Some k) as Hi' by (by rewrite list_lookup_fmap, Hi).
  assert (ops.*1 !! j = Some k) as Hj' by (by rewrite list_lookup_fmap, Hj).
  destruct (Nat.lt_total i j) as [Hlt|[->|Hlt]]; [|done|]; eauto.
Qed.

End FlushFacts.

(** *** The dicts of [upsert_reference_batch] *)

Section DictFacts.
Context {V : Type}.
Implicit Types (d : list (Z * V)) (l : list (Z * V)).

Lemma dict_set_keys k v d :
  (dict_set k v d).*1 = if decide (k ∈ d.*1) then d.*1 else (d.*1 ++ [k])%list.
Proof.
  induction d as [|[k' v'] d IH]; [reflexivity|]. cbn [dict_set].
  destruct (Z.eqb_spec k k') as [->|Hne]; rewrite !fmap_cons; cbn [fst].
  - rewrite decide_True by left. reflexivity.
  - rewrite IH. destruct (decide (k ∈ d.*1)) as [Hin|Hnin].
    + rewrite decide_True by (by right). reflexivity.
    + rewrite decide_False; [reflexivity|].
      intros Hin. apply elem_of_cons in Hin as [?|?]; done.
Qed.

Lemma dict_set_NoDup k v d : NoDup d.*1 -> NoDup (dict_set k v d).*1.
Proof.
  intros Hnd. rewrite dict_set_keys. destruct (decide _) as [|Hnin]; [done|].
  apply NoDup_app. split; [done|]. split; [|apply NoDup_singleton].
  intros x Hx Hx'. apply list_elem_of_singleton in Hx' as ->. done.
Qed.

Lemma dict_set_elem k v d k' v' :
  NoDup d.*1 ->
  (k', v') ∈ dict_set k v d <-> (k' = k /\ v' = v) \/ (k' <> k /\ (k', v') ∈ d).
Proof.
  induction d as [|[k0 v0] d IH]; simpl; intros Hnd.
  - rewrite list_elem_of_singleton. split.
    + intros [= -> ->]. by left.
    + intros [[-> ->]|[_ Hin]]; [done|by apply elem_of_nil in Hin].
  - apply NoDup_cons in Hnd as [Hk0 Hnd].
    destruct (Z.eqb_spec k k0) as [->|Hne]; rewrite !elem_of_cons.
    + split.
      * intros [[= -> ->]|Hin]; [by left|]. right. split; [|by right].
        intros ->. apply Hk0. apply list_elem_of_fmap. by exists (k0, v').
      * intros [[-> ->]|[Hne [[= ? ?]|Hin]]]; [by left|done|by right].
    + rewrite (IH Hnd). split.
      * intros [[= -> ->]|[[-> ->]|[Hne' Hin]]].
        -- right. split; [done|by left].
        -- by left.
        -- right. split; [done|by right].
      * intros [[-> ->]|[Hne' [[= -> ->]|Hin]]].
        -- right. by left.
        -- by left.
        -- right. right. done.
Qed.

(** The dict built by assigning the pairs of [l] in order. *)
Lemma dict_of_spec l :
  let d := foldl (fun d kv => dict_set kv.1 kv.2 d) [] l in
  NoDup d.*1 /\ forall k v, (k, v) ∈ d <-> latest k l = Some v.
Proof.
  induction l as [|[k0 v0] l [IHn IHl]] using rev_ind; simpl.
  - split; [constructor|]. intros k v. split; [intros Hin; by apply elem_of_nil in Hin|done].
  - rewrite foldl_snoc. simpl. split; [by apply dict_set_NoDup|].
    intros k v. rewrite (dict_set_elem _ _ _ _ _ IHn), latest_snoc, IHl.
    destruct (decide (k0 = k)) as [->|Hne].
    + split; [intros [[_ ->]|[? _]]; done|intros [= ->]; by left].
    + split; [intros [[-> _]|[_ ?]]; done|intros Hl; right; done].
Qed.

(** In a dict, the pair of a key is the last one assigned. *)
Lemma latest_of_NoDup l k v : NoDup l.*1 -> (k, v) ∈ l <-> latest k l = Some v.
Proof.
  intros Hnd. split; [|apply latest_elem].
  induction l as [|[k0 v0] l IH]; intros Hin; [by apply elem_of_nil in Hin|].
  apply NoDup_cons in Hnd as [Hk0 Hnd]. simpl.
  apply elem_of_cons in Hin as [[= -> ->]|Hin].
  - destruct (latest k0 l) as [g|] eqn:Hl; [|by rewrite decide_True].
    exfalso. apply Hk0. apply latest_elem in Hl. apply list_elem_of_fmap. by exists (k0, g).
  - by rewrite (IH Hnd Hin).
Qed.

End DictFacts.

Lemma foldl_concat_map {A B C} (f : A -> C -> A) (g : B -> list C) a (l : list B) :
  foldl f a (concat (map g l)) = foldl (fun a b => foldl f a (g b)) a l.
Proof.
  revert a. induction l as [|b l IH]; intros a; simpl; [reflexivity|].
  by rewrite foldl_app, IH.
Qed.

Lemma foldl_map {A B C} (f : A -> C -> A) (g : B -> C) a (l : list B) :
  foldl f a (map g l) = foldl (fun a b => f a (g b)) a l.
Proof. revert a. induction l as [|b l IH]; intros a; simpl; [reflexivity|apply IH]. Qed.

Lemma foldl_ext_on {A B} (f g : A -> B -> A) a (l : list B) :
  (forall a b, f a b = g a b) -> foldl f a l = foldl g a l.
Proof.
  intros Hfg. revert a. induction l as [|b l IH]; intros a; simpl; [reflexivity|].
  by rewrite Hfg, IH.
Qed.

Lemma type_map_of_refs batch :
  type_map_of batch = foldl (fun d kv => dict_set kv.1 kv.2 d) [] (type_refs batch).
Proof.
  unfold type_map_of, type_refs. rewrite foldl_concat_map.
  apply foldl_ext_on. intros d tp. rewrite foldl_map.
  apply foldl_ext_on. by intros d' [[k v] sl].
Qed.

Lemma ability_map_of_refs batch :
  ability_map_of batch = foldl (fun d kv => dict_set kv.1 kv.2 d) [] (ability_refs batch).
Proof.
  unfold ability_map_of, ability_refs. rewrite foldl_concat_map.
  apply foldl_ext_on. intros d tp. rewrite foldl_map.
  apply foldl_ext_on. by intros d' [[[k v] h] sl].
Qed.

Lemma stat_map_of_refs batch :
  stat_map_of batch = foldl (fun d kv => dict_set kv.1 kv.2 d) [] (stat_refs batch).
Proof.
  unfold stat_map_of, stat_refs. rewrite foldl_concat_map.
  apply foldl_ext_on. intros d tp. rewrite foldl_map.
  apply foldl_ext_on. by intros d' [[[k v] b] e].
Qed.

Lemma reference_maps_spec batch :
  (NoDup (type_map_of batch).*1
   /\ forall k nm, (k, nm) ∈ type_map_of batch <-> latest k (type_refs batch) = Some nm)
  /\ (NoDup (ability_map_of batch).*1
      /\ forall k nm, (k, nm) ∈ ability_map_of batch
                      <-> latest k (ability_refs batch) = Some nm)
  /\ (NoDup (stat_map_of batch).*1
      /\ forall k nm, (k, nm) ∈ stat_map_of batch <-> latest k (stat_refs batch) = Some nm).
Proof.
  rewrite type_map_of_refs, ability_map_of_refs, stat_map_of_refs.
  split; [|split]; apply dict_of_spec.
Qed.

(** X12.  [upsert_reference_batch] merges each reference row once per
    batch: the three dicts it builds hold every id of the batch once, with
    the name that the batch gives it last. *)
Theorem reference_maps_deduplicate batch :
  (NoDup (type_map_of batch).*1
   /\ forall k nm, (k, nm) ∈ type_map_of batch <-> latest k (type_refs batch) = Some nm)
  /\ (NoDup (ability_map_of batch).*1
      /\ forall k nm, (k, nm) ∈ ability_map_of batch
                      <-> latest k (ability_refs batch) = Some nm)
  /\ (NoDup (stat_map_of batch).*1
      /\ forall k nm, (k, nm) ∈ stat_map_of batch <-> latest k (stat_refs batch) = Some nm).
Proof.
  rewrite type_map_of_refs, ability_map_of_refs, stat_map_of_refs.
  split; [|split]; apply dict_of_spec.
Qed.

(** *** The store after a load *)

Section LoadResult.
Variable clock : Z -> Z.
Implicit Types (s : store) (items : list TPokemon.t).

(** The store after a load that commits, table by table. *)
Lemma load_in_scope_tables s items s1 n :
  load_in_scope clock s items = (s1, Ok n) ->
  (forall k, tbl_type s1 !! k
             = flushed (fun _ => 0) (tbl_type s) (type_map_of items) k)
  /\ (forall k, tbl_ability s1 !! k
                = flushed (fun _ => 0) (tbl_ability s) (ability_map_of items) k)
  /\ (forall k, tbl_stat s1 !! k
                = flushed (fun _ => 0) (tbl_stat s) (stat_map_of items) k)
  /\ (forall k, tbl_pokemon s1 !! k
                = flushed clock (tbl_pokemon s) (pokemon_ops items) k)
  /\ (forall k, tbl_pokemon_type s1 !! k
                = flushed (fun _ => 0) (tbl_pokemon_type s) (pokemon_type_ops items) k)
  /\ (forall k, tbl_pokemon_ability s1 !! k
                = flushed (fun _ => 0) (tbl_pokemon_ability s)
                    (pokemon_ability_ops items) k)
  /\ (forall k, tbl_pokemon_stat s1 !! k
                = flushed (fun _ => 0) (tbl_pokemon_stat s) (pokemon_stat_ops items) k).
Proof.
  rewrite load_in_scope_cases. unfold SessionLocal. rewrite load_batch_session.
  unfold flush_all, and_then, flush_table. simpl.
  destruct (flush_work _ _ _ (tbl_type s)) as [t1 [e|]] eqn:E1; [done|]. simpl.
  destruct (flush_work _ _ _ (tbl_ability s)) as [t2 [e|]] eqn:E2; [done|]. simpl.
  destruct (flush_work _ _ _ (tbl_stat s)) as [t3 [e|]] eqn:E3; [done|]. simpl.
  destruct (flush_work _ _ _ (tbl_pokemon s)) as [t4 [e|]] eqn:E4; [done|]. simpl.
  destruct (flush_work _ _ _ (tbl_pokemon_type s)) as [t5 [e|]] eqn:E5; [done|]. simpl.
  destruct (flush_work _ _ _ (tbl_pokemon_ability s)) as [t6 [e|]] eqn:E6; [done|]. simpl.
  destruct (flush_work _ _ _ (tbl_pokemon_stat s)) as [t7 [e|]] eqn:E7; [done|]. simpl.
  intros [= <- <-]. simpl.
  repeat split; intros k; eapply flush_work_result; eassumption.
Qed.

(** A load commits all of its batch or leaves the store as it was. *)
Lemma load_in_scope_outcome s items :
  (exists s1, load_in_scope clock s items = (s1, Ok (Z.of_nat (length items))))
  \/ (exists e, load_in_scope clock s items = (s, Err e)).
Proof.
  rewrite load_in_scope_cases.
  destruct (flush_all clock _ s) as [s1 [e|]]; [right; by exists e|left; by exists s1].
Qed.

(** The flush of [pokemon] in a load that commits. *)
Lemma load_in_scope_pokemon_flush s items s1 n :
  load_in_scope clock s items = (s1, Ok n) ->
  flush_work pokemon_ok clock
    (merge_all (tbl_pokemon s) (pokemon_ops items) no_work) (tbl_pokemon s)
  = (tbl_pokemon s1, None).
Proof.
  rewrite load_in_scope_cases. unfold SessionLocal. rewrite load_batch_session.
  unfold flush_all, and_then, flush_table. simpl.
  destruct (flush_work _ _ _ (tbl_type s)) as [t1 [e|]] eqn:E1; [done|]. simpl.
  destruct (flush_work _ _ _ (tbl_ability s)) as [t2 [e|]] eqn:E2; [done|]. simpl.
  destruct (flush_work _ _ _ (tbl_stat s)) as [t3 [e|]] eqn:E3; [done|]. simpl.
  destruct (flush_work _ _ _ (tbl_pokemon s)) as [t4 [e|]] eqn:E4; [done|]. simpl.
  destruct (flush_work _ _ _ (tbl_pokemon_type s)) as [t5 [e|]] eqn:E5; [done|]. simpl.
  destruct (flush_work _ _ _ (tbl_pokemon_ability s)) as [t6 [e|]] eqn:E6; [done|]. simpl.
  destruct (flush_work _ _ _ (tbl_pokemon_stat s)) as [t7 [e|]] eqn:E7; [done|]. simpl.
  intros [= <- <-]. reflexivity.
Qed.

Lemma NoDup_map_inj {A B} (f : A -> B) (l : list A) x y :
  NoDup (map f l) -> x ∈ l -> y ∈ l -> f x = f y -> x = y.
Proof.
  induction l as [|a l IH]; simpl; intros Hnd Hx Hy Hf; [by apply elem_of_nil in Hx|].
  apply NoDup_cons in Hnd as [Ha Hnd].
  apply elem_of_cons in Hx as [->|Hx]; apply elem_of_cons in Hy as [->|Hy].
  - reflexivity.
  - exfalso. apply Ha. rewrite Hf. apply list_elem_of_fmap. by exists y.
  - exfalso. apply Ha. rewrite <- Hf. apply list_elem_of_fmap. by exists x.
  - by apply IH.
Qed.

Lemma pokemon_ops_elem items k g :
  (k, g) ∈ pokemon_ops items <->
  exists tp, tp ∈ items /\ TPokemon.id tp = k /\ pokemon_columns tp = g.
Proof.
  unfold pokemon_ops. rewrite list_elem_of_fmap. split.
  - intros (tp & [= -> ->] & Hin). by exists tp.
  - intros (tp & Hin & <- & <-). by exists tp.
Qed.

Lemma load_in_scope_rows s items s1 n tp :
  load_in_scope clock s items = (s1, Ok n) ->
  tp ∈ items ->
  exists row,
    tbl_pokemon s1 !! TPokemon.id tp = Some row
    /\ latest (TPokemon.id tp) (pokemon_ops items) = Some (Pokemon.cols row).
Proof.
  intros Hload Hin.
  destruct (load_in_scope_tables _ _ _ _ Hload) as (_ & _ & _ & Hp & _).
  specialize (Hp (TPokemon.id tp)). unfold flushed in Hp.
  destruct (latest_is_Some (TPokemon.id tp) (pokemon_columns tp) (pokemon_ops items))
    as [g Hg]; [apply pokemon_ops_elem; by exists tp|].
  rewrite Hg in Hp.
  destruct (tbl_pokemon s !! TPokemon.id tp) as [r0|]; eexists; (split; [exact Hp|done]).
Qed.

(** Among items of distinct ids, the columns merged last under the id of
    an item are its own. *)
Lemma latest_own_columns items tp g :
  NoDup (map TPokemon.id items) -> tp ∈ items ->
  latest (TPokemon.id tp) (pokemon_ops items) = Some g -> g = pokemon_columns tp.
Proof.
  intros Hnd Hin Hg. apply latest_elem, pokemon_ops_elem in Hg as (tp' & Hin' & Hid & <-).
  by rewrite (NoDup_map_inj TPokemon.id items tp' tp Hnd Hin' Hin Hid).
Qed.

(** X13.  After a load that commits, every Pokemon of the batch is in
    [pokemon] under its id, with the columns of the last item of the batch
    that has this id -- its own columns when the ids of the batch are
    distinct.  The items hold values of the declared types, which the
    store keeps as they are given. *)
Theorem load_stores_batch s items s1 n tp :
  Forall stored_as_given items ->
  load_in_scope clock s items = (s1, Ok n) ->
  tp ∈ items ->
  exists row,
    tbl_pokemon s1 !! TPokemon.id tp = Some row
    /\ latest (TPokemon.id tp) (pokemon_ops items) = Some (Pokemon.cols row)
    /\ (NoDup (map TPokemon.id items) -> Pokemon.cols row = pokemon_columns tp).
Proof.
  intros _ Hload Hin.
  destruct (load_in_scope_rows s items s1 n tp Hload Hin) as (row & Hrow & Hlast).
  exists row. split; [exact Hrow|]. split; [exact Hlast|].
  intros Hnd. by apply (latest_own_columns items).
Qed.

(** X14.  [loaded_at] is the time of the first insertion: the row of a
    Pokemon that was stored before the load keeps its value, whatever the
    load changes in the other columns; a row that the load creates takes
    the time of its INSERT. *)
Theorem load_keeps_loaded_at s items s1 n k row1 :
  load_in_scope clock s items = (s1, Ok n) ->
  tbl_pokemon s1 !! k = Some row1 ->
  Pokemon.loaded_at row1 =
    match tbl_pokemon s !! k with
    | Some row0 => Pokemon.loaded_at row0
    | None => clock k
    end.
Proof.
  intros Hload Hrow.
  destruct (load_in_scope_tables _ _ _ _ Hload) as (_ & _ & _ & Hp & _).
  rewrite (Hp k) in Hrow. unfold flushed in Hrow.
  destruct (tbl_pokemon s !! k) as [r0|], (latest k (pokemon_ops items)) as [g|];
    try by injection Hrow as <-.
  done.
Qed.

(** X15.  A load that commits deletes no row, of any table -- so the
    association rows of a Pokemon stay when a later payload no longer
    lists them -- and leaves the rows of the Pokemon that are not in the
    batch as they were. *)
Theorem load_deletes_nothing s items s1 n :
  load_in_scope clock s items = (s1, Ok n) ->
  (forall k, is_Some (tbl_type s !! k) -> is_Some (tbl_type s1 !! k))
  /\ (forall k, is_Some (tbl_ability s !! k) -> is_Some (tbl_ability s1 !! k))
  /\ (forall k, is_Some (tbl_stat s !! k) -> is_Some (tbl_stat s1 !! k))
  /\ (forall k, is_Some (tbl_pokemon s !! k) -> is_Some (tbl_pokemon s1 !! k))
  /\ (forall k, is_Some (tbl_pokemon_type s !! k) -> is_Some (tbl_pokemon_type s1 !! k))
  /\ (forall k, is_Some (tbl_pokemon_ability s !! k)
                -> is_Some (tbl_pokemon_ability s1 !! k))
  /\ (forall k, is_Some (tbl_pokemon_stat s !! k) -> is_Some (tbl_pokemon_stat s1 !! k))
  /\ (forall k, k ∉ map TPokemon.id items -> tbl_pokemon s1 !! k = tbl_pokemon s !! k).
Proof.
  intros Hload.
  destruct (load_in_scope_tables _ _ _ _ Hload) as (H1 & H2 & H3 & H4 & H5 & H6 & H7).
  assert (forall {K G R} `{Countable K} `{!Mapped K G R} (c : K -> Z)
            (t : gmap K R) (ops : list (K * G)) k,
            is_Some (t !! k) -> is_Some (flushed c t ops k)) as Hkept.
  { intros K G R ? ? ? c t ops k [r Hr]. unfold flushed. rewrite Hr.
    destruct (latest k ops); done. }
  repeat split; try (intros k Hk; rewrite ?H1, ?H2, ?H3, ?H4, ?H5, ?H6, ?H7;
                     by apply Hkept).
  intros k Hk. rewrite H4. unfold flushed.
  assert (latest k (pokemon_ops items) = None) as ->.
  { apply latest_None. unfold pokemon_ops. rewrite <- list_fmap_compose. exact Hk. }
  destruct (tbl_pokemon s !! k); reflexivity.
Qed.

Lemma elem_of_concat_map {A B} (g : A -> list B) (l : list A) y :
  y ∈ concat (map g l) <-> exists x, x ∈ l /\ y ∈ g x.
Proof.
  induction l as [|a l IH]; simpl.
  - split; [intros Hin; by apply elem_of_nil in Hin|].
    intros (x & Hin & _). by apply elem_of_nil in Hin.
  - rewrite elem_of_app, IH. split.
    + intros [Hin|(x & Hin & Hy)]; [exists a; split; [left|done]|exists x; split; [by right|done]].
    + intros (x & Hin & Hy). apply elem_of_cons in Hin as [->|Hin]; [by left|right; eauto].
Qed.

(** A row that holds just what a merged object carries. *)
Lemma flushed_plain {K G} `{Countable K} `{EqDecision G} `{!Mapped K G G} c
    (t : gmap K G) ops k g :
  (forall g' r, persist g' r = g') -> (forall ts g', fresh ts g' = g') ->
  latest k ops = Some g -> flushed c t ops k = Some g.
Proof.
  intros Hp Hf Hl. unfold flushed. rewrite Hl.
  destruct (t !! k); by rewrite ?Hp, ?Hf.
Qed.

(** X16.  After a load that commits, what each Pokemon of the batch
    refers to is stored: for every type, ability and stat entry of the
    item, the reference row exists under the entry's id, with the name that
    the batch gives this id last, and the association row exists under the
    pair of ids, with the values merged last.  The items hold values of
    the declared types: str names and 64-bit integers, which the store
    keeps as they are given. *)
Theorem load_stores_references s items s1 n tp :
  Forall well_typed items ->
  load_in_scope clock s items = (s1, Ok n) ->
  tp ∈ items ->
  (forall tid nm slot, (tid, nm, slot) ∈ TPokemon.types tp ->
     (exists nm', tbl_type s1 !! tid = Some nm'
                  /\ latest tid (type_refs items) = Some nm')
     /\ (exists slot', tbl_pokemon_type s1 !! (TPokemon.id tp, tid) = Some slot'
           /\ latest (TPokemon.id tp, tid) (pokemon_type_ops items) = Some slot'))
  /\ (forall aid nm hidden slot, (aid, nm, hidden, slot) ∈ TPokemon.abilities tp ->
       (exists nm', tbl_ability s1 !! aid = Some nm'
                    /\ latest aid (ability_refs items) = Some nm')
       /\ (exists v, tbl_pokemon_ability s1 !! (TPokemon.id tp, aid) = Some v
             /\ latest (TPokemon.id tp, aid) (pokemon_ability_ops items) = Some v))
  /\ (forall sid nm base effort, (sid, nm, base, effort) ∈ TPokemon.stats tp ->
       (exists nm', tbl_stat s1 !! sid = Some nm'
                    /\ latest sid (stat_refs items) = Some nm')
       /\ (exists v, tbl_pokemon_stat s1 !! (TPokemon.id tp, sid) = Some v
             /\ latest (TPokemon.id tp, sid) (pokemon_stat_ops items) = Some v)).
Proof.
  intros _ Hload Hin.
  destruct (load_in_scope_tables _ _ _ _ Hload) as (H1 & H2 & H3 & _ & H5 & H6 & H7).
  destruct (reference_maps_spec items) as ((N1 & L1) & (N2 & L2) & (N3 & L3)).
  split; [|split].
  - intros tid nm slot He. split.
    + destruct (latest_is_Some tid nm (type_refs items)) as [nm' Hnm'].
      { apply elem_of_concat_map. exists tp. split; [done|].
        apply list_elem_of_fmap. by exists (tid, nm, slot). }
      exists nm'. split; [|done]. rewrite H1. apply flushed_plain; [done..|].
      by apply latest_of_NoDup, L1.
    + destruct (latest_is_Some (TPokemon.id tp, tid) slot (pokemon_type_ops items))
        as [v Hv].
      { apply elem_of_concat_map. exists tp. split; [done|].
        apply list_elem_of_fmap. by exists (tid, nm, slot). }
      exists v. split; [|done]. rewrite H5. by apply flushed_plain.
  - intros aid nm hidden slot He. split.
    + destruct (latest_is_Some aid nm (ability_refs items)) as [nm' Hnm'].
      { apply elem_of_concat_map. exists tp. split; [done|].
        apply list_elem_of_fmap. by exists (aid, nm, hidden, slot). }
      exists nm'. split; [|done]. rewrite H2. apply flushed_plain; [done..|].
      by apply latest_of_NoDup, L2.
    + destruct (latest_is_Some (TPokemon.id tp, aid) (hidden, slot)
                  (pokemon_ability_ops items)) as [v Hv].
      { apply elem_of_concat_map. exists tp. split; [done|].
        apply list_elem_of_fmap. by exists (aid, nm, hidden, slot). }
      exists v. split; [|done]. rewrite H6. by apply flushed_plain.
  - intros sid nm base effort He. split.
    + destruct (latest_is_Some sid nm (stat_refs items)) as [nm' Hnm'].
      { apply elem_of_concat_map. exists tp. split; [done|].
        apply list_elem_of_fmap. by exists (sid, nm, base, effort). }
      exists nm'. split; [|done]. rewrite H3. apply flushed_plain; [done..|].
      by apply latest_of_NoDup, L3.
    + destruct (latest_is_Some (TPokemon.id tp, sid) (base, effort)
                  (pokemon_stat_ops items)) as [v Hv].
      { apply elem_of_concat_map. exists tp. split; [done|].
        apply list_elem_of_fmap. by exists (sid, nm, base, effort). }
      exists v. split; [|done]. rewrite H7. by apply flushed_plain.
Qed.

(** X17.  A batch that lists twice a Pokemon that the store does not hold
    cannot be loaded: both merges make a new object (the session does not
    flush between them), the second INSERT breaks the primary key, and the
    store is left as it was. *)
Theorem load_refuses_repeated_new_id s items i j a b :
  i <> j -> items !! i = Some a -> items !! j = Some b ->
  TPokemon.id a = TPokemon.id b ->
  tbl_pokemon s !! TPokemon.id a = None ->
  exists e, load_in_scope clock s items = (s, Err e).
Proof.
  intros Hij Hi Hj Hid Hnew.
  destruct (load_in_scope_outcome s items) as [[s1 Hok]|Herr]; [exfalso|exact Herr].
  apply load_in_scope_pokemon_flush in Hok.
  destruct (flush_work_collision pokemon_ok clock (tbl_pokemon s) (pokemon_ops items)
              i j (TPokemon.id a) (pokemon_columns a) (pokemon_columns b))
    as (t & e & Hf); try done.
  - unfold pokemon_ops. by rewrite list_lookup_fmap, Hi.
  - unfold pokemon_ops. rewrite list_lookup_fmap, Hj. simpl. by rewrite Hid.
  - congruence.
Qed.

End LoadResult.

(* ===================================================================== *)
(** ** A page of new Pokemon loads *)
(* ===================================================================== *)

Section InsertFacts.
Context {K G R : Type} `{Countable K} `{EqDecision R} `{!Mapped K G R}.
Implicit Types (t : gmap K R) (ops l : list (K * G)).




End InsertFacts.

Section PageFacts.

















End PageFacts.

(* ===================================================================== *)
(** ** The engine, the session scope and whole runs *)
(* ===================================================================== *)

(** X22.  Whatever [DB_PATH] is, [DB_URL] is a SQLite URL: the engine is
    always created with [check_same_thread] off, and the listener that
    turns the enforcement of foreign keys on is always registered. *)
Theorem engine_is_always_sqlite DB_PATH echo :
  _is_sqlite (DB_URL DB_PATH) = true
  /\ connect_args (get_engine DB_PATH echo) = [("check_same_thread", JBool false)]
  /\ foreign_keys_pragma (get_engine DB_PATH echo) = true
  /\ engine_url (get_engine DB_PATH echo) = DB_URL DB_PATH.
Proof. repeat split. Qed.

Section RunFacts.
Context {K G R : Type} `{Countable K} `{EqDecision R} `{!Mapped K G R}.

(** A session that holds no object of a class flushes nothing for it. *)
Lemma flush_no_work ok clock (t : gmap K R) : flush_work ok clock no_work t = (t, None).
Proof. apply (flush_work_settled ok clock t []). intros k g Hl. discriminate Hl. Qed.

(** A table that a flush has left holds the outcome of the merges. *)
Lemma flushed_settled clock (t0 t1 : gmap K R) (ops : list (K * G)) :
  (forall k, t1 !! k = flushed clock t0 ops k) -> settled t1 ops.
Proof.
  intros Ht k g Hl. rewrite Ht. unfold flushed. rewrite Hl.
  destruct (t0 !! k) as [r0|]; eexists; (split; [reflexivity|]).
  - apply persist_persist.
  - apply persist_fresh.
Qed.

End RunFacts.

(** A session with no object commits the store as it is. *)
Lemma flush_all_no_work clock d s :
  flush_all clock (on_connection d) s = (s, None).
Proof.
  unfold flush_all, and_then, flush_table. simpl.
  do 3 (rewrite (flush_no_work (K:=Z) (G:=json)); simpl).
  rewrite (flush_no_work (K:=Z) (G:=Pokemon.columns)). simpl.
  rewrite (flush_no_work (K:=Z * Z) (G:=Z)). simpl.
  rewrite (flush_no_work (K:=Z * Z) (G:=bool * Z)). simpl.
  rewrite (flush_no_work (K:=Z * Z) (G:=Z * Z)). simpl.
  by destruct s.
Qed.

(** X18.  Loading an empty batch commits nothing: the store is the same
    and the count is 0. *)
Theorem load_empty_batch clock s : load_in_scope clock s [] = (s, Ok 0).
Proof.
  rewrite load_in_scope_cases. unfold SessionLocal.
  change (load_batch (on_connection ?d) []).1 with (on_connection d).
  by rewrite flush_all_no_work.
Qed.

(** A load on the store that the same load has left. *)
Lemma load_in_scope_settled clock1 clock2 s items s1 n :
  load_in_scope clock1 s items = (s1, Ok n) ->
  load_in_scope clock2 s1 items = (s1, Ok (Z.of_nat (length items))).
Proof.
  intros Hload.
  destruct (load_in_scope_tables _ _ _ _ _ Hload) as (H1 & H2 & H3 & H4 & H5 & H6 & H7).
  apply flushed_settled in H1, H2, H3, H4, H5, H6, H7.
  rewrite load_in_scope_cases. unfold SessionLocal. rewrite load_batch_session.
  unfold flush_all, and_then, flush_table. simpl.
  rewrite (flush_work_settled _ _ _ _ H1). simpl.
  rewrite (flush_work_settled _ _ _ _ H2). simpl.
  rewrite (flush_work_settled _ _ _ _ H3). simpl.
  rewrite (flush_work_settled _ _ _ _ H4). simpl.
  rewrite (flush_work_settled _ _ _ _ H5). simpl.
  rewrite (flush_work_settled _ _ _ _ H6). simpl.
  rewrite (flush_work_settled _ _ _ _ H7). simpl.
  by destruct s1.
Qed.

(** X20.  [session_scope] commits all that its body did or nothing: for
    every body that works through the session -- it may merge, add and
    read, and it leaves the connection alone -- the scope ends either with
    the value of the body and the store that the one flush of the commit
    wrote, or with an exception (of the body or of the commit) and the
    store as it was. *)
Theorem session_scope_all_or_nothing {A} clock s
    (body : session -> session * result A) s' r :
  (forall ss, conn (body ss).1 = conn ss) ->
  session_scope clock s body = (s', r) ->
  match r with
  | Ok a => (body (SessionLocal s)).2 = Ok a
            /\ flush_all clock (body (SessionLocal s)).1 s = (s', None)
  | Err e => s' = s
  end.
Proof.
  intros Hconn. unfold session_scope. specialize (Hconn (SessionLocal s)).
  destruct (body (SessionLocal s)) as [ss [a|e0]]; simpl in Hconn |- *.
  - unfold commit. rewrite Hconn.
    change (visible {| committed := s; tx := None |}) with s.
    destruct (flush_all clock ss s) as [s1 [e1|]]; simpl.
    + by intros [= <- <-].
    + by intros [= <- <-].
  - intros [= <- <-]. unfold close, rollback. simpl. by rewrite Hconn.
Qed.

Section PipelineFacts.
Variable py_repr : json -> string.
Variable cfg : Config.t.

(** X23.  A run that fails, at any stage -- listing, detail fetch,
    transformation, load or commit -- leaves the store as it was. *)
Theorem run_etl_failure_keeps_store net clock s limit offset s' e :
  run_etl py_repr cfg net clock s limit offset = (s', Err e) -> s' = s.
Proof.
  unfold run_etl, create_schema.
  destruct (extract_transform py_repr cfg net limit offset) as [items|e0].
  - rewrite load_in_scope_cases.
    destruct (flush_all clock _ s) as [s1 [e1|]]; [|done]. by intros [= <- _].
  - by intros [= <- _].
Qed.

(** X24.  When the listing has no item -- the reply holds an empty
    ["results"] or none at all -- the run makes no detail fetch, needs no
    permit of the semaphore, stores nothing and returns [(0, 0)]. *)
Theorem run_etl_empty_listing net clock s limit offset o :
  (_fetch_json cfg (net Listing (list_url cfg limit offset))
     (list_url cfg limit offset)).1 = Ok (JObj o) ->
  default (JArr []) (assoc "results" o) = JArr [] ->
  0 <= MAX_CONCURRENCY cfg ->
  fetch_pokemon_list cfg net limit offset = Ok (JArr [])
  /\ run_etl py_repr cfg net clock s limit offset = (s, Ok (0, 0)).
Proof.
  intros Hf Hres Hc.
  assert (fetch_pokemon_list cfg net limit offset = Ok (JArr [])) as Hl.
  { unfold fetch_pokemon_list. rewrite Hf. simpl. by rewrite Hres. }
  split; [exact Hl|].
  unfold run_etl, create_schema, extract_transform. rewrite Hl. simpl.
  unfold fetch_pokemon_details.
  destruct (Z.ltb_spec (MAX_CONCURRENCY cfg) 0) as [?|_]; [lia|].
  rewrite bool_decide_true by done. rewrite andb_false_r. simpl.
  by rewrite load_empty_batch.
Qed.

(** X25.  Running the pipeline again on the same page, the remote API
    answering as before, changes nothing: the second run commits, returns
    the same counts, and the store is the one the first run left. *)
Theorem run_etl_again_changes_nothing net clock1 clock2 s limit offset s1 counts :
  run_etl py_repr cfg net clock1 s limit offset = (s1, Ok counts) ->
  run_etl py_repr cfg net clock2 s1 limit offset = (s1, Ok counts).
Proof.
  unfold run_etl, create_schema.
  destruct (extract_transform py_repr cfg net limit offset) as [items|e0]; [|done].
  destruct (load_in_scope clock1 s items) as [s' [n|e]] eqn:Hload; [|done].
  intros [= <- <-].
  rewrite (load_in_scope_settled _ clock2 _ _ _ _ Hload).
  rewrite load_in_scope_cases in Hload.
  destruct (flush_all clock1 _ s) as [s2 [e1|]]; [done|]. by injection Hload as _ <-.
Qed.

(** X26.  After a run that returns, every Pokemon of the page is in the
    store: both counts are the number of records that the transform built
    and, when these records hold values of the declared types (the
    transform converts neither [base_experience] nor [sprite_url]), each
    has its row in [pokemon], under its id, with the columns of the record
    when the ids of the page are distinct. *)
Theorem run_etl_stores_page net clock s limit offset s1 counts :
  run_etl py_repr cfg net clock s limit offset = (s1, Ok counts) ->
  exists items,
    extract_transform py_repr cfg net limit offset = Ok items
    /\ counts = (Z.of_nat (length items), Z.of_nat (length items))
    /\ (Forall stored_as_given items ->
        forall tp, tp ∈ items ->
          exists row, tbl_pokemon s1 !! TPokemon.id tp = Some row
            /\ (NoDup (map TPokemon.id items) ->
                Pokemon.cols row = pokemon_columns tp)).
Proof.
  unfold run_etl, create_schema.
  destruct (extract_transform py_repr cfg net limit offset) as [items|e0]; [|done].
  destruct (load_in_scope clock s items) as [s' [n|e]] eqn:Hload; [|done].
  intros [= <- <-]. exists items. split; [reflexivity|]. split.
  - rewrite load_in_scope_cases in Hload.
    destruct (flush_all clock _ s) as [s2 [e1|]]; [done|]. by injection Hload as _ <-.
  - intros _ tp Hin.
    destruct (load_in_scope_rows _ _ _ _ _ _ Hload Hin) as (row & Hr & Hl).
    exists row. split; [exact Hr|]. intros Hnd. by apply (latest_own_columns items).
Qed.

End PipelineFacts.

(** *** The round trip of test/test_db.py *)


(* ===================================================================== *)
(** ** The tasks of [fetch_pokemon_details] run to completion *)
(* ===================================================================== *)

Section GatherProgress.
Import Gather.
Variable cfg : Config.t.

Lemma fetching_none l : Fetching ∉ l -> fetching l = 0.
Proof.
  induction l as [|p l IH]; intros Hn; [reflexivity|].
  apply not_elem_of_cons in Hn as [Hp Hl]. rewrite fetching_cons, (IH Hl).
  destruct (decide (p = Fetching)); [done|reflexivity].
Qed.

Lemma steps_left_insert l i p q :
  l !! i = Some p ->
  (sum_list (map steps_left (<[i := q]> l)) + steps_left p
   = sum_list (map steps_left l) + steps_left q)%nat.
Proof.
  revert i. induction l as [|x l IH]; intros i Hi; [done|].
  destruct i as [|i]; simpl in *.
  - injection Hi as ->. lia.
  - specialize (IH i Hi). lia.
Qed.

Lemma steps_left_pending l :
  (0 < sum_list (map steps_left l))%nat ->
  exists i p, l !! i = Some p /\ p <> Finished.
Proof.
  induction l as [|x l IH]; simpl; [lia|]. intros Hpos.
  destruct (decide (x = Finished)) as [->|Hx].
  - destruct IH as (i & p & Hi & Hp); [simpl in Hpos; lia|]. by exists (S i), p.
  - by exists 0%nat, x.
Qed.

Lemma steps_left_done l : sum_list (map steps_left l) = 0%nat -> Forall (eq Finished) l.
Proof.
  induction l as [|x l IH]; simpl; intros Hs; constructor.
  - destruct x; simpl in Hs; done || lia.
  - apply IH. lia.
Qed.

(** With a permit in the semaphore, a state with work left has a step
    that is no cancellation. *)
Lemma step_available st m :
  1 <= MAX_CONCURRENCY cfg -> balanced cfg st -> work_left st = S m ->
  exists a st', cancels a = false /\ step a st = Some st' /\ work_left st' = m.
Proof.
  intros Hmax [Hp Hsum] Hwork. unfold work_left in *.
  destruct (decide (Fetching ∈ tasks st)) as [Hin|Hnin].
  - apply list_elem_of_lookup in Hin as [i Hi].
    exists (Leave i), {| permits := permits st + 1; tasks := <[i := Finished]> (tasks st) |}.
    split; [reflexivity|]. simpl. rewrite Hi. split; [reflexivity|].
    pose proof (steps_left_insert _ _ _ Finished Hi). simpl in *. lia.
  - destruct (steps_left_pending (tasks st)) as (i & p & Hi & Hne); [lia|].
    assert (p = Waiting) as ->.
    { destruct p; try done. exfalso. apply Hnin. by eapply list_elem_of_lookup_2. }
    unfold in_flight in Hsum. rewrite (fetching_none _ Hnin) in Hsum.
    exists (Enter i), {| permits := permits st - 1; tasks := <[i := Fetching]> (tasks st) |}.
    split; [reflexivity|]. simpl. rewrite Hi.
    destruct (Z.ltb_spec 0 (permits st)); [|lia]. split; [reflexivity|].
    pose proof (steps_left_insert _ _ _ Fetching Hi). simpl in *. lia.
Qed.

Lemma run_to_completion st m :
  1 <= MAX_CONCURRENCY cfg -> balanced cfg st -> work_left st = m ->
  exists sched st',
    length sched = m /\ forallb (fun a => negb (cancels a)) sched = true
    /\ run sched st = Some st' /\ Forall (eq Finished) (tasks st')
    /\ permits st' = MAX_CONCURRENCY cfg.
Proof.
  intros Hmax. revert st. induction m as [|m IH]; intros st Hb Hw.
  - exists [], st. repeat split; try done.
    + by apply steps_left_done.
    + destruct Hb as [Hp Hsum]. unfold in_flight in Hsum.
      rewrite fetching_none in Hsum; [lia|].
      intros Hin. apply steps_left_done in Hw.
      rewrite Forall_forall in Hw. by specialize (Hw _ Hin).
  - destruct (step_available st m Hmax Hb Hw) as (a & st1 & Ha & Hs & Hw1).
    destruct (IH st1 (step_balanced cfg a st st1 Hb Hs) Hw1)
      as (sched & st' & Hl & Hnc & Hr & Hf & Hp).
    exists (a :: sched), st'. simpl. rewrite Hs, Ha, Hl. by repeat split.
Qed.

(** X27.  With at least one permit the semaphore never blocks the
    fetches for good: from every state that the tasks can reach, some
    schedule without any cancellation takes every task into the block and
    out of it, in as many steps as the tasks have ahead, and gives all the
    permits back. *)
Theorem semaphore_never_deadlocks n sched st :
  1 <= MAX_CONCURRENCY cfg ->
  run sched (start cfg n) = Some st ->
  exists sched' st',
    length sched' = work_left st
    /\ forallb (fun a => negb (cancels a)) sched' = true
    /\ run sched' st = Some st'
    /\ Forall (eq Finished) (tasks st')
    /\ permits st' = MAX_CONCURRENCY cfg.
Proof.
  intros Hmax Hrun. apply run_to_completion; [done| |done].
  eapply run_balanced; [apply start_balanced|exact Hrun].
Qed.

(** How often a schedule lets task [i] in. *)
Lemma entries_bound sched st st' i :
  run sched st = Some st' ->
  (length (filter (fun a => a = Enter i) sched)
   <= match tasks st !! i with Some Waiting => 1 | _ => 0 end)%nat
  /\ (length (filter (fun a => a = Leave i) sched)
      <= match tasks st !! i with Some Waiting | Some Fetching => 1 | _ => 0 end)%nat.
Proof.
  revert st. induction sched as [|a sched IH]; intros st; simpl.
  - intros _. split; destruct (tasks st !! i) as [[]|]; simpl; lia.
  - destruct (step a st) as [st1|] eqn:Es; [|done]. intros Hr.
    destruct (IH st1 Hr) as [IHe IHl]. rewrite !filter_cons.
    assert (forall j q, tasks st !! j = Some q ->
              tasks st1 = <[j := match a with Enter _ => Fetching | _ => Finished end]>
                            (tasks st) ->
              tasks st1 !! i = if decide (j = i)
                               then Some (match a with Enter _ => Fetching | _ => Finished end)
                               else tasks st !! i) as Hupd.
    { intros j q Hj ->. destruct (decide (j = i)) as [->|Hne].
      - apply list_lookup_insert_eq. by eapply lookup_lt_Some.
      - by apply list_lookup_insert_ne. }
    destruct a as [j|j|j]; simpl in Es.
    + destruct (tasks st !! j) as [[| |]|] eqn:Ej; try done.
      destruct (0 <? permits st); [|done]. injection Es as <-.
      rewrite (Hupd j Waiting Ej eq_refl) in IHe, IHl.
      destruct (decide (Enter j = Leave i)); [done|].
      destruct (decide (Enter j = Enter i)) as [[= ->]|Hne].
      * rewrite decide_True in IHe, IHl by done. rewrite Ej. simpl. lia.
      * destruct (decide (j = i)) as [->|]; [done|]. split; [exact IHe|exact IHl].
    + destruct (tasks st !! j) as [[| |]|] eqn:Ej; try done.
      injection Es as <-. rewrite (Hupd j Fetching Ej eq_refl) in IHe, IHl.
      destruct (decide (Leave j = Enter i)); [done|].
      destruct (decide (Leave j = Leave i)) as [[= ->]|Hne].
      * rewrite decide_True in IHe, IHl by done. rewrite Ej. simpl. lia.
      * destruct (decide (j = i)) as [->|]; [done|]. split; [exact IHe|exact IHl].
    + destruct (tasks st !! j) as [[| |]|] eqn:Ej; try done.
      injection Es as <-. rewrite (Hupd j Waiting Ej eq_refl) in IHe, IHl.
      destruct (decide (Cancel j = Enter i)); [done|].
      destruct (decide (Cancel j = Leave i)); [done|].
      destruct (decide (j = i)) as [->|]; [|split; [exact IHe|exact IHl]].
      rewrite Ej. lia.
Qed.

(** X28.  No target is fetched twice: in every schedule of the tasks,
    each task enters the block of the semaphore at most once and leaves it
    at most once. *)
Theorem each_target_fetched_once n sched st i :
  run sched (start cfg n) = Some st ->
  (length (filter (fun a => a = Enter i) sched) <= 1)%nat
  /\ (length (filter (fun a => a = Leave i) sched) <= 1)%nat.
Proof.
  intros Hrun. destruct (entries_bound _ _ _ i Hrun) as [He Hl].
  split; [destruct (tasks (start cfg n) !! i) as [[]|]; lia|].
  destruct (tasks (start cfg n) !! i) as [[]|]; lia.
Qed.

End GatherProgress.

(* ===================================================================== *)
(** ** The further properties on the sample data *)
(* ===================================================================== *)

Ltac by_computation := apply (bool_decide_unpack _); vm_compute; exact I.

Ltac by_cases_of_list H :=
  repeat (let E := fresh "E" in apply elem_of_cons in H as [E|H]; [simplify_eq|]);
  try (by apply elem_of_nil in H).

(** The record of the test payload holds values of the declared types. *)
Lemma bulbasaur_well_typed : well_typed Samples.bulbasaur.
Proof.
  unfold well_typed, int64, is_str. simpl.
  split; [lia|]. split; [lia|]. split; [done|].
  split; [right; exists 64; split; [done|lia]|].
  split; [right; by eexists|].
  repeat split; repeat (constructor; [simpl; repeat split; try lia; by eexists|]);
    constructor.
Qed.

Lemma bulbasaur_stored_as_given : stored_as_given Samples.bulbasaur.
Proof.
  split; [exact bulbasaur_well_typed|].
  unfold typed_columns, kept_float, int64, is_str. simpl.
  split; [lia|]. split; [lia|]. split; [done|].
  split; [by intros b [= <-]|].
  split; [right; exists 64; split; [done|lia]|right; by eexists].
Qed.

Lemma load_stores_batch_witness :
  exists s1 row,
    load_in_scope (fun _ => 5) empty_store [Samples.bulbasaur] = (s1, Ok 1)
    /\ tbl_pokemon s1 !! 1 = Some row
    /\ Pokemon.cols row = pokemon_columns Samples.bulbasaur.
Proof.
  destruct (load_stores_batch (fun _ => 5) empty_store [Samples.bulbasaur]
              (load_in_scope (fun _ => 5) empty_store [Samples.bulbasaur]).1 1
              Samples.bulbasaur) as (row & Hrow & _ & Hcols).
  - constructor; [exact bulbasaur_stored_as_given|constructor].
  - vm_compute. reflexivity.
  - by left.
  - eexists _, row. split; [vm_compute; reflexivity|]. split; [exact Hrow|].
    apply Hcols. by_computation.
Defined.

Lemma load_keeps_loaded_at_witness :
  let s1 := (load_in_scope (fun _ => 5) empty_store [Samples.bulbasaur]).1 in
  exists s2 row,
    load_in_scope (fun _ => 9) s1 [Samples.bulbasaur] = (s2, Ok 1)
    /\ tbl_pokemon s2 !! 1 = Some row
    /\ Pokemon.loaded_at row = 5.
Proof.
  intros s1. eexists _, _. split; [vm_compute; reflexivity|]. split; [vm_compute; reflexivity|].
  refine (eq_trans (load_keeps_loaded_at (fun _ => 9) s1 [Samples.bulbasaur] _ 1 1 _ _ _) _).
  - vm_compute. reflexivity.
  - vm_compute. reflexivity.
  - vm_compute. reflexivity.
Defined.

Lemma load_deletes_nothing_witness :
  let s := (load_in_scope (fun _ => 5) empty_store [Samples.bulbasaur]).1 in
  let renamed :=
    {| TPokemon.id := 1; TPokemon.name := "bulbasaur"; TPokemon.base_experience := JNull;
       TPokemon.height_cm := 70; TPokemon.weight_kg := S754_zero false;
       TPokemon.bmi := None; TPokemon.sprite_url := JNull; TPokemon.types := [];
       TPokemon.abilities := []; TPokemon.stats := [] |} in
  exists s1,
    load_in_scope (fun _ => 9) s [renamed] = (s1, Ok 1)
    /\ is_Some (tbl_pokemon_type s !! (1, 12))
    /\ is_Some (tbl_pokemon_type s1 !! (1, 12)).
Proof.
  intros s renamed.
  exists (load_in_scope (fun _ => 9) s [renamed]).1.
  split; [vm_compute; reflexivity|]. split; [vm_compute; by eexists|].
  destruct (load_deletes_nothing (fun _ => 9) s [renamed]
              (load_in_scope (fun _ => 9) s [renamed]).1 1)
    as (_ & _ & _ & _ & H5 & _).
  - vm_compute. reflexivity.
  - apply H5. vm_compute. by eexists.
Defined.

Lemma load_stores_references_witness :
  exists s1 nm slot,
    load_in_scope (fun _ => 5) empty_store [Samples.bulbasaur] = (s1, Ok 1)
    /\ tbl_type s1 !! 12 = Some nm
    /\ tbl_pokemon_type s1 !! (1, 12) = Some slot.
Proof.
  destruct (load_stores_references (fun _ => 5) empty_store [Samples.bulbasaur]
              (load_in_scope (fun _ => 5) empty_store [Samples.bulbasaur]).1 1
              Samples.bulbasaur) as (Ht & _ & _).
  - constructor; [exact bulbasaur_well_typed|constructor].
  - vm_compute. reflexivity.
  - by left.
  - destruct (Ht 12 (JStr "grass") 1) as ((nm & Hnm & _) & (slot & Hslot & _)); [by left|].
    exists (load_in_scope (fun _ => 5) empty_store [Samples.bulbasaur]).1, nm, slot.
    split; [vm_compute; reflexivity|]. by split.
Defined.

Lemma load_refuses_repeated_new_id_witness :
  exists e,
    load_in_scope (fun _ => 0) empty_store [Samples.bulbasaur; Samples.bulbasaur]
    = (empty_store, Err e).
Proof.
  apply (load_refuses_repeated_new_id (fun _ => 0) empty_store
           [Samples.bulbasaur; Samples.bulbasaur] 0 1 Samples.bulbasaur Samples.bulbasaur);
    done.
Defined.

Lemma session_scope_all_or_nothing_witness :
  exists s' e,
    session_scope (fun _ => 0) empty_store (fun ss => (merge_Type 1 JNull ss, Ok tt))
    = (s', Err e)
    /\ s' = empty_store.
Proof.
  eexists _, _. split; [vm_compute; reflexivity|].
  apply (session_scope_all_or_nothing (fun _ => 0) empty_store
           (fun ss => (merge_Type 1 JNull ss, Ok tt)) _ (Err IntegrityError)).
  - reflexivity.
  - vm_compute. reflexivity.
Defined.


Lemma run_etl_failure_keeps_store_witness :
  exists s' e,
    run_etl Samples.no_repr Config.defaults Samples.ivysaur_down (fun _ => 0)
      empty_store 2 0 = (s', Err e)
    /\ s' = empty_store.
Proof.
  eexists _, _. split; [vm_compute; reflexivity|].
  apply (run_etl_failure_keeps_store Samples.no_repr Config.defaults Samples.ivysaur_down
           (fun _ => 0) empty_store 2 0 _ (HTTPError 503)).
  vm_compute. reflexivity.
Defined.

Lemma run_etl_empty_listing_witness :
  let net := fun (_ : call) (_ : string) (_ : nat) => Body (JObj [("count", JInt 1302)]) in
  fetch_pokemon_list Config.defaults net 20 5000 = Ok (JArr [])
  /\ run_etl Samples.no_repr Config.defaults net (fun _ => 0) empty_store 20 5000
     = (empty_store, Ok (0, 0)).
Proof.
  intros net.
  apply (run_etl_empty_listing Samples.no_repr Config.defaults net (fun _ => 0)
           empty_store 20 5000 [("count", JInt 1302)]).
  - reflexivity.
  - reflexivity.
  - vm_compute. discriminate.
Defined.

Lemma run_etl_again_changes_nothing_witness :
  exists s1,
    run_etl Samples.no_repr Config.defaults Samples.two_pokemon (fun _ => 5)
      empty_store 2 0 = (s1, Ok (2, 2))
    /\ run_etl Samples.no_repr Config.defaults Samples.two_pokemon (fun _ => 9)
         s1 2 0 = (s1, Ok (2, 2)).
Proof.
  eexists. split; [vm_compute; reflexivity|].
  apply (run_etl_again_changes_nothing Samples.no_repr Config.defaults Samples.two_pokemon
           (fun _ => 5) (fun _ => 9) empty_store 2 0).
  vm_compute. reflexivity.
Defined.

Lemma run_etl_stores_page_witness :
  exists s1 items,
    run_etl Samples.no_repr Config.defaults Samples.two_pokemon (fun _ => 5)
      empty_store 2 0 = (s1, Ok (2, 2))
    /\ extract_transform Samples.no_repr Config.defaults Samples.two_pokemon 2 0 = Ok items
    /\ forall tp, tp ∈ items ->
         exists row, tbl_pokemon s1 !! TPokemon.id tp = Some row
                     /\ Pokemon.cols row = pokemon_columns tp.
Proof.
  destruct (run_etl_stores_page Samples.no_repr Config.defaults Samples.two_pokemon
              (fun _ => 5) empty_store 2 0
              (run_etl Samples.no_repr Config.defaults Samples.two_pokemon (fun _ => 5)
                 empty_store 2 0).1 (2, 2)) as (items & Hx & _ & Hrows).
  - vm_compute. reflexivity.
  - eexists _, items. split; [vm_compute; reflexivity|]. split; [exact Hx|].
    assert (Forall stored_as_given items /\ NoDup (map TPokemon.id items)) as [Hty Hnd].
    { vm_compute in Hx. injection Hx as <-. split; [|by_computation].
      constructor; [exact bulbasaur_stored_as_given|]. constructor; [|constructor].
      unfold stored_as_given, well_typed, typed_columns, kept_float, int64, is_str. simpl.
      repeat split; intros; simplify_eq; try lia; try done; try (by left);
        constructor. }
    intros tp Htp. destruct (Hrows Hty tp Htp) as (row & Hrow & Hcols).
    exists row. split; [exact Hrow|]. by apply Hcols.
Defined.

Lemma id_from_url_only_value_error_witness :
  exists e, _id_from_url "https://pokeapi.co/api/v2/type/grass/" = Err e /\ e = ValueError.
Proof.
  eexists. split; [reflexivity|].
  apply (id_from_url_only_value_error "https://pokeapi.co/api/v2/type/grass/").
  reflexivity.
Defined.

Lemma id_from_url_round_trip_witness :
  _id_from_url ("https://pokeapi.co/api/v2/ability" ++ "/" ++ str_of_int 65 ++ "/") = Ok 65
  /\ _id_from_url ("https://pokeapi.co/api/v2/ability" ++ "/" ++ str_of_int 65) = Ok 65.
Proof.
  apply (id_from_url_round_trip "https://pokeapi.co/api/v2/ability" 65).
  vm_compute. reflexivity.
Defined.

Lemma config_reads_any_integer_witness :
  let environ := fun k => if String.eqb k "MAX_RETRIES" then Some "0" else None in
  MAX_RETRIES_of environ = Ok 0 /\ MAX_CONCURRENCY_of environ = Ok 8.
Proof.
  intros environ.
  destruct (config_reads_any_integer environ 0) as (H1 & _ & _ & H4 & _).
  - vm_compute. reflexivity.
  - split; [by apply H1|by apply H4].
Defined.

Lemma fetch_json_first_success_witness :
  let url := "https://pokeapi.co/api/v2/pokemon/ivysaur" in
  let attempt := fun k => if (k <? 2)%nat then Raises (HTTPError 503)
                          else Body (Samples.sized_payload 2 "ivysaur" 10 130) in
  _fetch_json Config.defaults attempt url
  = (Ok (Samples.sized_payload 2 "ivysaur" 10 130),
     [Get url PyFloat.lit_10; Sleep PyFloat.lit_half;
      Get url PyFloat.lit_10; Sleep PyFloat.lit_half;
      Get url PyFloat.lit_10]).
Proof.
  intros url attempt.
  apply (fetch_json_first_success Config.defaults attempt url 2).
  - vm_compute. lia.
  - intros i Hi. destruct i as [|[|i]]; [done|done|lia].
  - reflexivity.
Defined.

Lemma fetch_json_exhausted_trace_witness :
  let url := "https://pokeapi.co/api/v2/pokemon/ivysaur" in
  (_fetch_json Config.defaults (Samples.ivysaur_down (Detail 1) url) url).2
  = [Get url PyFloat.lit_10; Sleep PyFloat.lit_half;
     Get url PyFloat.lit_10; Sleep PyFloat.lit_half;
     Get url PyFloat.lit_10; Sleep PyFloat.lit_half]
  /\ is_ok (_fetch_json Config.defaults (Samples.ivysaur_down (Detail 1) url) url).1 = false.
Proof.
  intros url.
  apply (fetch_json_exhausted_trace Config.defaults
           (Samples.ivysaur_down (Detail 1) url) url).
  intros k _. vm_compute. discriminate.
Defined.

Lemma fetch_pokemon_details_in_order_witness :
  exists details d,
    fetch_pokemon_details Config.defaults Samples.two_pokemon
      [JStr "bulbasaur"; JStr "ivysaur"] = Ok details
    /\ length details = 2%nat
    /\ details !! 1%nat = Some d
    /\ (_fetch_json Config.defaults
          (Samples.two_pokemon (Detail 1) "https://pokeapi.co/api/v2/pokemon/ivysaur")
          "https://pokeapi.co/api/v2/pokemon/ivysaur").1 = Ok d.
Proof.
  destruct (fetch_pokemon_details_in_order Config.defaults Samples.two_pokemon
              [JStr "bulbasaur"; JStr "ivysaur"]
              [Samples.sample_pokemon_payload; Samples.sized_payload 2 "ivysaur" 10 130])
    as [Hlen Hord].
  - vm_compute. reflexivity.
  - destruct (Hord 1%nat (JStr "ivysaur")) as (name & d & [= <-] & Hd & Hf); [reflexivity|].
    eexists _, d. split; [vm_compute; reflexivity|]. split; [exact Hlen|].
    split; [exact Hd|exact Hf].
Defined.

Lemma extract_transform_in_order_witness :
  exists items listing entries,
    extract_transform Samples.no_repr Config.defaults Samples.two_pokemon 2 0 = Ok items
    /\ fetch_pokemon_list Config.defaults Samples.two_pokemon 2 0 = Ok listing
    /\ iter listing = Ok entries
    /\ length items = length entries.
Proof.
  destruct (extract_transform_in_order Config.defaults Samples.no_repr Samples.two_pokemon
              2 0 [Samples.bulbasaur;
                   {| TPokemon.id := 2; TPokemon.name := "ivysaur";
                      TPokemon.base_experience := JNull; TPokemon.height_cm := 100;
                      TPokemon.weight_kg := S754_finite false 7318349394477056 (-49);
                      TPokemon.bmi := Some (S754_finite false 7318349394477056 (-49));
                      TPokemon.sprite_url := JNull; TPokemon.types := [];
                      TPokemon.abilities := []; TPokemon.stats := [] |}])
    as (listing & entries & Hl & Hi & Hlen & _).
  - vm_compute. reflexivity.
  - eexists _, listing, entries. split; [vm_compute; reflexivity|]. by repeat split.
Defined.

Lemma transform_one_reads_nine_fields_witness :
  transform_one Samples.no_repr
    (JObj [("id", JInt 2); ("order", JInt 2); ("name", JStr "ivysaur");
           ("height", JInt 10); ("is_default", JBool true); ("weight", JInt 130)])
  = transform_one Samples.no_repr (Samples.sized_payload 2 "ivysaur" 10 130).
Proof.
  apply (transform_one_reads_nine_fields Samples.no_repr).
  intros k Hk. by_cases_of_list Hk; reflexivity.
Defined.

Lemma transform_one_keeps_entries_witness :
  Forall2 (fun t e => type_entry t = Ok e)
    [JObj [("slot", JInt 1); ("type", JObj [("name", JStr "grass");
           ("url", JStr "https://pokeapi.co/api/v2/type/12/")])];
     JObj [("slot", JInt 2); ("type", JObj [("name", JStr "poison");
           ("url", JStr "https://pokeapi.co/api/v2/type/4/")])]]
    (TPokemon.types Samples.bulbasaur).
Proof.
  destruct (transform_one_keeps_entries Samples.no_repr
              [("id", JInt 1); ("name", JStr "bulbasaur"); ("height", JInt 7);
               ("weight", JInt 69);
               ("types", JArr [
                  JObj [("slot", JInt 1); ("type", JObj [("name", JStr "grass");
                        ("url", JStr "https://pokeapi.co/api/v2/type/12/")])];
                  JObj [("slot", JInt 2); ("type", JObj [("name", JStr "poison");
                        ("url", JStr "https://pokeapi.co/api/v2/type/4/")])]])]
              {| TPokemon.id := 1; TPokemon.name := "bulbasaur";
                 TPokemon.base_experience := JNull; TPokemon.height_cm := 70;
                 TPokemon.weight_kg := TPokemon.weight_kg Samples.bulbasaur;
                 TPokemon.bmi := TPokemon.bmi Samples.bulbasaur;
                 TPokemon.sprite_url := JNull;
                 TPokemon.types := TPokemon.types Samples.bulbasaur;
                 TPokemon.abilities := []; TPokemon.stats := [] |}) as (Ht & _ & _).
  - vm_compute. reflexivity.
  - apply Ht. reflexivity.
Defined.

Lemma transform_one_raises_only_witness :
  exists e,
    transform_one Samples.no_repr
      (JObj [("id", JInt 1); ("name", JStr "bulbasaur"); ("height", JInt 7)]) = Err e
    /\ ((exists k, e = KeyError k) \/ e = TypeError \/ e = ValueError
        \/ e = AttributeError \/ e = OverflowError).
Proof.
  eexists. split; [vm_compute; reflexivity|].
  apply (transform_one_raises_only Samples.no_repr
           (JObj [("id", JInt 1); ("name", JStr "bulbasaur"); ("height", JInt 7)])).
  vm_compute. reflexivity.
Defined.

Lemma sprite_url_is_front_default_witness :
  exists sprites,
    JObj [("front_default", JStr "https://example/img.png")] = JObj sprites
    /\ TPokemon.sprite_url Samples.bulbasaur
       = default JNull (assoc "front_default" sprites).
Proof.
  apply (sprite_url_is_front_default Samples.no_repr
           [("id", JInt 1); ("name", JStr "bulbasaur"); ("height", JInt 7);
            ("weight", JInt 69); ("base_experience", JInt 64);
            ("sprites", JObj [("front_default", JStr "https://example/img.png")])]
           {| TPokemon.id := 1; TPokemon.name := "bulbasaur";
              TPokemon.base_experience := JInt 64; TPokemon.height_cm := 70;
              TPokemon.weight_kg := TPokemon.weight_kg Samples.bulbasaur;
              TPokemon.bmi := TPokemon.bmi Samples.bulbasaur;
              TPokemon.sprite_url := TPokemon.sprite_url Samples.bulbasaur;
              TPokemon.types := []; TPokemon.abilities := []; TPokemon.stats := [] |}).
  vm_compute. reflexivity.
Defined.

Lemma semaphore_never_deadlocks_witness :
  let cfg := {| POKEAPI_BASE := "https://pokeapi.co/api/v2";
                HTTP_TIMEOUT_SECONDS := PyFloat.lit_10;
                MAX_CONCURRENCY := 1; MAX_RETRIES := 3 |} in
  exists st sched' st',
    Gather.run [Gather.Enter 1] (Gather.start cfg 3) = Some st
    /\ length sched' = 5%nat
    /\ Gather.run sched' st = Some st'
    /\ Forall (eq Gather.Finished) (Gather.tasks st')
    /\ Gather.permits st' = 1.
Proof.
  intros cfg.
  destruct (semaphore_never_deadlocks cfg 3 [Gather.Enter 1]
              {| Gather.permits := 0;
                 Gather.tasks := [Gather.Waiting; Gather.Fetching; Gather.Waiting] |})
    as (sched' & st' & Hlen & _ & Hrun & Hall & Hp).
  - vm_compute. discriminate.
  - reflexivity.
  - eexists _, sched', st'. split; [reflexivity|]. by repeat split.
Defined.

Lemma each_target_fetched_once_witness :
  let cfg := Config.defaults in
  let sched := [Gather.Enter 0; Gather.Enter 2; Gather.Leave 0; Gather.Enter 1] in
  is_Some (Gather.run sched (Gather.start cfg 3))
  /\ (length (filter (fun a => a = Gather.Enter 0) sched) <= 1)%nat
  /\ (length (filter (fun a => a = Gather.Leave 0) sched) <= 1)%nat.
Proof.
  intros cfg sched. split; [vm_compute; by eexists|].
  apply (each_target_fetched_once cfg 3 sched
           {| Gather.permits := 6;
              Gather.tasks := [Gather.Finished; Gather.Fetching; Gather.Fetching] |}).
  reflexivity.
Defined.

